(** * smallsh: a shallow embedding of [kiro_smallsh/smallsh.c]

    The shell is modelled as a state-passing program over a [world]:
    the C globals, the set of live [malloc] blocks and the trace of
    what the process wrote and which system calls it made.  Replies of
    the operating system ([fork], [waitpid], [chdir], [getenv]) are
    inputs of the functions that ask for them, so every theorem holds
    for every behaviour of the operating system.

    Not modelled: the flushing of [stdout] and the self-test mode of
    [main] ([--test]).  What the forked child does after it has set
    its signal dispositions ([setup_io_redirection] and [execvp], which
    never come back to the code of the shell) is modelled on its own,
    over the descriptor table of the child, at the end of the
    definitions.  Pointer arguments are never [NULL] in this program,
    so the checks for [NULL] arguments at the head of the functions
    are left out; a [NULL] from [malloc] is modelled. *)

From Stdlib Require Import ZArith Ascii String Lia.
From stdpp Require Import base gmap sets list strings pretty.

Local Open Scope Z_scope.

(** ** Constants *)

Definition MAX_LINE_LENGTH : nat := 2048.
Definition MAX_ARGS : nat := 512.
Definition MAX_BG_PROCESSES : Z := 100.

(** Values of [<signal.h>] and [<sys/wait.h>] on Linux. *)
Definition SIGINT : Z := 2.
Definition SIGKILL : Z := 9.
Definition SIGTERM : Z := 15.
Definition SIGTSTP : Z := 20.
Definition WNOHANG : Z := 1.

(** The line feed character. *)
Definition NL : string := String "010"%char EmptyString.

(** ** Data *)

(** A heap block is named by the serial number of the [malloc] call
    that returned it; a C string on the heap is its block and its
    characters. *)
Definition ptr := nat.

Record cstr := CStr { addr : ptr; text : string }.

(** [command_t].  [args] is the 513-slot array, [None] for [NULL]. *)
Record command_t := Command {
  command : option cstr;
  args : list (option cstr);
  input_file : option cstr;
  output_file : option cstr;
  background : Z
}.

(** [bg_process_t]. *)
Record bg_process_t := BgProcess { pid : Z; active : Z }.

(** The static variables of the file. *)
Record globals := Globals {
  background_processes : list bg_process_t;
  bg_process_count : Z;
  foreground_only_mode : Z;
  last_exit_status : Z;
  last_signal : Z
}.

(** The allocator: the live blocks, the serial number of the next
    request, and which requests the system refuses ([malloc] returns
    [NULL] for them). *)
Record heap := Heap {
  live : gset ptr;
  next_block : ptr;
  out_of_memory : ptr → bool
}.

(** The second argument of [signal]. *)
Inductive disposition := SIG_DFL | SIG_IGN | Handler (name : string).

(** An argument of [printf]: an [int] for [%d], a string for [%s]. *)
Inductive printf_arg := Int (z : Z) | Str (s : string).

(** What the process does to the outside, in order: the [printf]
    calls (to [stdout]), the [fprintf] calls (all of them to
    [stderr]), the bytes given to [write] (always on [stdout]), the
    [perror] calls, and the system calls.  Flushing is not modelled. *)
Inductive event :=
| Printf (format : string) (arguments : list printf_arg)
| Fprintf (format : string) (arguments : list printf_arg)
| Write (bytes : string)
| Perror (s : string)
| SysSignal (sig : Z) (d : disposition)
| SysFork
| SysWaitpid (p : Z) (options : Z)
| SysKill (p : Z) (sig : Z)
| SysUsleep (usec : Z)
| SysGetenv (name : string)
| SysChdir (path : string)
| SysExit (code : Z).

Record world := World {
  shell : globals;
  mem : heap;
  trace : list event
}.

(** ** The state monad of the process *)

Definition M (A : Type) : Type := world → A * world.

#[global] Instance M_ret : MRet M := λ A (a : A) w, (a, w).

#[global] Instance M_bind : MBind M :=
  λ A B (k : A → M B) (c : M A) w, let '(a, w1) := c w in k a w1.

Definition emit (e : event) : M unit :=
  λ w, (tt, World (shell w) (mem w) (trace w ++ [e])).

Definition printf (format : string) (arguments : list printf_arg) : M unit :=
  emit (Printf format arguments).

Definition fprintf_stderr (format : string) (arguments : list printf_arg) : M unit :=
  emit (Fprintf format arguments).

(** The text a [printf] call produces, for the conversions the shell
    uses. *)
Fixpoint render (format : string) (arguments : list printf_arg) : string :=
  match format with
  | String "%" (String c rest) =>
      match c, arguments with
      | "d"%char, Int z :: arguments' => pretty z +:+ render rest arguments'
      | "s"%char, Str s :: arguments' => s +:+ render rest arguments'
      | _, _ => String "%" (String c (render rest arguments))
      end
  | String c rest => String c (render rest arguments)
  | EmptyString => EmptyString
  end.

Definition get_globals : M globals := λ w, (shell w, w).

Definition put_globals (g : globals) : M unit :=
  λ w, (tt, World g (mem w) (trace w)).

(** [malloc(size)]: the block's serial number, or [None] for [NULL]. *)
Definition malloc (size : nat) : M (option ptr) :=
  λ w,
    let h := mem w in
    let n := next_block h in
    if out_of_memory h n
    then (None, World (shell w) (Heap (live h) (S n) (out_of_memory h)) (trace w))
    else (Some n,
          World (shell w) (Heap ({[n]} ∪ live h) (S n) (out_of_memory h)) (trace w)).

Definition free (p : ptr) : M unit :=
  λ w,
    let h := mem w in
    (tt, World (shell w) (Heap (live h ∖ {[p]}) (next_block h) (out_of_memory h))
               (trace w)).

(** ** [strtok] with the delimiters [" \t\n"] *)

Definition is_delim (c : ascii) : bool :=
  Ascii.eqb c " " || Ascii.eqb c "009" || Ascii.eqb c "010".

(** Skip the delimiters in front of the next token. *)
Fixpoint skip_delims (s : string) : string :=
  match s with
  | String c s' => if is_delim c then skip_delims s' else s
  | EmptyString => EmptyString
  end.

(** The token that starts here and what follows the delimiter that
    ends it (the delimiter is overwritten by the terminator). *)
Fixpoint scan_token (s : string) : string * string :=
  match s with
  | String c s' =>
      if is_delim c then (EmptyString, s')
      else let '(t, r) := scan_token s' in (String c t, r)
  | EmptyString => (EmptyString, EmptyString)
  end.

(** One call: [None] for [NULL], else the token and the saved position. *)
Definition strtok (s : string) : option (string * string) :=
  match skip_delims s with
  | EmptyString => None
  | String c s' => Some (scan_token (String c s'))
  end.

(** All tokens that successive calls deliver.  Every call consumes a
    character, so the length of the line bounds the number of calls. *)
Fixpoint strtok_all (calls : nat) (s : string) : list string :=
  match calls with
  | O => []
  | S calls' =>
      match strtok s with
      | None => []
      | Some (t, r) => t :: strtok_all calls' r
      end
  end.

Definition tokens_of (line : string) : list string :=
  strtok_all (String.length line) line.

(** ** [tokenize_line] *)

(** [for (i = 0; i < token_count; i++) free(tokens[i]);] *)
Fixpoint free_each (tokens : list cstr) : M unit :=
  match tokens with
  | [] => mret tt
  | t :: rest => free (addr t) ;; free_each rest
  end.

Definition line_too_long : event :=
  Fprintf ("Command line too long (max %d characters)" +:+ NL)
          [Int (Z.of_nat MAX_LINE_LENGTH)].

Definition too_many_tokens : event :=
  Fprintf ("Too many arguments (max %d)" +:+ NL) [Int (Z.of_nat MAX_ARGS)].

(** The [while] loop and the check after it.  [room] is
    [max_tokens - token_count], [tokens] the filled part of the array
    (so [token_count] is its length), [token] the result of the last
    [strtok] call.  The function returns the [int] result and the
    array as it stands. *)
Fixpoint tokenize_loop (room : nat) (token : option (string * string))
    (tokens : list cstr) : M (Z * list cstr) :=
  match token, room with
  | Some (tok, rest), S room' =>
      p ← malloc (String.length tok + 1);
      match p with
      | None => free_each tokens ;; mret (-1, tokens)
      | Some a => tokenize_loop room' (strtok rest) (tokens ++ [CStr a tok])
      end
  | Some _, O =>
      emit too_many_tokens ;;
      free_each tokens ;;
      mret (-1, tokens)
  | None, _ => mret (Z.of_nat (length tokens), tokens)
  end.

(** [tokenize_line(line, tokens, max_tokens)]: the [int] result and
    the array [tokens]. *)
Definition tokenize_line (line : string) (max_tokens : nat) : M (Z * list cstr) :=
  if (MAX_LINE_LENGTH <? String.length line)%nat
  then emit line_too_long ;; mret (-1, [])
  else tokenize_loop max_tokens (strtok line) [].

(** ** [parse_command] *)

Definition init_command : command_t :=
  Command None (replicate 513 None) None None 0.

Definition set_command (v : option cstr) (cmd : command_t) : command_t :=
  Command v (args cmd) (input_file cmd) (output_file cmd) (background cmd).

Definition set_arg (i : nat) (v : option cstr) (cmd : command_t) : command_t :=
  Command (command cmd) (<[i := v]> (args cmd)) (input_file cmd) (output_file cmd)
          (background cmd).

Definition set_input_file (v : option cstr) (cmd : command_t) : command_t :=
  Command (command cmd) (args cmd) v (output_file cmd) (background cmd).

Definition set_output_file (v : option cstr) (cmd : command_t) : command_t :=
  Command (command cmd) (args cmd) (input_file cmd) v (background cmd).

Definition set_background (v : Z) (cmd : command_t) : command_t :=
  Command (command cmd) (args cmd) (input_file cmd) (output_file cmd) v.

(** [free_tokens]: every token of the array is freed. *)
Definition free_tokens (tokens : list cstr) : M unit := free_each tokens.

(** The [while] loop that moves [trimmed] over spaces and tabs. *)
Fixpoint skip_blanks (s : string) : string :=
  match s with
  | String c s' =>
      if Ascii.eqb c " " || Ascii.eqb c "009" then skip_blanks s' else s
  | EmptyString => EmptyString
  end.

Definition missing_input : event :=
  Fprintf ("Missing filename for input redirection" +:+ NL) [].

Definition missing_output : event :=
  Fprintf ("Missing filename for output redirection" +:+ NL) [].

(** How the [for] loop over the tokens is left: by a [return] from
    inside it, or at its end. *)
Inductive loop_exit :=
| Returned (code : Z) (cmd : command_t)
| Finished (cmd : command_t) (arg_index : nat).

(** The branch that stores a token as command or argument (the source
    has it twice, for a ["&"] that is not last and for a regular
    token).  [inl]: an allocation failed and the function returns -1;
    [inr]: the token is stored. *)
Definition store_argument (t : cstr) (tokens : list cstr) (line_copy : ptr)
    (cmd : command_t) (arg_index : nat) : M (command_t + command_t) :=
  if (arg_index =? 0)%nat then
    p ← malloc (String.length (text t) + 1);
    match p with
    | None =>
        free_tokens tokens ;; free line_copy ;;
        mret (inl (set_command None cmd))
    | Some a =>
        let cmd := set_command (Some (CStr a (text t))) cmd in
        q ← malloc (String.length (text t) + 1);
        match q with
        | None =>
            free_tokens tokens ;; free line_copy ;;
            mret (inl (set_arg arg_index None cmd))
        | Some b => mret (inr (set_arg arg_index (Some (CStr b (text t))) cmd))
        end
    end
  else
    q ← malloc (String.length (text t) + 1);
    match q with
    | None =>
        free_tokens tokens ;; free line_copy ;;
        mret (inl (set_arg arg_index None cmd))
    | Some b => mret (inr (set_arg arg_index (Some (CStr b (text t))) cmd))
    end.

(** The [for] loop.  [rest] are the tokens from index [i] on, so
    [i + 1 >= token_count] and [i == token_count - 1] both say that
    nothing follows the token at hand; [tokens] is the whole array. *)
Fixpoint parse_tokens (rest tokens : list cstr) (line_copy : ptr)
    (cmd : command_t) (arg_index : nat) : M loop_exit :=
  match rest with
  | [] => mret (Finished cmd arg_index)
  | t :: rest1 =>
      if String.eqb (text t) "<" then
        match rest1 with
        | [] =>
            emit missing_input ;;
            free_tokens tokens ;; free line_copy ;;
            mret (Returned (-1) cmd)
        | f :: rest2 =>
            p ← malloc (String.length (text f) + 1);
            match p with
            | None =>
                free_tokens tokens ;; free line_copy ;;
                mret (Returned (-1) (set_input_file None cmd))
            | Some a =>
                parse_tokens rest2 tokens line_copy
                  (set_input_file (Some (CStr a (text f))) cmd) arg_index
            end
        end
      else if String.eqb (text t) ">" then
        match rest1 with
        | [] =>
            emit missing_output ;;
            free_tokens tokens ;; free line_copy ;;
            mret (Returned (-1) cmd)
        | f :: rest2 =>
            p ← malloc (String.length (text f) + 1);
            match p with
            | None =>
                free_tokens tokens ;; free line_copy ;;
                mret (Returned (-1) (set_output_file None cmd))
            | Some a =>
                parse_tokens rest2 tokens line_copy
                  (set_output_file (Some (CStr a (text f))) cmd) arg_index
            end
        end
      else if String.eqb (text t) "&" then
        match rest1 with
        | [] => parse_tokens rest1 tokens line_copy (set_background 1 cmd) arg_index
        | _ :: _ =>
            r ← store_argument t tokens line_copy cmd arg_index;
            match r with
            | inl cmd' => mret (Returned (-1) cmd')
            | inr cmd' => parse_tokens rest1 tokens line_copy cmd' (S arg_index)
            end
        end
      else
        r ← store_argument t tokens line_copy cmd arg_index;
        match r with
        | inl cmd' => mret (Returned (-1) cmd')
        | inr cmd' => parse_tokens rest1 tokens line_copy cmd' (S arg_index)
        end
  end.

(** [parse_command(line, cmd)]: the [int] result (0 parsed, 1 blank or
    comment line, -1 error) and [*cmd] as the call leaves it. *)
Definition parse_command (line : string) : M (Z * command_t) :=
  let cmd := init_command in
  lc ← malloc (String.length line + 1);
  match lc with
  | None => mret (-1, cmd)
  | Some line_copy =>
      match skip_blanks line with
      | EmptyString => free line_copy ;; mret (1, cmd)
      | String c _ =>
          if Ascii.eqb c "010" then free line_copy ;; mret (1, cmd)
          else if Ascii.eqb c "#" then free line_copy ;; mret (1, cmd)
          else
            '(token_count, tokens) ← tokenize_line line MAX_ARGS;
            if token_count <=? 0 then free line_copy ;; mret (-1, cmd)
            else
              e ← parse_tokens tokens tokens line_copy cmd 0%nat;
              match e with
              | Returned code cmd => mret (code, cmd)
              | Finished cmd arg_index =>
                  let cmd := set_arg arg_index None cmd in
                  free_tokens tokens ;; free line_copy ;;
                  match command cmd with
                  | None => mret (-1, cmd)
                  | Some _ => mret (0, cmd)
                  end
              end
      end
  end.

(** The argument vector of a command: the strings of [args] up to the
    first [NULL]. *)
Fixpoint argv_of (a : list (option cstr)) : list string :=
  match a with
  | Some c :: rest => text c :: argv_of rest
  | _ => []
  end.

Definition argv (cmd : command_t) : list string := argv_of (args cmd).

(** A world in which nothing has happened yet: the statics as the C
    runtime initialises them, an empty heap that never refuses a
    request, no output. *)
Definition initial_globals : globals :=
  Globals (replicate (Z.to_nat MAX_BG_PROCESSES) (BgProcess 0 0)) 0 0 0 0.

Definition initial_world : world :=
  World initial_globals (Heap ∅ 0%nat (λ _, false)) [].

(** ** The wait-status macros

    [WIFEXITED], [WEXITSTATUS], [WIFSIGNALED] and [WTERMSIG] come from
    the platform's [<sys/wait.h>], not from the repository, so the
    shell is defined over any platform that provides them.  The one
    fact used about them is that the number of a terminating signal is
    not zero. *)
Class WaitStatus := {
  WIFEXITED : Z → bool;
  WEXITSTATUS : Z → Z;
  WIFSIGNALED : Z → bool;
  WTERMSIG : Z → Z;
  WTERMSIG_nonzero : ∀ status, WIFSIGNALED status = true → WTERMSIG status ≠ 0
}.

(** The macros as glibc defines them on Linux ([bits/waitstatus.h]). *)
Definition signed_char (x : Z) : Z :=
  let y := x mod 256 in if y <? 128 then y else y - 256.

Definition glibc_WTERMSIG (status : Z) : Z := Z.land status 127.

Definition glibc_WEXITSTATUS (status : Z) : Z :=
  Z.shiftr (Z.land status 65280) 8.

Definition glibc_WIFEXITED (status : Z) : bool := glibc_WTERMSIG status =? 0.

Definition glibc_WIFSIGNALED (status : Z) : bool :=
  0 <? Z.shiftr (signed_char (Z.land status 127 + 1)) 1.

#[global] Instance glibc_wait : WaitStatus.
Proof.
  refine {| WIFEXITED := glibc_WIFEXITED;
            WEXITSTATUS := glibc_WEXITSTATUS;
            WIFSIGNALED := glibc_WIFSIGNALED;
            WTERMSIG := glibc_WTERMSIG |}.
  unfold glibc_WIFSIGNALED, glibc_WTERMSIG.
  intros status Hsig Hzero. rewrite Hzero in Hsig. discriminate Hsig.
Defined.

(** ** The shell *)

(** C truth values. *)
Definition truthy (z : Z) : bool := negb (z =? 0).
Definition c_not (z : Z) : Z := if truthy z then 0 else 1.
Definition c_and (a b : Z) : Z := if truthy a && truthy b then 1 else 0.

Inductive builtin_type_t := BUILTIN_EXIT | BUILTIN_CD | BUILTIN_STATUS | NOT_BUILTIN.

(** How a call that may end the process comes back: it returns, or the
    process has called [exit], or the process is the child that [fork]
    made (which goes on to [execvp] and never returns to the shell's
    logic). *)
Inductive outcome (A : Type) :=
| Returns (a : A)
| Exits (code : Z)
| InChild (run_background : Z).
Arguments Returns {A} a.
Arguments Exits {A} code.
Arguments InChild {A} run_background.

(** Updates of the statics. *)
Definition set_job (i : nat) (job : bg_process_t) (g : globals) : globals :=
  Globals (<[i := job]> (background_processes g)) (bg_process_count g)
          (foreground_only_mode g) (last_exit_status g) (last_signal g).

Definition set_bg_process_count (n : Z) (g : globals) : globals :=
  Globals (background_processes g) n (foreground_only_mode g)
          (last_exit_status g) (last_signal g).

Definition set_foreground_only_mode (v : Z) (g : globals) : globals :=
  Globals (background_processes g) (bg_process_count g) v
          (last_exit_status g) (last_signal g).

Definition set_last_exit_status (v : Z) (g : globals) : globals :=
  Globals (background_processes g) (bg_process_count g) (foreground_only_mode g)
          v (last_signal g).

Definition set_last_signal (v : Z) (g : globals) : globals :=
  Globals (background_processes g) (bg_process_count g) (foreground_only_mode g)
          (last_exit_status g) v.

Definition modify_globals (f : globals → globals) : M unit :=
  g ← get_globals; put_globals (f g).

Definition get_builtin_type (command : option string) : builtin_type_t :=
  match command with
  | None => NOT_BUILTIN
  | Some name =>
      if String.eqb name "exit" then BUILTIN_EXIT
      else if String.eqb name "cd" then BUILTIN_CD
      else if String.eqb name "status" then BUILTIN_STATUS
      else NOT_BUILTIN
  end.

(** The status lines of the shell, as the [printf] calls that write
    them. *)
Definition background_pid_is (p : Z) : event :=
  Printf ("background pid is %d" +:+ NL) [Int p].

Definition done_exit_format : string :=
  "background pid %d is done: exit value %d" +:+ NL.

Definition done_signal_format : string :=
  "background pid %d is done: terminated by signal %d" +:+ NL.

Definition terminating_format : string :=
  "Terminating background process %d" +:+ NL.

Definition background_done_exit (p code : Z) : event :=
  Printf done_exit_format [Int p; Int code].

Definition background_done_signal (p sig : Z) : event :=
  Printf done_signal_format [Int p; Int sig].

Definition terminated_by_signal (sig : Z) : event :=
  Printf ("terminated by signal %d" +:+ NL) [Int sig].

Definition exit_value (code : Z) : event :=
  Printf ("exit value %d" +:+ NL) [Int code].

Definition changed_directory (dir : string) : event :=
  Printf ("Changed directory to: %s" +:+ NL) [Str dir].

(** What an event puts on the terminal. *)
Definition text_of (e : event) : string :=
  match e with
  | Printf format arguments | Fprintf format arguments => render format arguments
  | Write bytes => bytes
  | _ => EmptyString
  end.

(** The body of the [for] loop of [cleanup_all_background_processes]. *)
Definition cleanup_slot (i : nat) : M unit :=
  g ← get_globals;
  match background_processes g !! i with
  | Some job =>
      if truthy (active job) then
        printf terminating_format [Int (pid job)] ;;
        emit (SysKill (pid job) SIGTERM) ;;
        emit (SysUsleep 100000) ;;
        emit (SysKill (pid job) SIGKILL)
      else mret tt
  | None => mret tt
  end.

(** [for (int i = 0; i < n; i++) body(i)], for a bound the body leaves
    alone. *)
Fixpoint for_each (indices : list nat) (body : nat → M unit) : M unit :=
  match indices with
  | [] => mret tt
  | i :: rest => body i ;; for_each rest body
  end.

Definition cleanup_all_background_processes : M unit :=
  g ← get_globals;
  for_each (seq 0 (Z.to_nat (bg_process_count g))) cleanup_slot.

(** [write(STDOUT_FILENO, buf, count)]. *)
Definition write_stdout (buf : string) (count : nat) : M unit :=
  emit (Write (String.substring 0 count buf)).

(** [sigtstp_handler]. *)
Definition sigtstp_handler : M unit :=
  g ← get_globals;
  if truthy (foreground_only_mode g) then
    put_globals (set_foreground_only_mode 0 g) ;;
    write_stdout (NL +:+ "Exiting foreground-only mode" +:+ NL) 30
  else
    put_globals (set_foreground_only_mode 1 g) ;;
    write_stdout (NL +:+ "Entering foreground-only mode (& is now ignored)" +:+ NL) 49.

Section Shell.
Context `{WaitStatus}.

(** The body of the [for] loop of [check_background_processes];
    [os_wait] is what [waitpid] answers: its result and the status it
    stores. *)
Definition check_slot (os_wait : Z * Z) (i : nat) : M unit :=
  g ← get_globals;
  match background_processes g !! i with
  | Some job =>
      if truthy (active job) then
        emit (SysWaitpid (pid job) WNOHANG) ;;
        let '(result, status) := os_wait in
        if 0 <? result then
          modify_globals (set_job i (BgProcess (pid job) 0)) ;;
          if WIFEXITED status then
            emit (background_done_exit (pid job) (WEXITSTATUS status))
          else if WIFSIGNALED status then
            emit (background_done_signal (pid job) (WTERMSIG status))
          else mret tt
        else if result =? -1 then
          modify_globals (set_job i (BgProcess (pid job) 0))
        else mret tt
      else mret tt
  | None => mret tt
  end.

(** The [for] loop of [check_background_processes] over the slots
    [indices]; [os_waits i] is the answer to the [waitpid] call made
    for slot [i]. *)
Definition check_jobs (os_waits : nat → Z * Z) (indices : list nat) : M unit :=
  for_each indices (λ i, check_slot (os_waits i) i).

Definition check_background_processes (os_waits : nat → Z * Z) : M unit :=
  g ← get_globals;
  check_jobs os_waits (seq 0 (Z.to_nat (bg_process_count g))).

(** [execute_builtin].  The result carries the [int] returned;
    [*last_status] is never written.  [os_home] is what
    [getenv("HOME")] answers and [os_chdir] what [chdir] answers. *)
Definition execute_builtin (cmd : command_t) (os_home : option string)
    (os_chdir : Z) : M (outcome Z) :=
  match command cmd with
  | None => mret (Returns (-1))
  | Some name =>
      match get_builtin_type (Some (text name)) with
      | BUILTIN_EXIT =>
          printf ("Exiting shell..." +:+ NL) [] ;;
          cleanup_all_background_processes ;;
          emit (SysExit 0) ;;
          mret (Exits 0)
      | BUILTIN_CD =>
          (* the arguments after the command name, which the [while]
             loop counts: none, one, or more *)
          match argv_of (drop 1 (args cmd)) with
          | [] =>
              emit (SysGetenv "HOME") ;;
              match os_home with
              | None =>
                  fprintf_stderr ("cd: HOME environment variable not set" +:+ NL) [] ;;
                  mret (Returns (-1))
              | Some target_dir =>
                  emit (SysChdir target_dir) ;;
                  if negb (os_chdir =? 0) then
                    emit (Perror "cd") ;; mret (Returns (-1))
                  else
                    emit (changed_directory target_dir) ;;
                    mret (Returns 0)
              end
          | [target_dir] =>
              emit (SysChdir target_dir) ;;
              if negb (os_chdir =? 0) then
                emit (Perror "cd") ;; mret (Returns (-1))
              else
                emit (changed_directory target_dir) ;;
                mret (Returns 0)
          | _ :: _ :: _ =>
              fprintf_stderr ("cd: too many arguments" +:+ NL) [] ;;
              mret (Returns (-1))
          end
      | BUILTIN_STATUS =>
          g ← get_globals;
          (if negb (last_signal g =? 0) then
             emit (terminated_by_signal (last_signal g))
           else
             emit (exit_value (last_exit_status g))) ;;
          mret (Returns 0)
      | NOT_BUILTIN => mret (Returns (-1))
      end
  end.

(** [execute_external_command].  [last_status] is the value of
    [*last_status] at the call; the result carries the [int] returned
    and the value of [*last_status] at the return.  [os_fork] is what
    [fork] answers and [os_wait] what the blocking [waitpid] answers. *)
Definition execute_external_command (cmd : command_t) (last_status : Z)
    (foreground_only : Z) (os_fork : Z) (os_wait : Z * Z) : M (outcome (Z * Z)) :=
  match command cmd with
  | None => mret (Returns (-1, last_status))
  | Some _ =>
      let run_background := c_and (background cmd) (c_not foreground_only) in
      emit SysFork ;;
      let child_pid := os_fork in
      if child_pid =? -1 then
        emit (Perror "fork failed") ;;
        mret (Returns (-1, 1))
      else if child_pid =? 0 then
        (* the child: its signal dispositions; redirection and
           [execvp] follow in the child and do not come back *)
        emit (SysSignal SIGINT (if truthy run_background then SIG_IGN else SIG_DFL)) ;;
        emit (SysSignal SIGTSTP SIG_IGN) ;;
        mret (InChild run_background)
      else if truthy run_background then
        emit (background_pid_is child_pid) ;;
        g ← get_globals;
        (if bg_process_count g <? MAX_BG_PROCESSES then
           put_globals
             (set_bg_process_count (bg_process_count g + 1)
                (set_job (Z.to_nat (bg_process_count g)) (BgProcess child_pid 1) g))
         else mret tt) ;;
        mret (Returns (0, last_status))
      else
        emit (SysWaitpid child_pid 0) ;;
        let '(wait_result, status) := os_wait in
        if wait_result =? -1 then
          emit (Perror "waitpid failed") ;;
          mret (Returns (-1, 1))
        else if WIFEXITED status then
          let last_status := WEXITSTATUS status in
          modify_globals (set_last_exit_status last_status) ;;
          modify_globals (set_last_signal 0) ;;
          mret (Returns (0, last_status))
        else if WIFSIGNALED status then
          let signal_num := WTERMSIG status in
          emit (terminated_by_signal signal_num) ;;
          modify_globals (set_last_signal signal_num) ;;
          modify_globals (set_last_exit_status 0) ;;
          mret (Returns (0, signal_num))
        else mret (Returns (0, last_status))
  end.

(** [free_command]: the strings of the command are freed (the fields
    it resets belong to a structure that the next [parse_command]
    initialises again). *)
Definition free_string (s : option cstr) : M unit :=
  match s with
  | Some c => free (addr c)
  | None => mret tt
  end.

Fixpoint free_args (a : list (option cstr)) : M unit :=
  match a with
  | Some c :: rest => free (addr c) ;; free_args rest
  | _ => mret tt
  end.

Definition free_command (cmd : command_t) : M unit :=
  free_string (command cmd) ;;
  free_args (args cmd) ;;
  free_string (input_file cmd) ;;
  free_string (output_file cmd).

(** [setup_signal_handlers]. *)
Definition setup_signal_handlers : M unit :=
  emit (SysSignal SIGINT SIG_IGN) ;;
  emit (SysSignal SIGTSTP (Handler "sigtstp_handler")) ;;
  printf ("Signal handlers set up:" +:+ NL) [] ;;
  printf ("  SIGINT: Ignored in parent shell" +:+ NL) [] ;;
  printf ("  SIGTSTP: Custom handler for foreground-only mode toggle" +:+ NL) [].

(** What the operating system answers during one turn of the loop of
    [main]: to the [waitpid] calls of the job check, to [fgets], and to
    the calls the dispatched command makes. *)
Inductive fgets_result := Line (input_line : string) | EndOfFile | InputError.

Record os_replies := OsReplies {
  os_waits : nat → Z * Z;
  os_fgets : fgets_result;
  os_fork : Z;
  os_wait : Z * Z;
  os_home : option string;
  os_chdir : Z
}.

(** How one turn of the loop ends: with the next turn ([status] is the
    local variable of [main]), with [break], with the end of the
    process, or in the forked child. *)
Inductive flow :=
| Continue (status : Z)
| Break
| Exited (code : Z)
| Child (run_background : Z).

(** The body of [while (1)] in [main].  After a truncated line the
    source drains the rest of the line from [stdin]; here the next
    reply of [fgets] stands for what [stdin] holds then. *)
Definition main_iteration (os : os_replies) (status : Z) : M flow :=
  check_background_processes (os_waits os) ;;
  printf ": " [] ;;
  match os_fgets os with
  | EndOfFile =>
      printf (NL +:+ "EOF detected - exiting shell" +:+ NL) [] ;; mret Break
  | InputError =>
      printf (NL +:+ "Input error - exiting shell" +:+ NL) [] ;; mret Break
  | Line input_line =>
      let len := String.length input_line in
      (if (len =? MAX_LINE_LENGTH)%nat
          && negb (bool_decide (String.get (len - 1) input_line = Some "010"%char))
       then printf ("Command line too long - truncated" +:+ NL) []
       else mret tt) ;;
      '(parse_result, cmd) ← parse_command input_line;
      if parse_result =? 1 then mret (Continue status)
      else if parse_result =? -1 then mret (Continue status)
      else
        match get_builtin_type (text <$> command cmd) with
        | NOT_BUILTIN =>
            g ← get_globals;
            r ← execute_external_command cmd status (foreground_only_mode g)
                  (os_fork os) (os_wait os);
            match r with
            | Returns (_, status) => free_command cmd ;; mret (Continue status)
            | Exits code => mret (Exited code)
            | InChild run_background => mret (Child run_background)
            end
        | _ =>
            let cmd := set_background 0 cmd in
            r ← execute_builtin cmd (os_home os) (os_chdir os);
            match r with
            | Returns _ => free_command cmd ;; mret (Continue status)
            | Exits code => mret (Exited code)
            | InChild run_background => mret (Child run_background)
            end
        end
  end.

(** What happens to the shell, one after the other: a turn of the
    loop, or the delivery of the stop signal between two turns. *)
Inductive step := Turn (os : os_replies) | Sigtstp.

Definition main_step (s : step) (status : Z) : M flow :=
  match s with
  | Turn os => main_iteration os status
  | Sigtstp => sigtstp_handler ;; mret (Continue status)
  end.

Fixpoint main_loop (steps : list step) (status : Z) : M flow :=
  match steps with
  | [] => mret (Continue status)
  | s :: rest =>
      f ← main_step s status;
      match f with
      | Continue status => main_loop rest status
      | Break =>
          cleanup_all_background_processes ;;
          printf ("smallsh shell exiting..." +:+ NL) [] ;;
          mret (Exited 0)
      | f => mret f
      end
  end.

(** [main] without its test mode, run for as long as [steps] tells. *)
Definition main (steps : list step) : M flow :=
  setup_signal_handlers ;;
  printf ("smallsh shell starting..." +:+ NL) [] ;;
  main_loop steps 0.

End Shell.

(** ** Sample sessions *)

(** A turn in which the user types [line] and the system answers
    [child_pid] to [fork] and [wait] to the blocking [waitpid]; no job
    has finished, [HOME] is [/root] and [chdir] succeeds. *)
Definition types (line : string) (child_pid : Z) (wait : Z * Z) : step :=
  Turn (OsReplies (λ _, (0, 0)) (Line (line +:+ NL)) child_pid wait
                  (Some "/root") 0).

(** The same turn, in which the job check gets [polls] as answers. *)
Definition types_while (polls : nat → Z * Z) (line : string) (child_pid : Z)
    (wait : Z * Z) : step :=
  Turn (OsReplies polls (Line (line +:+ NL)) child_pid wait (Some "/root") 0).

(** The command a line parses to, in the empty world. *)
Definition parsed (line : string) : command_t :=
  (parse_command line initial_world).1.2.

(** The world after [n] commands were started in the background in a
    fresh shell, the children numbered from [first]. *)
Definition after_spawns (n : nat) (first : Z) : world :=
  let cmd := parsed "sleep 100 &" in
  fold_left
    (λ w i, (execute_external_command cmd 0 0 (first + Z.of_nat i) (0, 0) w).2)
    (seq 0 n) initial_world.


(** ** Notions used in the statements *)

(** The formats of the lines the job tracker and the exit clean-up
    print about a job. *)
Definition job_line (format : string) : bool :=
  String.eqb format done_exit_format
  || String.eqb format done_signal_format
  || String.eqb format terminating_format.

(** [concerns p e]: with the event [e] the job tracker or the exit
    clean-up deals with process [p]: the non-blocking [waitpid] on it,
    the report of its completion, the notice of its termination, a
    [kill] of it. *)
Definition concerns (p : Z) (e : event) : bool :=
  match e with
  | SysWaitpid q options => (options =? WNOHANG) && (q =? p)
  | SysKill q _ => q =? p
  | Printf format (Int q :: _) => job_line format && (q =? p)
  | _ => false
  end.

(** An event that concerns no process. *)
Definition harmless (e : event) : Prop := ∀ p, concerns p e = false.

(** [p] is not the pid of an active job of the registry. *)
Definition untracked (p : Z) (g : globals) : Prop :=
  ∀ i job,
    (i < Z.to_nat (bg_process_count g))%nat →
    background_processes g !! i = Some job →
    truthy (active job) = true → pid job ≠ p.

(** How the registry of [g'] can differ from that of an earlier [g]. *)
Record evolves (g g' : globals) : Prop := Evolves {
  length_kept :
    length (background_processes g') = length (background_processes g);
  count_grows : bg_process_count g ≤ bg_process_count g';
  count_bounded :
    bg_process_count g ≤ MAX_BG_PROCESSES → bg_process_count g' ≤ MAX_BG_PROCESSES;
  slots_kept :
    ∀ i job,
      (i < Z.to_nat (bg_process_count g))%nat →
      background_processes g !! i = Some job →
      ∃ job',
        background_processes g' !! i = Some job'
        ∧ pid job' = pid job
        ∧ (active job = 0 → active job' = 0);
  full_frozen :
    MAX_BG_PROCESSES ≤ bg_process_count g →
    bg_process_count g' = bg_process_count g
    ∧ pid <$> background_processes g' = pid <$> background_processes g
}.

(** The invariant of a session that started in [w0], for a process
    [p]: the registry has evolved from that of [w0], and if it was
    full then and [p] was not an active job of it, nothing that
    happened since concerns [p]. *)
Definition session_inv (w0 : world) (p : Z) (w : world) : Prop :=
  evolves (shell w0) (shell w)
  ∧ (bg_process_count (shell w0) = MAX_BG_PROCESSES →
     untracked p (shell w0) →
     ∃ new, trace w = trace w0 ++ new ∧ Forall (λ e, concerns p e = false) new).

(** A computation that leaves the statics alone and whose events
    concern no process. *)
Definition quiet {A} (c : M A) : Prop :=
  ∀ w, shell (c w).2 = shell w
       ∧ ∃ new, trace (c w).2 = trace w ++ new ∧ Forall harmless new.

(** A computation that keeps the invariant of the session. *)
Definition keeps (w0 : world) (p : Z) {A} (c : M A) : Prop :=
  ∀ w, session_inv w0 p w → session_inv w0 p (c w).2.

(** A computation under which the registry evolves and whose events
    concern no process. *)
Definition tame {A} (c : M A) : Prop :=
  ∀ w, evolves (shell w) (shell (c w).2)
       ∧ ∃ new, trace (c w).2 = trace w ++ new ∧ Forall harmless new.

(** What the job check prints for a job whose termination [waitpid]
    has reported with [status]. *)
Definition completion_report `{WaitStatus} (p status : Z) : list event :=
  if WIFEXITED status then [background_done_exit p (WEXITSTATUS status)]
  else if WIFSIGNALED status then [background_done_signal p (WTERMSIG status)]
  else [].

(** What the exit clean-up does to an active job. *)
Definition termination_of (p : Z) : list event :=
  [Printf terminating_format [Int p]; SysKill p SIGTERM; SysUsleep 100000;
   SysKill p SIGKILL].

(** The lines of the job check that report a completion. *)
Definition is_completion_report (e : event) : bool :=
  match e with
  | Printf format _ =>
      String.eqb format done_exit_format || String.eqb format done_signal_format
  | _ => false
  end.

(** The allocator never refuses a request. *)
Definition no_oom (h : heap) : Prop := ∀ k, out_of_memory h k = false.

(** Every live block was handed out by an earlier request. *)
Definition heap_ok (h : heap) : Prop := ∀ a, a ∈ live h → (a < next_block h)%nat.

(** The copies of [toks] on the heap when the next free serial number
    is [next] and no request is refused. *)
Fixpoint name_blocks (next : ptr) (toks : list string) : list cstr :=
  match toks with
  | [] => []
  | t :: rest => CStr next t :: name_blocks (S next) rest
  end.

(** A line of [n] one-letter tokens, each followed by a space. *)
Fixpoint crowded_line (n : nat) : string :=
  match n with
  | O => EmptyString
  | S n' => String "a" (String " " (crowded_line n'))
  end.

(** ** Notions about the tokens of a line *)

(** The line is one that [parse_command] skips: blank, or a comment. *)
Definition is_blank_or_comment (line : string) : bool :=
  match skip_blanks line with
  | EmptyString => true
  | String c _ => Ascii.eqb c "010" || Ascii.eqb c "#"
  end.

(** [parse_command] gets to scan the tokens of the line: the line is
    not skipped and the tokenizer accepts it. *)
Definition tokens_scanned (line : string) : Prop :=
  is_blank_or_comment line = false
  ∧ (String.length line ≤ MAX_LINE_LENGTH)%nat
  ∧ (length (tokens_of line) ≤ MAX_ARGS)%nat.

Definition is_redirect (t : string) : bool := String.eqb t "<" || String.eqb t ">".

(** Reading [toks] from the left, with every redirection operator
    taking the token after it as its filename: [awaits_filename toks]
    says that the last token is an operator whose filename is still to
    come.  So after a prefix [pre] with [awaits_filename pre = false]
    the next token is not read as a filename. *)
Fixpoint awaits_filename (toks : list string) : bool :=
  match toks with
  | [] => false
  | t :: rest =>
      if is_redirect t then
        match rest with
        | [] => true
        | _ :: rest' => awaits_filename rest'
        end
      else awaits_filename rest
  end.

(** The redirection target that belongs to an operator. *)
Definition redirect_of (op : string) (cmd : command_t) : option string :=
  if String.eqb op "<" then text <$> input_file cmd else text <$> output_file cmd.

Definition missing_filename (op : string) : event :=
  if String.eqb op "<" then missing_input else missing_output.

(** ** The parser on strings

    What [parse_tokens] computes when no allocation fails, without the
    heap: the argument list, the redirection targets and the flag, and
    whether a filename was missing. *)
Record scanned := Scanned {
  s_argv : list string;
  s_input : option string;
  s_output : option string;
  s_background : Z
}.

Fixpoint scan (toks : list string) (v : scanned) : option event * scanned :=
  match toks with
  | [] => (None, v)
  | t :: rest1 =>
      if String.eqb t "<" then
        match rest1 with
        | [] => (Some missing_input, v)
        | f :: rest2 =>
            scan rest2 (Scanned (s_argv v) (Some f) (s_output v) (s_background v))
        end
      else if String.eqb t ">" then
        match rest1 with
        | [] => (Some missing_output, v)
        | f :: rest2 =>
            scan rest2 (Scanned (s_argv v) (s_input v) (Some f) (s_background v))
        end
      else if String.eqb t "&" then
        match rest1 with
        | [] => scan rest1 (Scanned (s_argv v) (s_input v) (s_output v) 1)
        | _ :: _ =>
            scan rest1 (Scanned (s_argv v ++ [t]) (s_input v) (s_output v)
                                (s_background v))
        end
      else
        scan rest1 (Scanned (s_argv v ++ [t]) (s_input v) (s_output v)
                            (s_background v))
  end.

Definition view_of (cmd : command_t) : scanned :=
  Scanned (argv cmd) (text <$> input_file cmd) (text <$> output_file cmd)
          (background cmd).

(** The shape of [args] while the parser fills it: [arg_index] copies,
    then [NULL] up to the end of the 513 slots; the command is the
    first of them. *)
Definition args_ok (cmd : command_t) (arg_index : nat) : Prop :=
  (arg_index ≤ 512)%nat
  ∧ (∃ stored : list cstr,
       length stored = arg_index
       ∧ args cmd = (Some <$> stored) ++ replicate (513 - arg_index) None)
  ∧ text <$> command cmd = head (argv cmd).

(** A step that touches neither the statics, nor the trace, nor the
    allocator's refusals. *)
Definition heap_only (w w' : world) : Prop :=
  shell w' = shell w ∧ trace w' = trace w
  ∧ out_of_memory (mem w') = out_of_memory (mem w).


(** The two updates of [scan]. *)
Definition take_filename (op f : string) (v : scanned) : scanned :=
  if String.eqb op "<" then Scanned (s_argv v) (Some f) (s_output v) (s_background v)
  else Scanned (s_argv v) (s_input v) (Some f) (s_background v).

Definition push_argument (t : string) (v : scanned) : scanned :=
  Scanned (s_argv v ++ [t]) (s_input v) (s_output v) (s_background v).

(** The target that belongs to an operator, in what [scan] returns. *)
Definition target_of (op : string) (v : scanned) : option string :=
  if String.eqb op "<" then s_input v else s_output v.

(** The line ends in a background marker that is not read as a
    filename. *)
Definition ends_with_marker (toks : list string) : Prop :=
  ∃ pre, toks = pre ++ ["&"] ∧ awaits_filename pre = false.

(** [f] is the token after an operator [op] that is not itself read as
    a filename. *)
Definition filename_after (op f : string) (toks : list string) : Prop :=
  ∃ pre post, toks = pre ++ op :: f :: post ∧ awaits_filename pre = false.


(** Unfolds the monad and its primitive operations. *)

Ltac run :=
  repeat first
    [ progress unfold mbind, mret, M_bind, M_ret, emit, printf, fprintf_stderr,
        write_stdout, get_globals, put_globals, modify_globals
    | progress cbn [fst snd shell mem trace] ].

(** ** Further notions *)

(** What the exit clean-up does for a list of registry entries, in
    order. *)
Definition cleanup_events (jobs : list bg_process_t) : list event :=
  flat_map (λ job, if truthy (active job) then termination_of (pid job) else [])
           jobs.

(** The jobs that the loops over the registry visit. *)
Definition registered (g : globals) : list bg_process_t :=
  take (Z.to_nat (bg_process_count g)) (background_processes g).

(** The notice of [main] for a line that filled the buffer. *)
Definition truncation_notice (input_line : string) : list event :=
  let len := String.length input_line in
  if (len =? MAX_LINE_LENGTH)%nat
     && negb (bool_decide (String.get (len - 1) input_line = Some "010"%char))
  then [Printf ("Command line too long - truncated" +:+ NL) []]
  else [].

(** A word: a non-empty string without a delimiter of the tokenizer. *)
Fixpoint delimiter_free (s : string) : bool :=
  match s with
  | String c s' => negb (is_delim c) && delimiter_free s'
  | EmptyString => true
  end.

Definition is_word (s : string) : bool :=
  match s with
  | EmptyString => false
  | String _ _ => delimiter_free s
  end.

(** A run of delimiters. *)
Fixpoint only_delims (s : string) : bool :=
  match s with
  | String c s' => is_delim c && only_delims s'
  | EmptyString => true
  end.

Definition is_separator (s : string) : bool :=
  match s with
  | EmptyString => false
  | String _ _ => only_delims s
  end.

(** A line written as words, each followed by a separator. *)
Fixpoint spaced (pieces : list (string * string)) : string :=
  match pieces with
  | [] => EmptyString
  | (word, separator) :: rest => word +:+ separator +:+ spaced rest
  end.

(** The words with one space between them. *)
Fixpoint unwords (words : list string) : string :=
  match words with
  | [] => EmptyString
  | word :: rest =>
      match rest with
      | [] => word
      | _ :: _ => word +:+ " " +:+ unwords rest
      end
  end.

(** The blocks that a command structure points to, in the order in
    which [free_command] frees them. *)
Definition pointers (cmd : command_t) : list ptr :=
  addr <$> (option_list (command cmd) ++ omap id (args cmd)
            ++ option_list (input_file cmd) ++ option_list (output_file cmd)).

(** The filenames that the operator [op] takes on a line, from left to
    right, every operator taking the token after it. *)
Fixpoint filenames (op : string) (toks : list string) : list string :=
  match toks with
  | [] => []
  | t :: rest =>
      if is_redirect t then
        match rest with
        | [] => []
        | f :: rest' => (if String.eqb t op then [f] else []) ++ filenames op rest'
        end
      else filenames op rest
  end.

(** The filenames of a line that a later one of the same operator
    replaces. *)
Definition replaced_filenames (toks : list string) : nat :=
  Nat.pred (length (filenames "<" toks)) + Nat.pred (length (filenames ">" toks)).

(** The same count when the structure already holds targets. *)
Definition overwritten (toks : list string) (cmd : command_t) : nat :=
  Nat.pred (length (option_list (input_file cmd)) + length (filenames "<" toks))
  + Nat.pred (length (option_list (output_file cmd)) + length (filenames ">" toks)).

(** What [parse_command] prints about a line that it does not accept,
    when no allocation fails: nothing for a line it skips and for a
    line without a command, else the diagnostic.  [None]: the line is
    accepted. *)
Definition rejected (line : string) : option (list event) :=
  if is_blank_or_comment line then Some []
  else if (MAX_LINE_LENGTH <? String.length line)%nat then Some [line_too_long]
  else if (MAX_ARGS <? length (tokens_of line))%nat then Some [too_many_tokens]
  else
    match scan (tokens_of line) (view_of init_command) with
    | (Some m, _) => Some [m]
    | (None, v) => match s_argv v with [] => Some [] | _ :: _ => None end
    end.

(** A word that starts a comment. *)
Definition starts_comment (s : string) : bool :=
  match s with
  | String c _ => Ascii.eqb c "#"
  | EmptyString => false
  end.

(** The command name that [parse_command] finds on a line. *)
Definition command_name (line : string) : option string :=
  head (s_argv (scan (tokens_of line) (view_of init_command)).2).

(** ** The forked child: redirection and [execvp]

    What the child does after it has set its signal dispositions.  It
    has its own descriptor table and its own trace; it never comes
    back to the loop of the shell. *)

(** The flags of the three [open] calls: [O_RDONLY], [O_WRONLY], and
    [O_WRONLY | O_CREAT | O_TRUNC] with mode 0644. *)
Inductive open_flags := O_RDONLY | O_WRONLY | O_WRONLY_CREAT_TRUNC.

Definition STDIN_FILENO : Z := 0.
Definition STDOUT_FILENO : Z := 1.

(** What a descriptor refers to: what the shell had open at [fd] when
    it forked, or a file the child has opened. *)
Inductive description :=
| Inherited (fd : Z)
| Opened (path : string) (flags : open_flags).

Inductive child_event :=
| SysOpen (path : string) (flags : open_flags)
| SysDup2 (oldfd newfd : Z)
| SysClose (fd : Z)
| ChildPerror (message : string)
| SysExecvp (file : string) (arguments : list string)
| ChildExit (code : Z).

Record child_world := ChildWorld {
  fd_table : gmap Z description;
  child_trace : list child_event
}.

Definition C (A : Type) : Type := child_world → A * child_world.

#[global] Instance C_ret : MRet C := λ A (a : A) w, (a, w).

#[global] Instance C_bind : MBind C :=
  λ A B (k : A → C B) (c : C A) w, let '(a, w1) := c w in k a w1.

Definition child_emit (e : child_event) : C unit :=
  λ w, (tt, ChildWorld (fd_table w) (child_trace w ++ [e])).

(** [open(path, flags)]; [reply] is what the system answers: the new
    descriptor, or -1. *)
Definition sys_open (path : string) (flags : open_flags) (reply : Z) : C Z :=
  λ w,
    (reply,
     ChildWorld (if reply =? -1 then fd_table w
                 else <[reply := Opened path flags]> (fd_table w))
                (child_trace w ++ [SysOpen path flags])).

(** [dup2(oldfd, newfd)]; [reply] is [newfd], or -1. *)
Definition sys_dup2 (oldfd newfd : Z) (reply : Z) : C Z :=
  λ w,
    (reply,
     ChildWorld (if reply =? -1 then fd_table w
                 else match fd_table w !! oldfd with
                      | Some d => <[newfd := d]> (fd_table w)
                      | None => fd_table w
                      end)
                (child_trace w ++ [SysDup2 oldfd newfd])).

Definition sys_close (fd : Z) : C unit :=
  λ w, (tt, ChildWorld (delete fd (fd_table w)) (child_trace w ++ [SysClose fd])).

Definition child_perror (message : string) : C unit := child_emit (ChildPerror message).

(** The block that [setup_io_redirection] has four times: open the
    file, put it in the place of [target] with [dup2], close the
    descriptor of [open].  The result is 0, or -1 after a failure. *)
Definition redirect_to (path : string) (flags : open_flags) (target : Z)
    (os_open os_dup2 : Z) (open_failed dup2_failed : string) : C Z :=
  fd ← sys_open path flags os_open;
  if fd =? -1 then
    child_perror open_failed ;; mret (-1)
  else
    r ← sys_dup2 fd target os_dup2;
    if r =? -1 then
      child_perror dup2_failed ;; sys_close fd ;; mret (-1)
    else
      sys_close fd ;; mret 0.

(** What the system answers to the calls of [setup_io_redirection]. *)
Record redirect_replies := RedirectReplies {
  open_input : Z;
  dup2_input : Z;
  open_output : Z;
  dup2_output : Z
}.

(** [setup_io_redirection(cmd, is_background)]. *)
Definition setup_io_redirection (cmd : command_t) (is_background : Z)
    (os : redirect_replies) : C Z :=
  r ← match input_file cmd with
      | Some file =>
          redirect_to (text file) O_RDONLY STDIN_FILENO (open_input os) (dup2_input os)
                      "Input redirection failed" "dup2 input failed"
      | None =>
          if truthy is_background then
            redirect_to "/dev/null" O_RDONLY STDIN_FILENO (open_input os) (dup2_input os)
                        "Failed to open /dev/null for input" "dup2 /dev/null input failed"
          else mret 0
      end;
  if r =? -1 then mret (-1)
  else
    match output_file cmd with
    | Some file =>
        redirect_to (text file) O_WRONLY_CREAT_TRUNC STDOUT_FILENO
                    (open_output os) (dup2_output os)
                    "Output redirection failed" "dup2 output failed"
    | None =>
        if truthy is_background then
          redirect_to "/dev/null" O_WRONLY STDOUT_FILENO (open_output os) (dup2_output os)
                      "Failed to open /dev/null for output" "dup2 /dev/null output failed"
        else mret 0
    end.



(** The child as the fork leaves it: the descriptors of the shell. *)
Definition forked (descriptors : list Z) : child_world :=
  ChildWorld (list_to_map ((λ fd, (fd, Inherited fd)) <$> descriptors)) [].

(** What descriptor [target] refers to when the redirection has been
    set up: the file of the command, else [/dev/null] for a background
    command, else what it referred to before. *)
Definition redirected (file : option cstr) (flags null_flags : open_flags)
    (is_background : Z) (target : Z) (table : gmap Z description) : gmap Z description :=
  match file with
  | Some f => <[target := Opened (text f) flags]> table
  | None =>
      if truthy is_background then <[target := Opened "/dev/null" null_flags]> table
      else table
  end.

(** The answers of a system that works as POSIX says, for a table in
    which [STDIN_FILENO] and [STDOUT_FILENO] are in use: [open]
    answers -1 or a descriptor that is not in use, [dup2] answers -1
    or its second argument. *)
Definition posix_replies (table : gmap Z description) (os : redirect_replies) : Prop :=
  (open_input os = -1 ∨ table !! open_input os = None)
  ∧ (dup2_input os = -1 ∨ dup2_input os = STDIN_FILENO)
  ∧ (open_output os = -1 ∨ table !! open_output os = None)
  ∧ (dup2_output os = -1 ∨ dup2_output os = STDOUT_FILENO).

(** Whether [setup_io_redirection] redirects a stream, and whether
    one of the calls it makes for it fails. *)
Definition wanted (file : option cstr) (is_background : Z) : bool :=
  bool_decide (is_Some file) || truthy is_background.

Definition stream_fails (file : option cstr) (is_background : Z) (os_open os_dup2 : Z)
    : bool :=
  wanted file is_background && ((os_open =? -1) || (os_dup2 =? -1)).

(** Unfolds the monad of the child and its primitive operations. *)
Ltac child_run :=
  repeat first
    [ progress unfold mbind, mret, C_bind, C_ret, child_emit, child_perror, sys_open,
        sys_dup2, sys_close
    | progress cbn [fst snd fd_table child_trace] ].

(** The structure as the loop over the tokens leaves it. *)
Definition exit_command (e : loop_exit) : command_t :=
  match e with
  | Returned _ cmd | Finished cmd _ => cmd
  end.

(** What the loop over the tokens has freed when it is left. *)
Definition exit_freed (e : loop_exit) (tokens : list cstr) (line_copy : ptr) : gset ptr :=
  match e with
  | Returned _ _ => list_to_set (addr <$> tokens) ∪ {[line_copy]}
  | Finished _ _ => ∅
  end.

(** The blocks that a command with this content points to: the
    command name, the arguments, the redirection targets. *)
Definition blocks_held (v : scanned) : nat :=
  (if s_argv v is [] then 0 else 1) + length (s_argv v)
  + length (option_list (s_input v)) + length (option_list (s_output v)).
(** * Verification *)

Set Warnings "-clear-no-such-hyp".

(** ** Running the monad *)

Lemma truthy_c_and a b : truthy (c_and a b) = truthy a && truthy b.
Proof. unfold c_and. by destruct (truthy a), (truthy b). Qed.

Lemma truthy_c_not a : truthy (c_not a) = negb (truthy a).
Proof. unfold c_not. by destruct (truthy a). Qed.

Lemma truthy_false z : truthy z = false ↔ z = 0.
Proof. unfold truthy. destruct (Z.eqb_spec z 0); naive_solver. Qed.

Lemma truthy_true z : truthy z = true ↔ z ≠ 0.
Proof. unfold truthy. destruct (Z.eqb_spec z 0); naive_solver. Qed.

Lemma bind_run {A B} (c : M A) (k : A → M B) w :
  (c ≫= k) w = k (c w).1 (c w).2.
Proof. unfold mbind, M_bind. by destruct (c w). Qed.

(** ** Computations that leave the statics alone *)

Lemma quiet_ret {A} (a : A) : quiet (mret a).
Proof. intros w. split; [done|]. exists []. by rewrite app_nil_r. Qed.

Lemma quiet_bind {A B} (c : M A) (k : A → M B) :
  quiet c → (∀ a, quiet (k a)) → quiet (c ≫= k).
Proof.
  intros Hc Hk w. rewrite bind_run.
  destruct (Hc w) as [Hs1 (new1 & Ht1 & Hn1)].
  destruct (Hk (c w).1 (c w).2) as [Hs2 (new2 & Ht2 & Hn2)].
  split; [congruence|].
  exists (new1 ++ new2). split.
  - by rewrite Ht2, Ht1, app_assoc.
  - by apply Forall_app.
Qed.

Lemma quiet_emit e : harmless e → quiet (emit e).
Proof. intros He w. split; [done|]. exists [e]. split; [done|]. by constructor. Qed.

Lemma quiet_malloc size : quiet (malloc size).
Proof.
  intros w. unfold malloc. destruct (out_of_memory _ _); cbn.
  all: split; [done|]; exists []; by rewrite app_nil_r.
Qed.

Lemma quiet_free p : quiet (free p).
Proof. intros w. split; [done|]. exists []. by rewrite app_nil_r. Qed.

Lemma harmless_fprintf format arguments : harmless (Fprintf format arguments).
Proof. by intros p. Qed.

Lemma harmless_plain format : job_line format = false → harmless (Printf format []).
Proof. by intros _ p. Qed.

Ltac quiet_step :=
  first
    [ apply quiet_bind; [|intros ?]
    | apply quiet_ret
    | apply quiet_malloc
    | apply quiet_free
    | apply quiet_emit; first [ apply harmless_fprintf | by intros ? ] ].

Lemma quiet_free_each tokens : quiet (free_each tokens).
Proof. induction tokens as [|t rest IH]; cbn [free_each]; repeat quiet_step; done. Qed.

Lemma quiet_tokenize_loop room token tokens : quiet (tokenize_loop room token tokens).
Proof.
  revert token tokens. induction room as [|room IH]; intros [[tok rest]|] tokens;
    cbn [tokenize_loop]; repeat quiet_step; try apply quiet_free_each.
  destruct a as [a|]; repeat quiet_step; [apply IH|apply quiet_free_each].
Qed.

Lemma quiet_tokenize_line line max_tokens : quiet (tokenize_line line max_tokens).
Proof.
  unfold tokenize_line. destruct (_ <? _)%nat; repeat quiet_step.
  apply quiet_tokenize_loop.
Qed.

Lemma quiet_store_argument t tokens line_copy cmd arg_index :
  quiet (store_argument t tokens line_copy cmd arg_index).
Proof.
  unfold store_argument, free_tokens. destruct (arg_index =? 0)%nat; repeat quiet_step.
  - destruct a as [a|]; repeat quiet_step; try apply quiet_free_each.
    destruct a0 as [b|]; repeat quiet_step; apply quiet_free_each.
  - destruct a as [b|]; repeat quiet_step; apply quiet_free_each.
Qed.

Lemma quiet_parse_tokens rest tokens line_copy cmd arg_index :
  quiet (parse_tokens rest tokens line_copy cmd arg_index).
Proof.
  remember (length rest) as n eqn:Hn.
  revert rest cmd arg_index Hn.
  induction (lt_wf n) as [n _ IH]. intros rest cmd arg_index ->.
  destruct rest as [|t rest1]; cbn [parse_tokens]; [apply quiet_ret|].
  assert (Hstore : ∀ cmd,
    quiet (r ← store_argument t tokens line_copy cmd arg_index;
           match r with
           | inl cmd' => mret (Returned (-1) cmd')
           | inr cmd' => parse_tokens rest1 tokens line_copy cmd' (S arg_index)
           end)).
  { intros cmd0. apply quiet_bind; [apply quiet_store_argument|].
    intros [cmd'|cmd']; [apply quiet_ret|].
    eapply IH; [|done]. cbn. lia. }
  unfold free_tokens.
  destruct (String.eqb (text t) "<").
  { destruct rest1 as [|f rest2]; repeat quiet_step; try apply quiet_free_each.
    destruct a as [a|]; repeat quiet_step; try apply quiet_free_each.
    eapply IH; [|done]. cbn. lia. }
  destruct (String.eqb (text t) ">").
  { destruct rest1 as [|f rest2]; repeat quiet_step; try apply quiet_free_each.
    destruct a as [a|]; repeat quiet_step; try apply quiet_free_each.
    eapply IH; [|done]. cbn. lia. }
  destruct (String.eqb (text t) "&"); [|apply Hstore].
  destruct rest1 as [|t1 rest1]; [apply quiet_ret|apply Hstore].
Qed.

Lemma quiet_parse_command line : quiet (parse_command line).
Proof.
  unfold parse_command, free_tokens. quiet_step; [quiet_step|].
  destruct a as [line_copy|]; [|quiet_step].
  destruct (skip_blanks line) as [|c rest]; [repeat quiet_step|].
  destruct (Ascii.eqb c "010"); [repeat quiet_step|].
  destruct (Ascii.eqb c "#"); [repeat quiet_step|].
  apply quiet_bind; [apply quiet_tokenize_line|]. intros [token_count tokens].
  destruct (token_count <=? 0); [repeat quiet_step|].
  apply quiet_bind; [apply quiet_parse_tokens|]. intros [code cmd|cmd arg_index].
  - quiet_step.
  - cbn zeta. apply quiet_bind; [apply quiet_free_each|]. intros _.
    apply quiet_bind; [apply quiet_free|]. intros _.
    destruct (command _); quiet_step.
Qed.

Lemma quiet_free_args a : quiet (free_args a).
Proof.
  induction a as [|[c|] rest IH]; cbn [free_args]; repeat quiet_step. apply IH.
Qed.

Lemma quiet_free_command cmd : quiet (free_command cmd).
Proof.
  unfold free_command, free_string.
  repeat (apply quiet_bind; [|intros ?]); try apply quiet_free_args.
  all: destruct (_ cmd); quiet_step.
Qed.

(** ** How the registry evolves *)

Lemma evolves_refl g : evolves g g.
Proof. split; try done. intros i job _ Hjob. eauto. Qed.

Lemma evolves_trans g1 g2 g3 : evolves g1 g2 → evolves g2 g3 → evolves g1 g3.
Proof.
  intros [Hl1 Hc1 Hb1 Hs1 Hf1] [Hl2 Hc2 Hb2 Hs2 Hf2]. split.
  - congruence.
  - lia.
  - auto.
  - intros i job Hi Hjob.
    destruct (Hs1 i job Hi Hjob) as (job2 & Hjob2 & Hpid2 & Hact2).
    destruct (Hs2 i job2 ltac:(lia) Hjob2) as (job3 & Hjob3 & Hpid3 & Hact3).
    exists job3. split; [done|]. split; [congruence|auto].
  - intros Hfull. destruct (Hf1 Hfull) as [Hn1 Hp1].
    destruct (Hf2 ltac:(lia)) as [Hn2 Hp2]. split; congruence.
Qed.

(** Marking the job of a slot inactive. *)
Lemma evolves_deactivate g i job :
  background_processes g !! i = Some job →
  evolves g (set_job i (BgProcess (pid job) 0) g).
Proof.
  intros Hjob. split; cbn.
  - apply length_insert.
  - lia.
  - done.
  - intros j job0 _ Hjob0. destruct (decide (i = j)) as [<-|Hne].
    + exists (BgProcess (pid job) 0). rewrite list_lookup_insert_eq.
      * split; [done|]. split; [cbn; congruence|done].
      * by eapply lookup_lt_Some.
    + exists job0. by rewrite list_lookup_insert_ne.
  - intros _. split; [done|].
    rewrite list_fmap_insert. apply list_insert_id.
    by rewrite list_lookup_fmap, Hjob.
Qed.

(** Registering a job in the first free slot. *)
Lemma evolves_register g child_pid :
  bg_process_count g < MAX_BG_PROCESSES →
  evolves g (set_bg_process_count (bg_process_count g + 1)
               (set_job (Z.to_nat (bg_process_count g)) (BgProcess child_pid 1) g)).
Proof.
  intros Hroom. split; cbn.
  - apply length_insert.
  - lia.
  - lia.
  - intros j job0 Hj Hjob0. exists job0.
    rewrite list_lookup_insert_ne by lia. done.
  - lia.
Qed.

(** Writing the other statics. *)
Lemma evolves_same_registry g g' :
  background_processes g' = background_processes g →
  bg_process_count g' = bg_process_count g →
  evolves g g'.
Proof.
  intros Hreg Hcount. split; rewrite ?Hreg, ?Hcount; try done.
  intros i job _ Hjob. eauto.
Qed.

(** ** The invariant of the session *)

Lemma session_inv_start w0 p : session_inv w0 p w0.
Proof.
  split; [apply evolves_refl|]. intros _ _. exists []. by rewrite app_nil_r.
Qed.

(** The invariant survives a step that lets the registry evolve and
    whose events do not concern [p]. *)
Lemma session_inv_step w0 p w w' new :
  session_inv w0 p w →
  evolves (shell w) (shell w') →
  trace w' = trace w ++ new →
  (bg_process_count (shell w0) = MAX_BG_PROCESSES → untracked p (shell w0) →
   Forall (λ e, concerns p e = false) new) →
  session_inv w0 p w'.
Proof.
  intros [Hev Htr] Hstep Htrace Hnew. split; [by eapply evolves_trans|].
  intros Hfull Hclean. destruct (Htr Hfull Hclean) as (old & Hold & Hok).
  exists (old ++ new). split.
  - by rewrite Htrace, Hold, app_assoc.
  - apply Forall_app. auto.
Qed.

Lemma keeps_bind w0 p {A B} (c : M A) (k : A → M B) :
  keeps w0 p c → (∀ a, keeps w0 p (k a)) → keeps w0 p (c ≫= k).
Proof. intros Hc Hk w Hw. rewrite bind_run. by apply Hk, Hc. Qed.

Lemma keeps_ret w0 p {A} (a : A) : keeps w0 p (mret a).
Proof. by intros w Hw. Qed.

Lemma keeps_quiet w0 p {A} (c : M A) : quiet c → keeps w0 p c.
Proof.
  intros Hc w Hw. destruct (Hc w) as [Hshell (new & Htrace & Hnew)].
  eapply session_inv_step; [done| |done|].
  - rewrite Hshell. apply evolves_refl.
  - intros _ _. eapply Forall_impl; [done|]. intros e He. apply He.
Qed.

(** In a session whose registry was full at the start and did not
    track [p], no active job of the registry has the pid [p]. *)
Lemma session_inv_untracked w0 p w :
  session_inv w0 p w →
  bg_process_count (shell w0) = MAX_BG_PROCESSES →
  untracked p (shell w0) →
  untracked p (shell w).
Proof.
  intros [Hev _] Hfull Hclean i job Hi Hjob Hactive.
  destruct Hev as [Hlen _ _ Hslots Hfrozen].
  destruct (Hfrozen ltac:(lia)) as [Hcount _]. rewrite Hcount in Hi.
  destruct (lookup_lt_is_Some_2 (background_processes (shell w0)) i) as [job0 Hjob0].
  { rewrite <- Hlen. by eapply lookup_lt_Some. }
  destruct (Hslots i job0 Hi Hjob0) as (job' & Hjob' & Hpid & Hact).
  assert (job' = job) as -> by congruence.
  rewrite Hpid. apply (Hclean i job0 Hi Hjob0).
  apply truthy_true. intros Hzero. apply truthy_true in Hactive. auto.
Qed.

Lemma tame_quiet {A} (c : M A) : quiet c → tame c.
Proof.
  intros Hc w. destruct (Hc w) as [-> Hnew]. split; [apply evolves_refl|done].
Qed.

Lemma tame_bind {A B} (c : M A) (k : A → M B) :
  tame c → (∀ a, tame (k a)) → tame (c ≫= k).
Proof.
  intros Hc Hk w. rewrite bind_run.
  destruct (Hc w) as [Hs1 (new1 & Ht1 & Hn1)].
  destruct (Hk (c w).1 (c w).2) as [Hs2 (new2 & Ht2 & Hn2)].
  split; [by eapply evolves_trans|].
  exists (new1 ++ new2). split.
  - by rewrite Ht2, Ht1, app_assoc.
  - by apply Forall_app.
Qed.

Lemma keeps_tame w0 p {A} (c : M A) : tame c → keeps w0 p c.
Proof.
  intros Hc w Hw. destruct (Hc w) as [Hshell (new & Htrace & Hnew)].
  eapply session_inv_step; [done|done|done|].
  intros _ _. eapply Forall_impl; [done|]. intros e He. apply He.
Qed.

(** Closes a goal [∃ new, trace w' = trace w ++ new ∧ Forall harmless new]
    once [w'] is explicit. *)
Ltac harmless_events :=
  cbn [snd trace];
  first
    [ exists []; split; [by rewrite app_nil_r | by constructor]
    | rewrite <- ?app_assoc; cbn [app]; eexists; split; [reflexivity|];
      repeat constructor; intros ?; reflexivity ].

Lemma tame_sigtstp_handler : tame sigtstp_handler.
Proof.
  intros w. unfold sigtstp_handler. run.
  destruct (truthy (foreground_only_mode (shell w))); run.
  all: split; [by apply evolves_same_registry|harmless_events].
Qed.

(** ** The job tracker and the exit clean-up *)

Section Tracker.
Context `{WaitStatus}.

(** One turn of the loop of the job check, in full. *)
Lemma check_slot_run result status i w :
  check_slot (result, status) i w =
    match background_processes (shell w) !! i with
    | Some job =>
        if truthy (active job) then
          (tt,
           World (if (0 <? result) || (result =? -1)
                  then set_job i (BgProcess (pid job) 0) (shell w)
                  else shell w)
                 (mem w)
                 (trace w ++ SysWaitpid (pid job) WNOHANG
                    :: (if 0 <? result then completion_report (pid job) status
                        else [])))
        else (tt, w)
    | None => (tt, w)
    end.
Proof.
  unfold check_slot, completion_report. run.
  destruct (background_processes (shell w) !! i) as [job|]; [|done].
  destruct (truthy (active job)); [|done]. run.
  destruct (0 <? result); run.
  - destruct (WIFEXITED status); run; [by rewrite <- app_assoc|].
    destruct (WIFSIGNALED status); run; [by rewrite <- app_assoc|done].
  - destruct (result =? -1); run; done.
Qed.

Lemma check_slot_count reply i w :
  bg_process_count (shell (check_slot reply i w).2) = bg_process_count (shell w).
Proof.
  destruct reply as [result status]. rewrite check_slot_run.
  destruct (background_processes (shell w) !! i) as [job|]; [|done].
  destruct (truthy (active job)); [|done].
  by destruct ((0 <? result) || (result =? -1)).
Qed.

Lemma check_slot_evolves reply i w :
  evolves (shell w) (shell (check_slot reply i w).2).
Proof.
  destruct reply as [result status]. rewrite check_slot_run.
  destruct (background_processes (shell w) !! i) as [job|] eqn:Hjob;
    [|apply evolves_refl].
  destruct (truthy (active job)); [|apply evolves_refl].
  destruct ((0 <? result) || (result =? -1)); cbn;
    [by apply evolves_deactivate|apply evolves_refl].
Qed.

Lemma completion_report_concerns p q status :
  q ≠ p → Forall (λ e, concerns p e = false) (completion_report q status).
Proof.
  intros Hne. unfold completion_report.
  destruct (WIFEXITED status); [|destruct (WIFSIGNALED status)].
  all: repeat constructor; cbn; by apply Z.eqb_neq.
Qed.

Lemma keeps_check_slot w0 p reply i w :
  session_inv w0 p w →
  (i < Z.to_nat (bg_process_count (shell w)))%nat →
  session_inv w0 p (check_slot reply i w).2.
Proof.
  intros Hw Hi.
  pose proof (check_slot_evolves reply i w) as Hev.
  destruct reply as [result status]. rewrite check_slot_run in *.
  destruct (background_processes (shell w) !! i) as [job|] eqn:Hjob; [|done].
  destruct (truthy (active job)) eqn:Hactive; [|done].
  eapply session_inv_step; [done|done|done|].
  intros Hfull Hclean.
  pose proof (session_inv_untracked w0 p w Hw Hfull Hclean i job Hi Hjob Hactive)
    as Hne.
  constructor.
  - cbn. by apply Z.eqb_neq.
  - destruct (0 <? result); [by apply completion_report_concerns|by constructor].
Qed.

Lemma check_jobs_count os indices w :
  bg_process_count (shell (check_jobs os indices w).2) = bg_process_count (shell w).
Proof.
  unfold check_jobs. revert w.
  induction indices as [|i rest IH]; intros w; cbn [for_each]; [done|].
  rewrite bind_run, IH. apply check_slot_count.
Qed.

Lemma keeps_check_jobs w0 p os indices w :
  session_inv w0 p w →
  Forall (λ i, i < Z.to_nat (bg_process_count (shell w)))%nat indices →
  session_inv w0 p (check_jobs os indices w).2.
Proof.
  unfold check_jobs. revert w.
  induction indices as [|i rest IH]; intros w Hw Hindices; cbn [for_each]; [done|].
  apply Forall_cons in Hindices as [Hi Hrest].
  rewrite bind_run. apply IH.
  - by apply keeps_check_slot.
  - by rewrite check_slot_count.
Qed.

Lemma seq_below n : Forall (λ i, i < n)%nat (seq 0 n).
Proof. apply Forall_forall. intros i Hi%elem_of_seq. lia. Qed.

Lemma keeps_check_background_processes w0 p os :
  keeps w0 p (check_background_processes os).
Proof.
  intros w Hw. unfold check_background_processes. rewrite bind_run. cbn.
  apply keeps_check_jobs; [done|apply seq_below].
Qed.

(** One turn of the loop of the exit clean-up, in full. *)
Lemma cleanup_slot_run i w :
  cleanup_slot i w =
    match background_processes (shell w) !! i with
    | Some job =>
        if truthy (active job) then
          (tt, World (shell w) (mem w) (trace w ++ termination_of (pid job)))
        else (tt, w)
    | None => (tt, w)
    end.
Proof.
  unfold cleanup_slot, termination_of. run.
  destruct (background_processes (shell w) !! i) as [job|]; [|done].
  destruct (truthy (active job)); [|done]. run. by rewrite <- !app_assoc.
Qed.

Lemma cleanup_slot_shell i w : shell (cleanup_slot i w).2 = shell w.
Proof.
  rewrite cleanup_slot_run.
  destruct (background_processes (shell w) !! i) as [job|]; [|done].
  by destruct (truthy (active job)).
Qed.

Lemma keeps_cleanup_slot w0 p i w :
  session_inv w0 p w →
  (i < Z.to_nat (bg_process_count (shell w)))%nat →
  session_inv w0 p (cleanup_slot i w).2.
Proof.
  intros Hw Hi.
  pose proof (cleanup_slot_shell i w) as Hshell.
  rewrite cleanup_slot_run in *.
  destruct (background_processes (shell w) !! i) as [job|] eqn:Hjob; [|done].
  destruct (truthy (active job)) eqn:Hactive; [|done].
  eapply session_inv_step; [done| |done|].
  - apply evolves_refl.
  - intros Hfull Hclean.
    pose proof (session_inv_untracked w0 p w Hw Hfull Hclean i job Hi Hjob Hactive)
      as Hne.
    repeat constructor; cbn; by apply Z.eqb_neq.
Qed.

Lemma keeps_cleanup_all w0 p : keeps w0 p cleanup_all_background_processes.
Proof.
  intros w Hw. unfold cleanup_all_background_processes. rewrite bind_run. cbn.
  pose proof (seq_below (Z.to_nat (bg_process_count (shell w)))) as Hindices.
  revert Hindices. generalize (seq 0 (Z.to_nat (bg_process_count (shell w)))).
  intros indices. revert w Hw.
  induction indices as [|i rest IH]; intros w Hw Hindices; cbn [for_each]; [done|].
  apply Forall_cons in Hindices as [Hi Hrest].
  rewrite bind_run. apply IH.
  - by apply keeps_cleanup_slot.
  - by rewrite cleanup_slot_shell.
Qed.

End Tracker.

(** ** The process executor *)

Section Executor.
Context `{WaitStatus}.

(** The parent's side of a command that runs in the background. *)
Lemma execute_background cmd last_status fg child_pid os_wait w :
  is_Some (command cmd) → child_pid ≠ -1 → child_pid ≠ 0 →
  truthy (background cmd) && negb (truthy fg) = true →
  execute_external_command cmd last_status fg child_pid os_wait w =
    (Returns (0, last_status),
     World (if bg_process_count (shell w) <? MAX_BG_PROCESSES
            then set_bg_process_count (bg_process_count (shell w) + 1)
                   (set_job (Z.to_nat (bg_process_count (shell w)))
                            (BgProcess child_pid 1) (shell w))
            else shell w)
           (mem w)
           (trace w ++ [SysFork; background_pid_is child_pid])).
Proof.
  intros [name Hname] Hfail Hchild Hbg.
  unfold execute_external_command. rewrite Hname. run.
  destruct (Z.eqb_spec child_pid (-1)) as [|_]; [done|].
  destruct (Z.eqb_spec child_pid 0) as [|_]; [done|].
  rewrite truthy_c_and, truthy_c_not, Hbg. run.
  rewrite <- app_assoc.
  by destruct (bg_process_count (shell w) <? MAX_BG_PROCESSES); destruct w.
Qed.

(** The parent's side of a command that runs in the foreground: the
    shell waits for this child before anything else. *)
Lemma execute_foreground_waits cmd last_status fg child_pid os_wait w :
  is_Some (command cmd) → child_pid ≠ -1 → child_pid ≠ 0 →
  truthy (background cmd) && negb (truthy fg) = false →
  ∃ rest,
    trace (execute_external_command cmd last_status fg child_pid os_wait w).2 =
      trace w ++ SysFork :: SysWaitpid child_pid 0 :: rest.
Proof.
  intros [name Hname] Hfail Hchild Hbg.
  unfold execute_external_command. rewrite Hname. run.
  destruct (Z.eqb_spec child_pid (-1)) as [|_]; [done|].
  destruct (Z.eqb_spec child_pid 0) as [|_]; [done|].
  rewrite truthy_c_and, truthy_c_not, Hbg. run.
  destruct os_wait as [wait_result status].
  destruct (wait_result =? -1); run.
  { exists [Perror "waitpid failed"]. by rewrite <- !app_assoc. }
  destruct (WIFEXITED status); run.
  { exists []. by rewrite <- !app_assoc. }
  destruct (WIFSIGNALED status); run.
  - exists [terminated_by_signal (WTERMSIG status)]. by rewrite <- !app_assoc.
  - exists []. by rewrite <- !app_assoc.
Qed.

End Executor.

(** ** The session keeps its invariant *)

Section Session.
Context `{WaitStatus}.

Lemma tame_execute_external_command cmd last_status fg child_pid os_wait :
  tame (execute_external_command cmd last_status fg child_pid os_wait).
Proof.
  intros w. unfold execute_external_command.
  destruct (command cmd) as [name|]; [|split; [apply evolves_refl|harmless_events]].
  run. destruct (child_pid =? -1); run.
  { split; [apply evolves_refl|harmless_events]. }
  destruct (child_pid =? 0); run.
  { split; [apply evolves_refl|harmless_events]. }
  destruct (truthy (c_and (background cmd) (c_not fg))); run.
  { destruct (bg_process_count (shell w) <? MAX_BG_PROCESSES) eqn:Hroom; run.
    - split; [apply evolves_register; lia|harmless_events].
    - split; [apply evolves_refl|harmless_events]. }
  destruct os_wait as [wait_result status].
  destruct (wait_result =? -1); run.
  { split; [apply evolves_refl|harmless_events]. }
  destruct (WIFEXITED status); run.
  { split; [by apply evolves_same_registry|harmless_events]. }
  destruct (WIFSIGNALED status); run.
  - split; [by apply evolves_same_registry|harmless_events].
  - split; [apply evolves_refl|harmless_events].
Qed.

Lemma keeps_execute_builtin w0 p cmd os_home os_chdir :
  keeps w0 p (execute_builtin cmd os_home os_chdir).
Proof.
  unfold execute_builtin. destruct (command cmd) as [name|]; [|apply keeps_ret].
  destruct (get_builtin_type _).
  - apply keeps_bind; [apply keeps_quiet; quiet_step|]. intros _.
    apply keeps_bind; [apply keeps_cleanup_all|]. intros _.
    apply keeps_quiet. repeat quiet_step.
  - apply keeps_quiet.
    destruct (argv_of _) as [|dir [|]]; repeat quiet_step.
    + destruct os_home; repeat quiet_step. destruct (negb _); repeat quiet_step.
    + destruct (negb _); repeat quiet_step.
  - apply keeps_quiet. intros w. run.
    destruct (negb (last_signal (shell w) =? 0)); run.
    all: split; [done|harmless_events].
  - apply keeps_ret.
Qed.

Lemma keeps_main_iteration w0 p os status : keeps w0 p (main_iteration os status).
Proof.
  unfold main_iteration.
  apply keeps_bind; [apply keeps_check_background_processes|]. intros _.
  apply keeps_bind; [apply keeps_quiet; quiet_step|]. intros _.
  destruct (os_fgets os) as [input_line| |];
    [|apply keeps_quiet; repeat quiet_step..].
  cbn zeta.
  apply keeps_bind.
  { apply keeps_quiet. destruct (_ && _); repeat quiet_step. }
  intros _.
  apply keeps_bind; [apply keeps_quiet, quiet_parse_command|].
  intros [parse_result cmd].
  destruct (parse_result =? 1); [apply keeps_ret|].
  destruct (parse_result =? -1); [apply keeps_ret|].
  assert (Hbuiltin :
    keeps w0 p (r ← execute_builtin (set_background 0 cmd) (os_home os) (os_chdir os);
                match r with
                | Returns _ =>
                    free_command (set_background 0 cmd) ;; mret (Continue status)
                | Exits code => mret (Exited code)
                | InChild run_background => mret (Child run_background)
                end)).
  { apply keeps_bind; [apply keeps_execute_builtin|].
    intros [code|code|rb]; try apply keeps_ret.
    apply keeps_bind; [apply keeps_quiet, quiet_free_command|].
    intros _. apply keeps_ret. }
  destruct (get_builtin_type _); try apply Hbuiltin.
  apply keeps_bind; [apply keeps_quiet; intros w; split; [done|harmless_events]|].
  intros g.
  apply keeps_bind; [apply keeps_tame, tame_execute_external_command|].
  intros [[code status']|code|rb]; try apply keeps_ret.
  apply keeps_bind; [apply keeps_quiet, quiet_free_command|].
  intros _. apply keeps_ret.
Qed.

Lemma keeps_main_loop w0 p steps status : keeps w0 p (main_loop steps status).
Proof.
  revert status. induction steps as [|s rest IH]; intros status;
    cbn [main_loop]; [apply keeps_ret|].
  apply keeps_bind.
  { destruct s as [os|]; cbn [main_step]; [apply keeps_main_iteration|].
    apply keeps_bind; [apply keeps_tame, tame_sigtstp_handler|].
    intros _. apply keeps_ret. }
  intros [status'| |code|rb]; try apply keeps_ret; [apply IH|].
  apply keeps_bind; [apply keeps_cleanup_all|]. intros _.
  apply keeps_quiet. repeat quiet_step.
Qed.

End Session.

(** ** C1: background dispatch *)

(** C1, amended.  For a command with a program name for which [fork]
    succeeded (the call returns in the parent), the command runs in the
    background if and only if its background flag is set and
    foreground-only mode is off.  In that case the parent prints
    "background pid is <pid>" right after the [fork], makes no
    [waitpid] call, returns with [*last_status], [last_exit_status]
    and [last_signal] as they were, and records the child as an active
    job in the first free slot if fewer than 100 jobs have been
    registered so far; with 100 registered it leaves the statics as
    they are.  Otherwise the parent first waits for this child. *)
Theorem background_dispatch `{WaitStatus} cmd last_status fg child_pid os_wait w :
  is_Some (command cmd) → child_pid ≠ -1 → child_pid ≠ 0 →
  let g := shell w in
  let '(r, w') := execute_external_command cmd last_status fg child_pid os_wait w in
  if truthy (background cmd) && negb (truthy fg) then
    r = Returns (0, last_status)
    ∧ trace w' = trace w ++ [SysFork; background_pid_is child_pid]
    ∧ last_exit_status (shell w') = last_exit_status g
    ∧ last_signal (shell w') = last_signal g
    ∧ if bg_process_count g <? MAX_BG_PROCESSES
      then background_processes (shell w')
             = <[Z.to_nat (bg_process_count g) := BgProcess child_pid 1]>
                 (background_processes g)
           ∧ bg_process_count (shell w') = bg_process_count g + 1
      else shell w' = g
  else ∃ rest, trace w' = trace w ++ SysFork :: SysWaitpid child_pid 0 :: rest.
Proof.
  intros Hcmd Hfail Hchild g.
  destruct (truthy (background cmd) && negb (truthy fg)) eqn:Hbg.
  - rewrite execute_background by done. subst g.
    destruct (bg_process_count (shell w) <? MAX_BG_PROCESSES); cbn; done.
  - pose proof (execute_foreground_waits cmd last_status fg child_pid os_wait w
                  Hcmd Hfail Hchild Hbg) as Hwait.
    by destruct (execute_external_command _ _ _ _ _ _).
Qed.

Lemma background_dispatch_witness :
  let '(r, w') :=
    execute_external_command (parsed "sleep 100 &") 0 0 4242 (0, 0) initial_world in
  r = Returns (0, 0)
  ∧ trace w' = [SysFork; background_pid_is 4242]
  ∧ last_exit_status (shell w') = 0
  ∧ last_signal (shell w') = 0
  ∧ background_processes (shell w')
      = <[0%nat := BgProcess 4242 1]> (background_processes initial_globals)
  ∧ bg_process_count (shell w') = 1.
Proof.
  apply (background_dispatch (parsed "sleep 100 &") 0 0 4242 (0, 0) initial_world).
  - vm_compute. eauto.
  - lia.
  - lia.
Defined.

(** C1 as stated fails once the registry is full.  After 100
    commands were started in the background, one more is dispatched
    with its background flag set and foreground-only mode off: it runs
    in the background (its pid is printed, the shell does not wait),
    but no slot of the registry holds its pid: it is not recorded as a
    job. *)
Lemma background_not_recorded_when_full :
  let w := after_spawns 100 1000 in
  let '(r, w') :=
    execute_external_command (parsed "sleep 100 &") 0 0 1100 (0, 0) w in
  background (parsed "sleep 100 &") = 1
  ∧ foreground_only_mode (shell w) = 0
  ∧ bg_process_count (shell w) = 100
  ∧ r = Returns (0, 0)
  ∧ trace w' = trace w ++ [SysFork; background_pid_is 1100]
  ∧ bg_process_count (shell w') = 100
  ∧ 1100 ∉ pid <$> background_processes (shell w').
Proof.
  vm_compute. repeat split.
  intros Hin. repeat (apply elem_of_cons in Hin as [Heq|Hin]; [discriminate Heq|]).
  by apply elem_of_nil in Hin.
Qed.

(** ** C2, C7, C8: the last-status fields and the [status] built-in *)

Section LastStatus.
Context `{WaitStatus}.

(** What [status] prints is decided by the two statics alone. *)
Lemma execute_status cmd os_home os_chdir w :
  get_builtin_type (text <$> command cmd) = BUILTIN_STATUS →
  execute_builtin cmd os_home os_chdir w =
    (Returns 0,
     World (shell w) (mem w)
           (trace w ++ [if negb (last_signal (shell w) =? 0)
                        then terminated_by_signal (last_signal (shell w))
                        else exit_value (last_exit_status (shell w))])).
Proof.
  unfold execute_builtin. destruct (command cmd) as [name|]; [|done].
  cbn [fmap option_fmap option_map]. intros ->. run.
  by destruct (negb (last_signal (shell w) =? 0)); run; destruct w.
Qed.

(** A foreground child that was waited for: the statics afterwards. *)
Lemma execute_foreground cmd last_status fg child_pid wait_result status w :
  is_Some (command cmd) → child_pid ≠ -1 → child_pid ≠ 0 →
  truthy (background cmd) && negb (truthy fg) = false →
  wait_result ≠ -1 →
  shell (execute_external_command cmd last_status fg child_pid
           (wait_result, status) w).2 =
    if WIFEXITED status then
      set_last_signal 0 (set_last_exit_status (WEXITSTATUS status) (shell w))
    else if WIFSIGNALED status then
      set_last_exit_status 0 (set_last_signal (WTERMSIG status) (shell w))
    else shell w.
Proof.
  intros [name Hname] Hfail Hchild Hbg Hwait.
  unfold execute_external_command. rewrite Hname. run.
  destruct (Z.eqb_spec child_pid (-1)) as [|_]; [done|].
  destruct (Z.eqb_spec child_pid 0) as [|_]; [done|].
  rewrite truthy_c_and, truthy_c_not, Hbg. run.
  destruct (Z.eqb_spec wait_result (-1)) as [|_]; [done|].
  destruct (WIFEXITED status); run; [done|].
  by destruct (WIFSIGNALED status); run.
Qed.

(** When [fork] fails, only the caller's [*last_status] becomes 1: the
    statics that [status] prints stay as they were. *)
Lemma execute_fork_failure cmd last_status fg os_wait w :
  is_Some (command cmd) →
  execute_external_command cmd last_status fg (-1) os_wait w =
    (Returns (-1, 1),
     World (shell w) (mem w) (trace w ++ [SysFork; Perror "fork failed"])).
Proof.
  intros [name Hname]. unfold execute_external_command. rewrite Hname. run.
  change (-1 =? -1) with true. run. by rewrite <- app_assoc.
Qed.

(** The same when the blocking [waitpid] fails. *)
Lemma execute_wait_failure cmd last_status fg child_pid status w :
  is_Some (command cmd) → child_pid ≠ -1 → child_pid ≠ 0 →
  truthy (background cmd) && negb (truthy fg) = false →
  execute_external_command cmd last_status fg child_pid (-1, status) w =
    (Returns (-1, 1),
     World (shell w) (mem w)
           (trace w ++ [SysFork; SysWaitpid child_pid 0; Perror "waitpid failed"])).
Proof.
  intros [name Hname] Hfail Hchild Hbg.
  unfold execute_external_command. rewrite Hname. run.
  destruct (Z.eqb_spec child_pid (-1)) as [|_]; [done|].
  destruct (Z.eqb_spec child_pid 0) as [|_]; [done|].
  rewrite truthy_c_and, truthy_c_not, Hbg. run.
  change (-1 =? -1) with true. run. by rewrite <- !app_assoc.
Qed.

(** [cd] writes none of the statics. *)
Lemma execute_cd cmd os_home os_chdir w :
  get_builtin_type (text <$> command cmd) = BUILTIN_CD →
  shell (execute_builtin cmd os_home os_chdir w).2 = shell w.
Proof.
  unfold execute_builtin. destruct (command cmd) as [name|]; [|done].
  cbn [fmap option_fmap option_map]. intros ->.
  destruct (argv_of (drop 1 (args cmd))) as [|dir [|]]; run; [|by destruct (os_chdir =? 0)|done].
  destruct os_home; run; [|done]. by destruct (os_chdir =? 0).
Qed.

End LastStatus.

(** C2.  After a foreground child has terminated and was waited for,
    whatever the statics held before: if it exited, [last_exit_status]
    is its exit code and [last_signal] is cleared, and [status] prints
    "exit value N"; if it was killed by a signal, [last_signal] is the
    signal (not zero), [last_exit_status] is cleared, and [status]
    prints "terminated by signal N". *)
Theorem status_after_foreground `{WaitStatus} cmd last_status fg child_pid
    wait_result status status_cmd os_home os_chdir w :
  is_Some (command cmd) → child_pid ≠ -1 → child_pid ≠ 0 →
  truthy (background cmd) && negb (truthy fg) = false →
  wait_result ≠ -1 →
  get_builtin_type (text <$> command status_cmd) = BUILTIN_STATUS →
  let w1 := (execute_external_command cmd last_status fg child_pid
               (wait_result, status) w).2 in
  let w2 := (execute_builtin status_cmd os_home os_chdir w1).2 in
  (WIFEXITED status = true →
     last_exit_status (shell w1) = WEXITSTATUS status
     ∧ last_signal (shell w1) = 0
     ∧ trace w2 = trace w1 ++ [exit_value (WEXITSTATUS status)])
  ∧ (WIFEXITED status = false → WIFSIGNALED status = true →
     last_signal (shell w1) = WTERMSIG status
     ∧ WTERMSIG status ≠ 0
     ∧ last_exit_status (shell w1) = 0
     ∧ trace w2 = trace w1 ++ [terminated_by_signal (WTERMSIG status)]).
Proof.
  intros Hcmd Hfail Hchild Hfg Hwait Hstatus w1 w2.
  pose proof (execute_foreground cmd last_status fg child_pid wait_result status w
                Hcmd Hfail Hchild Hfg Hwait) as Hshell.
  fold w1 in Hshell.
  subst w2. rewrite (execute_status status_cmd os_home os_chdir w1 Hstatus).
  cbn [snd trace]. rewrite Hshell. split.
  - intros ->. by cbn.
  - intros -> Hsig. rewrite Hsig. cbn.
    pose proof (WTERMSIG_nonzero status Hsig) as Hnz.
    destruct (Z.eqb_spec (WTERMSIG status) 0); [done|]. by cbn.
Qed.

Lemma status_after_foreground_witness :
  let w1 := (execute_external_command (parsed "kill -9 1") 0 0 4243 (4243, 9)
               initial_world).2 in
  let w2 := (execute_builtin (parsed "status") None 0 w1).2 in
  last_signal (shell w1) = 9
  ∧ WTERMSIG 9 ≠ 0
  ∧ last_exit_status (shell w1) = 0
  ∧ trace w2 = trace w1 ++ [terminated_by_signal 9].
Proof.
  refine (proj2 (status_after_foreground (parsed "kill -9 1") 0 0 4243 4243 9
                   (parsed "status") None 0 initial_world _ _ _ _ _ _) _ _).
  - vm_compute. eauto.
  - lia.
  - lia.
  - reflexivity.
  - lia.
  - reflexivity.
  - reflexivity.
  - reflexivity.
Defined.

(** A session that shows both outcomes in turn, the later one
    winning: a child that exits with code 2, [status], a child killed
    by signal 9, [status], a child that exits with code 0, [status]. *)
Example status_follows_latest_completion :
  let '(_, w) :=
    main [types "false" 11 (11, 2 * 256); types "status" 0 (0, 0);
          types "sleep 9" 12 (12, 9); types "status" 0 (0, 0);
          types "true" 13 (13, 0); types "status" 0 (0, 0)] initial_world in
  filter (λ s, s ≠ ": ") (text_of <$> drop 6 (trace w))
  = [""; ""; "exit value 2" +:+ NL;
     ""; ""; "terminated by signal 9" +:+ NL; "terminated by signal 9" +:+ NL;
     ""; ""; "exit value 0" +:+ NL].
Proof. vm_compute. reflexivity. Qed.

(** C8.  Whatever [cd] is given and whatever [getenv] and [chdir]
    answer, it leaves [last_exit_status] and [last_signal] (indeed all
    statics) as they were, so a [status] after it prints what a
    [status] before it would have printed. *)
Theorem cd_keeps_last_status `{WaitStatus} cmd os_home os_chdir
    status_cmd os_home' os_chdir' w :
  get_builtin_type (text <$> command cmd) = BUILTIN_CD →
  get_builtin_type (text <$> command status_cmd) = BUILTIN_STATUS →
  let w1 := (execute_builtin cmd os_home os_chdir w).2 in
  last_exit_status (shell w1) = last_exit_status (shell w)
  ∧ last_signal (shell w1) = last_signal (shell w)
  ∧ ∃ report,
      trace (execute_builtin status_cmd os_home' os_chdir' w).2 = trace w ++ [report]
      ∧ trace (execute_builtin status_cmd os_home' os_chdir' w1).2
          = trace w1 ++ [report].
Proof.
  intros Hcd Hstatus w1.
  pose proof (execute_cd cmd os_home os_chdir w Hcd) as Hshell. fold w1 in Hshell.
  rewrite !(execute_status status_cmd) by done. cbn [snd trace].
  rewrite Hshell. eauto.
Qed.

Lemma cd_keeps_last_status_witness :
  let w := (main [types "sleep 9" 12 (12, 9)] initial_world).2 in
  let w1 := (execute_builtin (parsed "cd /nonexistent") None (-1) w).2 in
  last_exit_status (shell w1) = last_exit_status (shell w)
  ∧ last_signal (shell w1) = last_signal (shell w)
  ∧ ∃ report,
      trace (execute_builtin (parsed "status") None 0 w).2 = trace w ++ [report]
      ∧ trace (execute_builtin (parsed "status") None 0 w1).2 = trace w1 ++ [report].
Proof.
  apply (cd_keeps_last_status (parsed "cd /nonexistent") None (-1)
           (parsed "status") None 0).
  - reflexivity.
  - reflexivity.
Defined.

(** C7 fails on the code.  In a fresh session a command whose [fork]
    fails leaves the loop running with the local [status] of [main]
    set to 1, but [last_exit_status] is still 0 and the [status]
    built-in that follows prints "exit value 0". *)
Example fork_failure_not_seen_by_status :
  let '(f, w) := main [types "ls" (-1) (0, 0); types "status" 0 (0, 0)] initial_world in
  f = Continue 1
  ∧ last_exit_status (shell w) = 0
  ∧ text_of <$> last (trace w) = Some ("exit value 0" +:+ NL).
Proof. vm_compute. repeat split. Qed.

(** The same for a failing [waitpid], after a child killed by signal
    9: [status] still prints the signal. *)
Example wait_failure_not_seen_by_status :
  let '(f, w) :=
    main [types "sleep 9" 12 (12, 9); types "ls" 13 (-1, 0); types "status" 0 (0, 0)]
         initial_world in
  f = Continue 1
  ∧ last_signal (shell w) = 9
  ∧ text_of <$> last (trace w) = Some ("terminated by signal 9" +:+ NL).
Proof. vm_compute. repeat split. Qed.

(** ** C9: the registry is append-only *)

(** C9.  Over any stretch of a session (turns of the loop of [main]
    and deliveries of the stop signal, whatever the system answers):
    [bg_process_count] never decreases and never passes the capacity;
    a slot that holds a job keeps that job's pid for ever and a job
    marked inactive stays inactive, so no slot is used again.  Hence
    once 100 jobs have been registered the count stays 100 and the
    registry holds the same 100 pids for ever; a command started in
    the background from then on is announced by its pid and leaves the
    statics as they are; and for a process [p] that is not an active
    job of the registry, nothing that happens from then on concerns
    [p]: no non-blocking [waitpid] on it, no completion report, no
    termination notice and no [kill] by the exit clean-up. *)
Theorem registry_is_append_only `{WaitStatus} steps status w p :
  let g := shell w in
  let w' := (main_loop steps status w).2 in
  let g' := shell w' in
  bg_process_count g ≤ bg_process_count g'
  ∧ (bg_process_count g ≤ MAX_BG_PROCESSES → bg_process_count g' ≤ MAX_BG_PROCESSES)
  ∧ (∀ i job,
       (i < Z.to_nat (bg_process_count g))%nat →
       background_processes g !! i = Some job →
       ∃ job',
         background_processes g' !! i = Some job'
         ∧ pid job' = pid job
         ∧ (active job = 0 → active job' = 0))
  ∧ (bg_process_count g = MAX_BG_PROCESSES →
     bg_process_count g' = MAX_BG_PROCESSES
     ∧ pid <$> background_processes g' = pid <$> background_processes g
     ∧ (∀ cmd last_status child_pid os_wait,
          is_Some (command cmd) → child_pid ≠ -1 → child_pid ≠ 0 →
          truthy (background cmd) && negb (truthy (foreground_only_mode g')) = true →
          execute_external_command cmd last_status (foreground_only_mode g')
            child_pid os_wait w'
          = (Returns (0, last_status),
             World g' (mem w') (trace w' ++ [SysFork; background_pid_is child_pid])))
     ∧ (untracked p g →
        ∃ new, trace w' = trace w ++ new
               ∧ Forall (λ e, concerns p e = false) new)).
Proof.
  intros g w' g'.
  destruct (keeps_main_loop w p steps status w (session_inv_start w p))
    as [[_ Hgrows Hbound Hslots Hfrozen] Htrace].
  fold w' in Hgrows, Hbound, Hslots, Hfrozen, Htrace. fold g g' in Hgrows, Hbound, Hslots, Hfrozen.
  split; [done|]. split; [done|]. split; [done|].
  intros Hfull. destruct (Hfrozen ltac:(subst g; lia)) as [Hcount Hpids].
  split; [congruence|]. split; [done|]. split; [|auto].
  intros cmd last_status child_pid os_wait Hcmd Hfail Hchild Hbg.
  rewrite execute_background by done.
  fold g'. replace (bg_process_count g' <? MAX_BG_PROCESSES) with false; [done|].
  symmetry. apply Z.ltb_ge. lia.
Qed.

(** A shell with a full registry starts one more background command
    (child 1100), then sees every child finish and leaves with
    [exit]: the 100 registered jobs are reported, and nothing concerns
    child 1100. *)
Example job_beyond_capacity_is_ignored :
  let w := after_spawns 100 1000 in
  let '(f, w') :=
    main_loop [types "sleep 100 &" 1100 (0, 0);
               types_while (λ i, (1000 + Z.of_nat i, 0)) "" 0 (0, 0);
               types "exit" 0 (0, 0)] 0 w in
  let new := drop (length (trace w)) (trace w') in
  f = Exited 0
  ∧ bg_process_count (shell w') = 100
  ∧ background_pid_is 1100 ∈ new
  ∧ length (List.filter is_completion_report new) = 100%nat
  ∧ forallb (λ e, negb (concerns 1100 e)) new = true.
Proof.
  vm_compute. repeat split.
  apply list_elem_of_In. vm_compute. tauto.
Qed.

(** ** C3: a finished job is reported once *)

Section Poll.
Context `{WaitStatus}.

Lemma check_jobs_app os l1 l2 w :
  check_jobs os (l1 ++ l2) w = check_jobs os l2 (check_jobs os l1 w).2.
Proof.
  unfold check_jobs. revert w.
  induction l1 as [|i rest IH]; intros w; cbn [for_each app]; [done|].
  by rewrite !bind_run, IH.
Qed.

Lemma check_jobs_unit os indices w : (check_jobs os indices w).1 = tt.
Proof. by destruct (check_jobs os indices w) as [[] ?]. Qed.

Lemma seq_cut i n : (i < n)%nat → seq 0 n = seq 0 i ++ i :: seq (S i) (n - S i).
Proof.
  intros Hi. replace n with (i + S (n - S i))%nat at 1 by lia.
  by rewrite seq_app.
Qed.

(** The poll, cut at slot [i]. *)
Lemma check_background_processes_cut os i w :
  (i < Z.to_nat (bg_process_count (shell w)))%nat →
  check_background_processes os w =
    (tt,
     (check_jobs os (seq (S i) (Z.to_nat (bg_process_count (shell w)) - S i))
        (check_slot (os i) i (check_jobs os (seq 0 i) w).2).2).2).
Proof.
  intros Hi. unfold check_background_processes. rewrite bind_run. cbn [get_globals fst snd].
  set (n := Z.to_nat (bg_process_count (shell w))) in *.
  rewrite (seq_cut i n Hi).
  change (i :: seq (S i) (n - S i)) with ([i] ++ seq (S i) (n - S i)).
  rewrite !check_jobs_app.
  replace (check_jobs os [i] (check_jobs os (seq 0 i) w).2)
    with (check_slot (os i) i (check_jobs os (seq 0 i) w).2).
  - apply injective_projections; [apply check_jobs_unit|done].
  - unfold check_jobs. cbn [for_each]. rewrite bind_run. cbn.
    by destruct (check_slot _ _ _) as [[] ?].
Qed.

(** The poll of other jobs leaves the entry of slot [i] alone. *)
Lemma check_slot_other reply j i w :
  i ≠ j →
  background_processes (shell (check_slot reply j w).2) !! i
  = background_processes (shell w) !! i.
Proof.
  intros Hne. destruct reply as [result status]. rewrite check_slot_run.
  destruct (background_processes (shell w) !! j) as [job|]; [|done].
  destruct (truthy (active job)); [|done].
  destruct ((0 <? result) || (result =? -1)); [|done].
  cbn. by rewrite list_lookup_insert_ne.
Qed.

Lemma check_jobs_other os indices i w :
  i ∉ indices →
  background_processes (shell (check_jobs os indices w).2) !! i
  = background_processes (shell w) !! i.
Proof.
  unfold check_jobs. revert w.
  induction indices as [|j rest IH]; intros w Hnotin; cbn [for_each]; [done|].
  apply not_elem_of_cons in Hnotin as [Hne Hrest].
  rewrite bind_run, IH by done. by apply check_slot_other.
Qed.

Lemma check_jobs_evolves os indices w :
  evolves (shell w) (shell (check_jobs os indices w).2).
Proof.
  unfold check_jobs. revert w.
  induction indices as [|j rest IH]; intros w; cbn [for_each]; [apply evolves_refl|].
  rewrite bind_run. eapply evolves_trans; [apply check_slot_evolves|apply IH].
Qed.

(** The poll passes over a job that is not active. *)
Lemma check_slot_inactive reply i job w :
  background_processes (shell w) !! i = Some job →
  active job = 0 →
  check_slot reply i w = (tt, w).
Proof.
  intros Hjob Hinactive. destruct reply as [result status].
  rewrite check_slot_run, Hjob.
  by replace (truthy (active job)) with false by (symmetry; by apply truthy_false).
Qed.

End Poll.

(** C3.  Take a registered job (slot [i] below the count) that is
    active, and let [waitpid] answer [result] and [status] when the
    poll asks about it.  The poll is the poll of the slots before [i],
    then the turn for the job, then the poll of the slots after [i].
    In its turn exactly this happens: one non-blocking [waitpid] on the
    job's pid and, if the process has terminated ([result > 0]), one
    line "background pid P is done: exit value N" (it exited) or
    "background pid P is done: terminated by signal N" (it was
    killed); if the call failed ([result = -1]) nothing is printed.  In
    both cases the poll leaves the job inactive, and then a poll at
    any later time of the session passes over the job: its turn
    changes nothing and prints nothing.  If the process still runs
    (any other result) the entry is as it was. *)
Theorem job_reported_once `{WaitStatus} os i job result status w :
  let n := Z.to_nat (bg_process_count (shell w)) in
  (i < n)%nat →
  background_processes (shell w) !! i = Some job →
  truthy (active job) = true →
  os i = (result, status) →
  let wa := (check_jobs os (seq 0 i) w).2 in
  let wb := (check_slot (os i) i wa).2 in
  let wc := (check_jobs os (seq (S i) (n - S i)) wb).2 in
  check_background_processes os w = (tt, wc)
  ∧ trace wb
    = trace wa ++ SysWaitpid (pid job) WNOHANG
        :: (if 0 <? result then
              if WIFEXITED status then
                [background_done_exit (pid job) (WEXITSTATUS status)]
              else if WIFSIGNALED status then
                [background_done_signal (pid job) (WTERMSIG status)]
              else []
            else [])
  ∧ background_processes (shell wc) !! i
    = Some (if (0 <? result) || (result =? -1) then BgProcess (pid job) 0 else job)
  ∧ ((0 <? result) || (result =? -1) = true →
     ∀ steps status' os',
       let later := (main_loop steps status' wc).2 in
       let n' := Z.to_nat (bg_process_count (shell later)) in
       let wa' := (check_jobs os' (seq 0 i) later).2 in
       check_slot (os' i) i wa' = (tt, wa')
       ∧ check_background_processes os' later
         = (tt, (check_jobs os' (seq (S i) (n' - S i)) wa').2)).
Proof.
  intros n Hi Hjob Hactive Hreply wa wb wc.
  assert (Hseq0 : i ∉ seq 0 i) by (intros Hin%elem_of_seq; lia).
  assert (HseqS : ∀ m, i ∉ seq (S i) m) by (intros m Hin%elem_of_seq; lia).
  assert (Hjob_a : background_processes (shell wa) !! i = Some job).
  { subst wa. by rewrite check_jobs_other. }
  assert (Hrun : check_slot (os i) i wa =
            (tt, World (if (0 <? result) || (result =? -1)
                        then set_job i (BgProcess (pid job) 0) (shell wa)
                        else shell wa)
                       (mem wa)
                       (trace wa ++ SysWaitpid (pid job) WNOHANG
                          :: (if 0 <? result then completion_report (pid job) status
                              else [])))).
  { by rewrite Hreply, check_slot_run, Hjob_a, Hactive. }
  assert (Hjob_c : background_processes (shell wc) !! i
            = Some (if (0 <? result) || (result =? -1)
                    then BgProcess (pid job) 0 else job)).
  { subst wc. rewrite check_jobs_other by done. subst wb. rewrite Hrun. cbn.
    destruct ((0 <? result) || (result =? -1)); [|done].
    cbn. apply list_lookup_insert_eq. by eapply lookup_lt_Some. }
  split. { by apply check_background_processes_cut. }
  split. { subst wb. by rewrite Hrun. }
  split; [done|].
  intros Hreaped steps status' os' later n' wa'.
  rewrite Hreaped in Hjob_c.
  assert (Hcount_c : bg_process_count (shell wc) = bg_process_count (shell w)).
  { subst wc wb wa. by rewrite check_jobs_count, check_slot_count, check_jobs_count. }
  assert (Hev : evolves (shell wc) (shell wa')).
  { eapply evolves_trans; [|apply check_jobs_evolves].
    apply (keeps_main_loop wc 0 steps status' wc (session_inv_start wc 0)). }
  destruct Hev as [_ Hgrows _ Hslots _].
  destruct (Hslots i _ ltac:(rewrite Hcount_c; done) Hjob_c)
    as (job' & Hjob' & _ & Hinactive).
  split.
  - by apply (check_slot_inactive (os' i) i job'); [|apply Hinactive].
  - rewrite (check_background_processes_cut os' i later).
    + fold wa' n'. by rewrite (check_slot_inactive (os' i) i job' wa' Hjob'); [|apply Hinactive].
    + pose proof (keeps_main_loop wc 0 steps status' wc (session_inv_start wc 0))
        as [[_ Hgrows' _ _ _] _].
      fold later in Hgrows'. lia.
Qed.

Lemma job_reported_once_witness :
  let os := λ _ : nat, (4242, 7 * 256) in
  let i := 0%nat in
  let job := BgProcess 4242 1 in
  let result := 4242 in
  let status := 7 * 256 in
  let w := (main [types "sleep 100 &" 4242 (0, 0)] initial_world).2 in
  let n := Z.to_nat (bg_process_count (shell w)) in
  let wa := (check_jobs os (seq 0 i) w).2 in
  let wb := (check_slot (os i) i wa).2 in
  let wc := (check_jobs os (seq (S i) (n - S i)) wb).2 in
  check_background_processes os w = (tt, wc)
  ∧ trace wb
    = trace wa ++ SysWaitpid (pid job) WNOHANG
        :: (if 0 <? result then
              if WIFEXITED status then
                [background_done_exit (pid job) (WEXITSTATUS status)]
              else if WIFSIGNALED status then
                [background_done_signal (pid job) (WTERMSIG status)]
              else []
            else [])
  ∧ background_processes (shell wc) !! i
    = Some (if (0 <? result) || (result =? -1) then BgProcess (pid job) 0 else job)
  ∧ ((0 <? result) || (result =? -1) = true →
     ∀ steps status' os',
       let later := (main_loop steps status' wc).2 in
       let n' := Z.to_nat (bg_process_count (shell later)) in
       let wa' := (check_jobs os' (seq 0 i) later).2 in
       check_slot (os' i) i wa' = (tt, wa')
       ∧ check_background_processes os' later
         = (tt, (check_jobs os' (seq (S i) (n' - S i)) wa').2)).
Proof.
  intros os i job result status w.
  apply (job_reported_once os i job result status w).
  - vm_compute. lia.
  - vm_compute. reflexivity.
  - reflexivity.
  - reflexivity.
Defined.

(** The same job in a session: it is reported at the next prompt, and
    at no prompt after that, although [waitpid] would still answer. *)
Example job_reported_once_in_session :
  let '(_, w) :=
    main [types "sleep 100 &" 4242 (0, 0);
          types_while (λ _, (4242, 7 * 256)) "" 0 (0, 0);
          types_while (λ _, (4242, 7 * 256)) "" 0 (0, 0);
          types_while (λ _, (4242, 7 * 256)) "status" 0 (0, 0)] initial_world in
  List.filter is_completion_report (trace w) = [background_done_exit 4242 7]
  ∧ text_of (background_done_exit 4242 7)
    = "background pid 4242 is done: exit value 7" +:+ NL.
Proof. vm_compute. split; reflexivity. Qed.

(** ** The tokenizer *)

Lemma skip_delims_length s : (String.length (skip_delims s) ≤ String.length s)%nat.
Proof.
  induction s as [|c s IH]; cbn; [done|]. destruct (is_delim c); cbn; lia.
Qed.

Lemma scan_token_length s :
  (String.length (scan_token s).2 ≤ Nat.pred (String.length s))%nat.
Proof.
  induction s as [|c s IH]; cbn; [done|].
  destruct (is_delim c); cbn; [done|].
  destruct (scan_token s) as [t r]. cbn in *. lia.
Qed.

(** A call of [strtok] that delivers a token moves on. *)
Lemma strtok_length s t r :
  strtok s = Some (t, r) → (String.length r < String.length s)%nat.
Proof.
  unfold strtok. pose proof (skip_delims_length s) as Hskip.
  destruct (skip_delims s) as [|c s'] eqn:Hs; [done|].
  pose proof (scan_token_length (String c s')) as Hscan.
  destruct (scan_token (String c s')) as [t' r'].
  intros [= -> ->]. cbn [snd String.length] in *. lia.
Qed.

Lemma strtok_all_enough calls s :
  (String.length s ≤ calls)%nat → strtok_all calls s = tokens_of s.
Proof.
  unfold tokens_of. revert s.
  induction (lt_wf calls) as [calls _ IH]. intros s Hlen.
  destruct calls as [|calls].
  { destruct s; [done|cbn in Hlen; lia]. }
  cbn [strtok_all]. destruct (strtok s) as [[t r]|] eqn:Htok.
  - pose proof (strtok_length s t r Htok) as Hr.
    destruct (String.length s) as [|n] eqn:Hn; [lia|].
    cbn [strtok_all]. rewrite Htok. f_equal.
    rewrite (IH calls) by lia. rewrite (IH n) by lia. done.
  - destruct (String.length s); [done|]. cbn [strtok_all]. by rewrite Htok.
Qed.

(** The tokens of a line are what [strtok] delivers, call after call. *)
Lemma tokens_of_unfold s :
  tokens_of s =
    match strtok s with
    | None => []
    | Some (t, r) => t :: tokens_of r
    end.
Proof.
  destruct (strtok s) as [[t r]|] eqn:Htok.
  - pose proof (strtok_length s t r Htok) as Hr.
    unfold tokens_of at 1. destruct (String.length s) as [|n] eqn:Hn; [lia|].
    cbn [strtok_all]. rewrite Htok. f_equal. apply strtok_all_enough. lia.
  - unfold tokens_of. destruct (String.length s); [done|].
    cbn [strtok_all]. by rewrite Htok.
Qed.

Lemma name_blocks_length next toks : length (name_blocks next toks) = length toks.
Proof. revert next. induction toks as [|t rest IH]; intros next; cbn; [done|]. by rewrite IH. Qed.

Lemma name_blocks_text next toks : text <$> name_blocks next toks = toks.
Proof. revert next. induction toks as [|t rest IH]; intros next; cbn; [done|]. by rewrite IH. Qed.

Lemma name_blocks_addr next toks a :
  a ∈ addr <$> name_blocks next toks ↔ (next ≤ a < next + length toks)%nat.
Proof.
  revert next. induction toks as [|t rest IH]; intros next; cbn.
  - rewrite elem_of_nil. lia.
  - rewrite elem_of_cons, IH. lia.
Qed.

(** [free_each], in full. *)
Lemma free_each_run tokens w :
  free_each tokens w =
    (tt, World (shell w)
               (Heap (live (mem w) ∖ list_to_set (addr <$> tokens))
                     (next_block (mem w)) (out_of_memory (mem w)))
               (trace w)).
Proof.
  revert w. induction tokens as [|t rest IH]; intros w; cbn [free_each].
  - cbn. destruct w as [g [l n o] tr]. cbn. do 3 f_equal. set_solver.
  - rewrite bind_run. rewrite IH. cbn. do 3 f_equal. set_solver.
Qed.

(** The loop of the tokenizer when no request is refused and the
    tokens fit. *)
Lemma tokenize_loop_fits room s tokens w :
  no_oom (mem w) →
  (length (tokens_of s) ≤ room)%nat →
  let blocks := name_blocks (next_block (mem w)) (tokens_of s) in
  tokenize_loop room (strtok s) tokens w =
    ((Z.of_nat (length (tokens ++ blocks)), tokens ++ blocks),
     World (shell w)
           (Heap (list_to_set (addr <$> blocks) ∪ live (mem w))
                 (next_block (mem w) + length blocks)%nat
                 (out_of_memory (mem w)))
           (trace w)).
Proof.
  revert s tokens w. induction room as [|room IH]; intros s tokens w Hoom Hfits.
  - rewrite tokens_of_unfold in *. destruct (strtok s) as [[t r]|]; [cbn in Hfits; lia|].
    cbn. rewrite app_nil_r, Nat.add_0_r. destruct w as [g [l n o] tr]. cbn.
    do 3 f_equal. set_solver.
  - rewrite (tokens_of_unfold s) in *. destruct (strtok s) as [[t r]|].
    + cbn [tokenize_loop]. rewrite bind_run. unfold malloc at 1 2.
      rewrite (Hoom (next_block (mem w))). cbn [fst snd].
      rewrite IH; [|done|cbn in Hfits; lia].
      cbn. rewrite <- !app_assoc. cbn. do 3 f_equal; [|lia].
      set_solver.
    + cbn. rewrite app_nil_r, Nat.add_0_r. destruct w as [g [l n o] tr]. cbn.
      do 3 f_equal. set_solver.
Qed.

(** The loop of the tokenizer when no request is refused and there
    are more tokens than room: the copies made so far are freed. *)
Lemma tokenize_loop_overflow room s tokens w :
  no_oom (mem w) →
  (room < length (tokens_of s))%nat →
  let blocks := name_blocks (next_block (mem w)) (take room (tokens_of s)) in
  tokenize_loop room (strtok s) tokens w =
    ((-1, tokens ++ blocks),
     World (shell w)
           (Heap ((list_to_set (addr <$> blocks) ∪ live (mem w))
                    ∖ list_to_set (addr <$> (tokens ++ blocks)))
                 (next_block (mem w) + length blocks)%nat
                 (out_of_memory (mem w)))
           (trace w ++ [too_many_tokens])).
Proof.
  revert s tokens w. induction room as [|room IH]; intros s tokens w Hoom Hover.
  - rewrite tokens_of_unfold in *. destruct (strtok s) as [[t r]|]; [|cbn in Hover; lia].
    cbn [tokenize_loop]. rewrite !bind_run. rewrite free_each_run. cbn.
    rewrite app_nil_r, Nat.add_0_r. do 3 f_equal. set_solver.
  - rewrite (tokens_of_unfold s) in *. destruct (strtok s) as [[t r]|]; [|cbn in Hover; lia].
    cbn [tokenize_loop]. rewrite bind_run. unfold malloc at 1 2.
    rewrite (Hoom (next_block (mem w))). cbn [fst snd].
    rewrite IH; [|done|cbn in Hover; lia].
    cbn. rewrite <- !app_assoc. cbn. do 3 f_equal; [|lia].
    set_solver.
Qed.

(** [tokenize_line] when no request is refused: the three outcomes. *)
Lemma tokenize_line_run line max_tokens w :
  no_oom (mem w) →
  tokenize_line line max_tokens w =
    if (MAX_LINE_LENGTH <? String.length line)%nat then
      ((-1, []), World (shell w) (mem w) (trace w ++ [line_too_long]))
    else if (max_tokens <? length (tokens_of line))%nat then
      let blocks :=
        name_blocks (next_block (mem w)) (take max_tokens (tokens_of line)) in
      ((-1, blocks),
       World (shell w)
             (Heap ((list_to_set (addr <$> blocks) ∪ live (mem w))
                      ∖ list_to_set (addr <$> blocks))
                   (next_block (mem w) + length blocks)%nat
                   (out_of_memory (mem w)))
             (trace w ++ [too_many_tokens]))
    else
      let blocks := name_blocks (next_block (mem w)) (tokens_of line) in
      ((Z.of_nat (length blocks), blocks),
       World (shell w)
             (Heap (list_to_set (addr <$> blocks) ∪ live (mem w))
                   (next_block (mem w) + length blocks)%nat
                   (out_of_memory (mem w)))
             (trace w)).
Proof.
  intros Hoom. unfold tokenize_line.
  destruct (MAX_LINE_LENGTH <? String.length line)%nat; [done|].
  destruct (Nat.ltb_spec max_tokens (length (tokens_of line))) as [Hover|Hfits].
  - by rewrite tokenize_loop_overflow.
  - by rewrite tokenize_loop_fits.
Qed.

(** Freeing fresh blocks gives the heap back. *)
Lemma fresh_blocks_freed h toks :
  heap_ok h →
  (list_to_set (addr <$> name_blocks (next_block h) toks) ∪ live h)
    ∖ list_to_set (addr <$> name_blocks (next_block h) toks)
  = live h.
Proof.
  intros Hok. apply set_eq. intros a.
  rewrite elem_of_difference, elem_of_union, !elem_of_list_to_set, name_blocks_addr.
  split; [tauto|]. intros Ha. specialize (Hok a Ha). split; [tauto|lia].
Qed.

Lemma trace_not_extended (tr : list event) e : tr ≠ tr ++ [e].
Proof.
  intros Heq. apply (f_equal length) in Heq. rewrite length_app in Heq. cbn in Heq. lia.
Qed.

(** ** C6: the limits of the tokenizer *)

(** C6, amended.  With an allocator that refuses no request and a
    heap whose live blocks are all known to it, [tokenize_line] with
    the cap 512 fails with the line-too-long diagnostic if and only if
    the line has more than 2048 characters; it fails with the
    too-many-tokens diagnostic if and only if the line has at most
    2048 characters and splits into more than 512 tokens; whenever it
    fails, the live blocks are those of before the call (every copy
    made was freed); and for a line within both limits it returns the
    number of tokens and their copies without any diagnostic: for a
    blank line the count 0, no token, and the world as it was. *)
Theorem tokenizer_limits line w :
  no_oom (mem w) → heap_ok (mem w) →
  let '((n, tokens), w') := tokenize_line line MAX_ARGS w in
  let length_exceeded := (MAX_LINE_LENGTH < String.length line)%nat in
  let count_exceeded := (MAX_ARGS < length (tokens_of line))%nat in
  (n = -1 ∧ trace w' = trace w ++ [line_too_long] ↔ length_exceeded)
  ∧ (n = -1 ∧ trace w' = trace w ++ [too_many_tokens]
     ↔ ¬ length_exceeded ∧ count_exceeded)
  ∧ (n = -1 → live (mem w') = live (mem w))
  ∧ (¬ length_exceeded → ¬ count_exceeded →
     n = Z.of_nat (length (tokens_of line))
     ∧ text <$> tokens = tokens_of line
     ∧ trace w' = trace w)
  ∧ (¬ length_exceeded → tokens_of line = [] → n = 0 ∧ tokens = [] ∧ w' = w).
Proof.
  intros Hoom Hok. rewrite tokenize_line_run by done.
  destruct (Nat.ltb_spec MAX_LINE_LENGTH (String.length line)) as [Hlong|Hshort].
  { cbn zeta. split; [tauto|]. split.
    - split; [|lia]. intros [_ Htrace]. apply app_inv_head in Htrace. discriminate Htrace.
    - split; [done|]. split; [lia|]. lia. }
  destruct (Nat.ltb_spec MAX_ARGS (length (tokens_of line))) as [Hover|Hfits].
  { cbn zeta. split.
    - split; [|lia]. intros [_ Htrace]. apply app_inv_head in Htrace. discriminate Htrace.
    - split; [split; intros; (split; [lia|done])|].
      split; [intros _; by apply fresh_blocks_freed|].
      split; [lia|]. intros _ Hblank. rewrite Hblank in Hover. cbn in Hover. lia. }
  cbn zeta. rewrite name_blocks_length, name_blocks_text. split.
  - split; [|lia]. intros [_ Htrace]. by apply trace_not_extended in Htrace.
  - split.
    { split; [|lia]. intros [_ Htrace]. by apply trace_not_extended in Htrace. }
    split; [lia|]. split; [done|].
    intros _ Hblank. rewrite Hblank. cbn. split; [done|]. split; [done|].
    destruct w as [g [l nb o] tr]. cbn. do 2 f_equal; [set_solver|lia].
Qed.

Lemma tokenizer_limits_witness :
  let line := crowded_line 513 in
  let w := initial_world in
  let '((n, tokens), w') := tokenize_line line MAX_ARGS w in
  let length_exceeded := (MAX_LINE_LENGTH < String.length line)%nat in
  let count_exceeded := (MAX_ARGS < length (tokens_of line))%nat in
  (n = -1 ∧ trace w' = trace w ++ [line_too_long] ↔ length_exceeded)
  ∧ (n = -1 ∧ trace w' = trace w ++ [too_many_tokens]
     ↔ ¬ length_exceeded ∧ count_exceeded)
  ∧ (n = -1 → live (mem w') = live (mem w))
  ∧ (¬ length_exceeded → ¬ count_exceeded →
     n = Z.of_nat (length (tokens_of line))
     ∧ text <$> tokens = tokens_of line
     ∧ trace w' = trace w)
  ∧ (¬ length_exceeded → tokens_of line = [] → n = 0 ∧ tokens = [] ∧ w' = w).
Proof.
  intros line w. apply (tokenizer_limits line w).
  - intros k. reflexivity.
  - intros a Ha. by apply not_elem_of_empty in Ha.
Defined.

(** The three outcomes on lines of one-letter tokens: 513 tokens in
    1026 characters (too many tokens, nothing left on the heap), 512
    tokens (accepted), no token at all (accepted, count 0). *)
Example tokenizer_outcomes :
  (let '((n, _), w') := tokenize_line (crowded_line 513) MAX_ARGS initial_world in
   n = -1 ∧ trace w' = [too_many_tokens] ∧ elements (live (mem w')) = [])
  ∧ (let '((n, tokens), w') := tokenize_line (crowded_line 512) MAX_ARGS initial_world in
     n = 512 ∧ length tokens = 512%nat ∧ trace w' = [])
  ∧ tokenize_line ("   " +:+ NL) MAX_ARGS initial_world = ((0, []), initial_world).
Proof. vm_compute. repeat split. Qed.

(** C6 as stated fails on a line that breaks both limits: 1025 tokens
    in 2050 characters.  Splitting it would give more than 512 tokens,
    but the tokenizer fails with the line-too-long diagnostic and
    never prints the too-many-tokens one. *)
Lemma long_line_hides_token_count :
  let line := crowded_line 1025 in
  String.length line = 2050%nat
  ∧ length (tokens_of line) = 1025%nat
  ∧ let '((n, _), w') := tokenize_line line MAX_ARGS initial_world in
    n = -1 ∧ trace w' = [line_too_long] ∧ too_many_tokens ∉ trace w'.
Proof.
  vm_compute. repeat split.
  intros Hin. apply elem_of_cons in Hin as [Heq|Hin]; [discriminate Heq|].
  by apply elem_of_nil in Hin.
Qed.

(** ** The parser and its scan of the tokens *)

Lemma heap_only_no_oom w w' : heap_only w w' → no_oom (mem w) → no_oom (mem w').
Proof. intros (_ & _ & Hoom) Hw k. by rewrite Hoom. Qed.

Lemma malloc_ok size w :
  no_oom (mem w) →
  (malloc size w).1 = Some (next_block (mem w)) ∧ heap_only w (malloc size w).2.
Proof. intros Hoom. unfold malloc. by rewrite Hoom. Qed.

Lemma free_each_heap_only tokens w : heap_only w (free_each tokens w).2.
Proof. by rewrite free_each_run. Qed.

Lemma argv_of_stored (stored : list cstr) k :
  argv_of ((Some <$> stored) ++ replicate k None) = text <$> stored.
Proof.
  induction stored as [|c rest IH]; cbn; [by destruct k|]. by rewrite IH.
Qed.

Lemma insert_stored (stored : list cstr) ai v :
  length stored = ai → (ai < 513)%nat →
  <[ai := Some v]> ((Some <$> stored) ++ replicate (513 - ai) None)
  = (Some <$> (stored ++ [v])) ++ replicate (513 - S ai) None.
Proof.
  intros Hlen Hai.
  rewrite insert_app_r_alt by (rewrite length_fmap; lia).
  rewrite length_fmap, Hlen, Nat.sub_diag.
  replace (513 - ai)%nat with (S (513 - S ai)) by lia.
  cbn. by rewrite fmap_app, <- app_assoc.
Qed.

Lemma args_ok_argv cmd ai :
  args_ok cmd ai → (argv cmd = [] ↔ ai = 0%nat) ∧ length (argv cmd) = ai.
Proof.
  intros (_ & (stored & Hlen & Hargs) & _). unfold argv.
  rewrite Hargs, argv_of_stored, length_fmap. split; [|done].
  destruct stored; cbn in *; split; intros; (done || lia).
Qed.

(** Storing a token as an argument, when no request is refused. *)
Lemma store_argument_ok t tokens line_copy cmd ai w :
  no_oom (mem w) → args_ok cmd ai → (ai < 512)%nat →
  ∃ cmd' w',
    store_argument t tokens line_copy cmd ai w = (inr cmd', w')
    ∧ heap_only w w'
    ∧ args_ok cmd' (S ai)
    ∧ view_of cmd' = Scanned (argv cmd ++ [text t]) (text <$> input_file cmd)
                             (text <$> output_file cmd) (background cmd).
Proof.
  intros Hoom (_ & (stored & Hlen & Hargs) & Hcommand) Hai.
  unfold store_argument. destruct (Nat.eqb_spec ai 0) as [->|Hpos].
  - destruct stored; [|done]. cbn in Hargs.
    rewrite bind_run. destruct (malloc_ok (String.length (text t) + 1) w Hoom) as [-> Hw1].
    set (w1 := (malloc _ w).2) in *.
    pose proof (heap_only_no_oom _ _ Hw1 Hoom) as Hoom1.
    cbn zeta. rewrite bind_run.
    destruct (malloc_ok (String.length (text t) + 1) w1 Hoom1) as [-> Hw2].
    set (w2 := (malloc _ w1).2) in *.
    eexists _, w2. split; [done|]. split.
    { destruct Hw1 as (? & ? & ?), Hw2 as (? & ? & ?). repeat split; congruence. }
    split.
    + split; [lia|]. split.
      * exists [CStr (next_block (mem w1)) (text t)]. split; [done|].
        cbn [args set_arg set_command]. by rewrite Hargs.
      * unfold argv. cbn [args set_arg set_command command]. by rewrite Hargs.
    + unfold view_of, argv. cbn [args set_arg set_command input_file output_file background].
      by rewrite Hargs.
  - rewrite bind_run. destruct (malloc_ok (String.length (text t) + 1) w Hoom) as [-> Hw1].
    set (w1 := (malloc _ w).2) in *.
    eexists _, w1. split; [done|]. split; [done|].
    assert (Hins : args (set_arg ai (Some (CStr (next_block (mem w)) (text t))) cmd)
              = (Some <$> (stored ++ [CStr (next_block (mem w)) (text t)]))
                  ++ replicate (513 - S ai) None).
    { cbn [args set_arg]. rewrite Hargs. apply insert_stored; [done|lia]. }
    split.
    + split; [lia|]. split.
      * eexists. split; [|exact Hins]. rewrite length_app. cbn. lia.
      * unfold argv in *. rewrite Hins, argv_of_stored. cbn [command set_arg].
        rewrite Hcommand, Hargs, argv_of_stored.
        destruct stored; [cbn in Hlen; lia|done].
    + unfold view_of, argv. rewrite Hins, argv_of_stored. cbn [input_file output_file background set_arg].
      by rewrite Hargs, argv_of_stored, fmap_app.
Qed.

(** [parse_tokens] computes [scan], when no request is refused. *)
Lemma parse_tokens_scan rest tokens line_copy cmd ai w :
  no_oom (mem w) → args_ok cmd ai → (ai + length rest ≤ 512)%nat →
  ∃ e w',
    parse_tokens rest tokens line_copy cmd ai w = (e, w')
    ∧ match scan (text <$> rest) (view_of cmd) with
      | (None, v) =>
          ∃ cmd' ai',
            e = Finished cmd' ai' ∧ view_of cmd' = v ∧ args_ok cmd' ai'
            ∧ trace w' = trace w
      | (Some m, v) =>
          ∃ cmd', e = Returned (-1) cmd' ∧ view_of cmd' = v
                  ∧ trace w' = trace w ++ [m]
      end.
Proof.
  remember (length rest) as n eqn:Hn.
  revert rest cmd ai w Hn.
  induction (lt_wf n) as [n _ IH]. intros rest cmd ai w -> Hoom Hargs Hroom.
  destruct rest as [|t rest1]; cbn [parse_tokens fmap list_fmap scan].
  { eexists _, w. split; [done|]. eauto 10. }
  (* storing [t] and going on with [rest1] *)
  assert (Hstore :
    ∃ e w',
      (r ← store_argument t tokens line_copy cmd ai;
       match r with
       | inl cmd' => mret (Returned (-1) cmd')
       | inr cmd' => parse_tokens rest1 tokens line_copy cmd' (S ai)
       end) w = (e, w')
      ∧ match scan (text <$> rest1)
                (Scanned (s_argv (view_of cmd) ++ [text t]) (s_input (view_of cmd))
                         (s_output (view_of cmd)) (s_background (view_of cmd))) with
        | (None, v) =>
            ∃ cmd' ai',
              e = Finished cmd' ai' ∧ view_of cmd' = v ∧ args_ok cmd' ai'
              ∧ trace w' = trace w
        | (Some m, v) =>
            ∃ cmd', e = Returned (-1) cmd' ∧ view_of cmd' = v
                    ∧ trace w' = trace w ++ [m]
        end).
  { cbn in Hroom.
    destruct (store_argument_ok t tokens line_copy cmd ai w Hoom Hargs ltac:(lia))
      as (cmd1 & w1 & Hrun & Hw1 & Hargs1 & Hview1).
    rewrite bind_run, Hrun. cbn [fst snd].
    destruct (IH (length rest1) ltac:(cbn; lia) rest1 cmd1 (S ai) w1 eq_refl
                (heap_only_no_oom _ _ Hw1 Hoom) Hargs1 ltac:(lia))
      as (e & w' & Hrun' & Hscan).
    exists e, w'. split; [done|]. rewrite Hview1 in Hscan.
    destruct Hw1 as (_ & Htrace & _). by rewrite Htrace in Hscan. }
  (* a redirection operator and its filename *)
  assert (Hredirect : ∀ (set : option cstr → command_t → command_t) (v : string → scanned),
    (∀ c, view_of (set (Some c) cmd) = v (text c)) →
    (∀ c, args (set (Some c) cmd) = args cmd ∧ command (set (Some c) cmd) = command cmd) →
    ∀ f rest2, rest1 = f :: rest2 →
    ∃ e w',
      (p ← malloc (String.length (text f) + 1);
       match p with
       | None =>
           free_tokens tokens ;; free line_copy ;; mret (Returned (-1) (set None cmd))
       | Some a => parse_tokens rest2 tokens line_copy (set (Some (CStr a (text f))) cmd) ai
       end) w = (e, w')
      ∧ match scan (text <$> rest2) (v (text f)) with
        | (None, v) =>
            ∃ cmd' ai',
              e = Finished cmd' ai' ∧ view_of cmd' = v ∧ args_ok cmd' ai'
              ∧ trace w' = trace w
        | (Some m, v) =>
            ∃ cmd', e = Returned (-1) cmd' ∧ view_of cmd' = v
                    ∧ trace w' = trace w ++ [m]
        end).
  { intros set v Hview Hsame f rest2 ->. cbn in Hroom.
    rewrite bind_run.
    destruct (malloc_ok (String.length (text f) + 1) w Hoom) as [-> Hw1].
    set (w1 := (malloc _ w).2) in *.
    set (c := CStr (next_block (mem w)) (text f)).
    assert (Hargs1 : args_ok (set (Some c) cmd) ai).
    { destruct Hargs as (? & ? & ?), (Hsame c) as [Ha Hc].
      unfold args_ok, argv. by rewrite Ha, Hc. }
    destruct (IH (length rest2) ltac:(cbn; lia) rest2 (set (Some c) cmd) ai w1 eq_refl
                (heap_only_no_oom _ _ Hw1 Hoom) Hargs1 ltac:(lia))
      as (e & w' & Hrun' & Hscan).
    exists e, w'. split; [done|]. rewrite (Hview c) in Hscan.
    destruct Hw1 as (_ & Htrace & _). by rewrite Htrace in Hscan. }
  (* a redirection operator with nothing after it *)
  assert (Hmissing : ∀ m,
    ∃ e w',
      (emit m ;; free_tokens tokens ;; free line_copy ;; mret (Returned (-1) cmd)) w
        = (e, w')
      ∧ ∃ cmd', e = Returned (-1) cmd' ∧ view_of cmd' = view_of cmd
                ∧ trace w' = trace w ++ [m]).
  { intros m. unfold free_tokens. rewrite !bind_run. rewrite free_each_run. cbn.
    eexists _, _. split; [done|]. eauto. }
  destruct (String.eqb (text t) "<").
  { destruct rest1 as [|f rest2]; [apply Hmissing|].
    by apply (Hredirect set_input_file
                (λ f, Scanned (argv cmd) (Some f) (text <$> output_file cmd)
                              (background cmd))). }
  destruct (String.eqb (text t) ">").
  { destruct rest1 as [|f rest2]; [apply Hmissing|].
    by apply (Hredirect set_output_file
                (λ f, Scanned (argv cmd) (text <$> input_file cmd) (Some f)
                              (background cmd))). }
  destruct (String.eqb (text t) "&"); [|apply Hstore].
  destruct rest1 as [|t1 rest1]; [|apply Hstore].
  cbn. eexists _, w. split; [done|].
  exists (set_background 1 cmd), ai. split; [done|]. split; [done|]. split; [|done].
  destruct Hargs as (? & ? & ?). done.
Qed.

Lemma args_ok_init : args_ok init_command 0.
Proof.
  split; [lia|]. split; [|done]. by exists [].
Qed.

(** Writing the terminating [NULL] changes nothing that is visible. *)
Lemma view_of_terminated cmd ai :
  args_ok cmd ai →
  view_of (set_arg ai None cmd) = view_of cmd
  ∧ (command (set_arg ai None cmd) = None ↔ argv cmd = []).
Proof.
  intros (Hai & (stored & Hlen & Hargs) & Hcommand).
  assert (Hsame : args (set_arg ai None cmd) = args cmd).
  { cbn [args set_arg]. apply list_insert_id. rewrite Hargs.
    rewrite lookup_app_r by (rewrite length_fmap; lia).
    rewrite length_fmap, Hlen, Nat.sub_diag.
    by replace (513 - ai)%nat with (S (512 - ai)) by lia. }
  split.
  - unfold view_of, argv. by rewrite Hsame.
  - cbn [command set_arg]. destruct (command cmd), (argv cmd); naive_solver.
Qed.

(** [parse_command], when no request is refused: the result and what
    is left in the command. *)
Lemma parse_command_run line w :
  no_oom (mem w) →
  ∃ code cmd w',
    parse_command line w = ((code, cmd), w')
    ∧ if is_blank_or_comment line then
        code = 1 ∧ cmd = init_command ∧ trace w' = trace w
      else if (MAX_LINE_LENGTH <? String.length line)%nat then
        code = -1 ∧ cmd = init_command ∧ trace w' = trace w ++ [line_too_long]
      else if (MAX_ARGS <? length (tokens_of line))%nat then
        code = -1 ∧ cmd = init_command ∧ trace w' = trace w ++ [too_many_tokens]
      else
        match scan (tokens_of line) (view_of init_command) with
        | (Some m, v) => code = -1 ∧ view_of cmd = v ∧ trace w' = trace w ++ [m]
        | (None, v) =>
            code = (match s_argv v with [] => -1 | _ :: _ => 0 end)
            ∧ view_of cmd = v ∧ trace w' = trace w
        end.
Proof.
  intros Hoom. unfold parse_command, is_blank_or_comment. cbn zeta.
  rewrite bind_run.
  destruct (malloc_ok (String.length line + 1) w Hoom) as [-> Hw1].
  set (w1 := (malloc _ w).2) in *.
  pose proof (heap_only_no_oom _ _ Hw1 Hoom) as Hoom1.
  destruct Hw1 as (_ & Htrace1 & _).
  destruct (skip_blanks line) as [|c rest].
  { eexists _, _, _. split; [done|]. by cbn. }
  destruct (Ascii.eqb c "010"); [eexists _, _, _; split; [done|]; by cbn|].
  destruct (Ascii.eqb c "#"); [eexists _, _, _; split; [done|]; by cbn|].
  cbn [orb]. rewrite bind_run, (tokenize_line_run line MAX_ARGS w1 Hoom1).
  destruct (MAX_LINE_LENGTH <? String.length line)%nat.
  { eexists _, _, _. split; [done|]. cbn. by rewrite Htrace1. }
  destruct (Nat.ltb_spec MAX_ARGS (length (tokens_of line))) as [Hover|Hfits].
  { cbn zeta. cbn [fst snd]. eexists _, _, _. split; [done|]. cbn. by rewrite Htrace1. }
  cbn zeta. cbn [fst snd].
  set (blocks := name_blocks (next_block (mem w1)) (tokens_of line)).
  set (w2 := World _ _ _).
  assert (Hoom2 : no_oom (mem w2)) by done.
  assert (Htrace2 : trace w2 = trace w) by done.
  assert (Hblocks : text <$> blocks = tokens_of line) by apply name_blocks_text.
  assert (Hlen : length blocks = length (tokens_of line)) by apply name_blocks_length.
  destruct (Z.leb_spec (Z.of_nat (length blocks)) 0) as [Hnone|Hsome].
  { assert (Htoks : tokens_of line = []).
    { apply length_zero_iff_nil. lia. }
    eexists _, _, _. split; [done|]. rewrite Htoks. by cbn. }
  assert (Hroom : (0 + length blocks ≤ 512)%nat) by (unfold MAX_ARGS in Hfits; lia).
  destruct (parse_tokens_scan blocks blocks (next_block (mem w)) init_command 0 w2
              Hoom2 args_ok_init Hroom) as (e & w3 & Hrun & Hscan).
  rewrite bind_run, Hrun. cbn [fst snd]. rewrite Hblocks in Hscan.
  destruct (scan (tokens_of line) (view_of init_command)) as [[m|] v].
  - destruct Hscan as (cmd' & -> & Hview & Htrace3).
    eexists _, _, _. split; [done|]. rewrite Htrace3, Htrace2. done.
  - destruct Hscan as (cmd' & ai' & -> & Hview & Hargs & Htrace3).
    destruct (view_of_terminated cmd' ai' Hargs) as [Hview' Hcommand].
    unfold free_tokens. rewrite !bind_run, free_each_run. cbn [fst snd].
    assert (Hargv : s_argv v = argv cmd') by by rewrite <- Hview.
    destruct (command (set_arg ai' None cmd')) as [name|] eqn:Hname.
    + eexists _, _, _. split; [done|]. cbn. rewrite Hview', Hview.
      split; [|split; [done|congruence]].
      rewrite Hargv. destruct (argv cmd'); [|done].
      destruct Hcommand as [_ Hnone]. specialize (Hnone eq_refl). congruence.
    + eexists _, _, _. split; [done|]. cbn. rewrite Hview', Hview.
      split; [|split; [done|congruence]].
      rewrite Hargv. apply proj1 in Hcommand. by rewrite Hcommand.
Qed.

(** ** [scan], case by case *)

Lemma is_redirect_cases t : is_redirect t = true → t = "<" ∨ t = ">".
Proof.
  unfold is_redirect. intros [Hin|Hout]%orb_true_iff; apply String.eqb_eq in Hin || apply String.eqb_eq in Hout; auto.
Qed.

Lemma is_redirect_false t :
  is_redirect t = false → String.eqb t "<" = false ∧ String.eqb t ">" = false.
Proof. unfold is_redirect. by intros [? ?]%orb_false_iff. Qed.

Lemma scan_redirect_last op v :
  is_redirect op = true → scan [op] v = (Some (missing_filename op), v).
Proof. by intros [-> | ->]%is_redirect_cases. Qed.

Lemma scan_redirect op f rest v :
  is_redirect op = true → scan (op :: f :: rest) v = scan rest (take_filename op f v).
Proof. by intros [-> | ->]%is_redirect_cases. Qed.


Lemma scan_plain t rest v :
  is_redirect t = false → (t = "&" → rest ≠ []) →
  scan (t :: rest) v = scan rest (push_argument t v).
Proof.
  intros [Hin Hout]%is_redirect_false Hmarker. cbn [scan]. rewrite Hin, Hout.
  destruct (String.eqb_spec t "&") as [->|_]; [|done].
  destruct rest; [|done]. by destruct Hmarker.
Qed.

(** The cases of a token list, as [scan] reads it. *)
Lemma scan_cases (toks : list string) :
  toks = []
  ∨ (∃ op, toks = [op] ∧ is_redirect op = true)
  ∨ (∃ op f rest, toks = op :: f :: rest ∧ is_redirect op = true)
  ∨ toks = ["&"]
  ∨ (∃ t rest, toks = t :: rest ∧ is_redirect t = false ∧ (t = "&" → rest ≠ [])).
Proof.
  destruct toks as [|t rest]; [by left|]. right.
  destruct (is_redirect t) eqn:Hop.
  - destruct rest as [|f rest]; [left|right; left]; eauto 10.
  - right. right. destruct (decide (t = "&" ∧ rest = [])) as [[-> ->]|Hno].
    + by left.
    + right. exists t, rest. split; [done|]. split; [done|].
      intros -> ->. by apply Hno.
Qed.

(** ** The background marker *)

Lemma ends_with_marker_nil : ¬ ends_with_marker [].
Proof. intros (pre & Heq & _). by destruct pre. Qed.

Lemma ends_with_marker_one t : ends_with_marker [t] ↔ t = "&".
Proof.
  split.
  - intros (pre & Heq & _). destruct pre as [|x [|y pre]]; naive_solver.
  - intros ->. by exists [].
Qed.

Lemma ends_with_marker_redirect op f rest :
  is_redirect op = true →
  ends_with_marker (op :: f :: rest) ↔ ends_with_marker rest.
Proof.
  intros Hop. split.
  - intros (pre & Heq & Hpre). destruct pre as [|x [|y pre]].
    + done.
    + injection Heq as -> Heq. cbn in Hpre. by rewrite Hop in Hpre.
    + injection Heq as -> -> ->. cbn in Hpre. rewrite Hop in Hpre. by exists pre.
  - intros (pre & -> & Hpre). exists (op :: f :: pre). split; [done|].
    cbn. by rewrite Hop.
Qed.

Lemma ends_with_marker_plain t rest :
  is_redirect t = false → rest ≠ [] →
  ends_with_marker (t :: rest) ↔ ends_with_marker rest.
Proof.
  intros Hplain Hrest. split.
  - intros (pre & Heq & Hpre). destruct pre as [|x pre].
    + injection Heq as -> ->. done.
    + injection Heq as -> ->. cbn in Hpre. rewrite Hplain in Hpre. by exists pre.
  - intros (pre & -> & Hpre). exists (t :: pre). split; [done|].
    cbn. by rewrite Hplain.
Qed.

(** [scan] sets the flag exactly for a line that ends in a marker. *)
Lemma scan_background toks v :
  (ends_with_marker toks ∧ s_background (scan toks v).2 = 1)
  ∨ (¬ ends_with_marker toks ∧ s_background (scan toks v).2 = s_background v).
Proof.
  remember (length toks) as n eqn:Hn. revert toks v Hn.
  induction (lt_wf n) as [n _ IH]. intros toks v ->.
  destruct (scan_cases toks)
    as [->|[(op & -> & Hop)|[(op & f & rest & -> & Hop)|[->|(t & rest & -> & Hplain & Hmarker)]]]].
  - right. split; [apply ends_with_marker_nil|done].
  - right. rewrite scan_redirect_last by done. split; [|done].
    rewrite ends_with_marker_one. intros ->. done.
  - rewrite scan_redirect by done.
    destruct (IH (length rest) ltac:(cbn; lia) rest (take_filename op f v) eq_refl)
      as [[Hend Hbg]|[Hend Hbg]].
    + left. by rewrite ends_with_marker_redirect.
    + right. rewrite ends_with_marker_redirect by done. split; [done|].
      rewrite Hbg. unfold take_filename. by destruct (String.eqb op "<").
  - left. split; [by apply ends_with_marker_one|done].
  - rewrite scan_plain by done. destruct rest as [|u rest].
    + right. split; [|done]. rewrite ends_with_marker_one. naive_solver.
    + destruct (IH (length (u :: rest)) ltac:(cbn; lia) (u :: rest)
                  (push_argument t v) eq_refl) as [[Hend Hbg]|[Hend Hbg]].
      * left. by rewrite ends_with_marker_plain.
      * right. by rewrite ends_with_marker_plain.
Qed.

(** ** Arguments *)

Lemma scan_argv_grows toks v x : x ∈ s_argv v → x ∈ s_argv (scan toks v).2.
Proof.
  remember (length toks) as n eqn:Hn. revert toks v Hn.
  induction (lt_wf n) as [n _ IH]. intros toks v -> Hx.
  destruct (scan_cases toks)
    as [->|[(op & -> & Hop)|[(op & f & rest & -> & Hop)|[->|(t & rest & -> & Hplain & Hmarker)]]]].
  - done.
  - by rewrite scan_redirect_last.
  - rewrite scan_redirect by done. eapply IH; [|done|]; [cbn; lia|].
    unfold take_filename. by destruct (String.eqb op "<").
  - done.
  - rewrite scan_plain by done. eapply IH; [|done|]; [cbn; lia|].
    cbn. apply elem_of_app. by left.
Qed.

(** A token after a prefix that awaits no filename, with something
    after it, is read where it stands. *)
Lemma scan_prefix pre rest v :
  awaits_filename pre = false → rest ≠ [] →
  ∃ v', scan (pre ++ rest) v = scan rest v'
        ∧ s_background v' = s_background v
        ∧ (∀ x, x ∈ s_argv v → x ∈ s_argv v')
        ∧ (∀ op, is_redirect op = true → op ∉ pre → target_of op v' = target_of op v).
Proof.
  remember (length pre) as n eqn:Hn. revert pre v Hn.
  induction (lt_wf n) as [n _ IH]. intros pre v -> Hpre Hrest.
  destruct (scan_cases pre)
    as [->|[(op & -> & Hop)|[(op & f & pre' & -> & Hop)|[->|(t & pre' & -> & Hplain & Hmarker)]]]].
  - exists v. eauto.
  - cbn in Hpre. by rewrite Hop in Hpre.
  - cbn in Hpre. rewrite Hop in Hpre. cbn [app]. rewrite scan_redirect by done.
    destruct (IH (length pre') ltac:(cbn; lia) pre' (take_filename op f v) eq_refl
                Hpre Hrest) as (v' & Hscan & Hbg & Hargv & Htarget).
    exists v'. split; [done|]. split.
    { rewrite Hbg. unfold take_filename. by destruct (String.eqb op "<"). }
    split.
    { intros x Hx. apply Hargv. unfold take_filename. by destruct (String.eqb op "<"). }
    intros op' Hop' Hnotin. apply not_elem_of_cons in Hnotin as [Hne Hnotin].
    apply not_elem_of_cons in Hnotin as [_ Hnotin].
    rewrite Htarget by done. unfold target_of, take_filename.
    destruct (is_redirect_cases op Hop) as [-> | ->],
             (is_redirect_cases op' Hop') as [-> | ->]; done.
  - cbn [app]. rewrite scan_plain; [|done|by intros _; destruct rest].
    exists (push_argument "&" v). split; [done|]. split; [done|]. split; [|done].
    intros x Hx. cbn. apply elem_of_app. by left.
  - cbn in Hpre. rewrite Hplain in Hpre. cbn [app].
    rewrite scan_plain; [|done|by intros _; destruct pre', rest].
    destruct (IH (length pre') ltac:(cbn; lia) pre' (push_argument t v) eq_refl
                Hpre Hrest) as (v' & Hscan & Hbg & Hargv & Htarget).
    exists v'. split; [done|]. split; [done|]. split.
    { intros x Hx. apply Hargv. cbn. apply elem_of_app. by left. }
    intros op' Hop' Hnotin. apply not_elem_of_cons in Hnotin as [_ Hnotin].
    by rewrite Htarget.
Qed.

(** ** Redirection targets *)

Lemma target_of_take_filename op f v : target_of op (take_filename op f v) = Some f.
Proof. unfold target_of, take_filename. by destruct (String.eqb op "<"). Qed.

Lemma target_of_take_other op op' f v :
  is_redirect op = true → is_redirect op' = true → op ≠ op' →
  target_of op (take_filename op' f v) = target_of op v.
Proof.
  intros [-> | ->]%is_redirect_cases [-> | ->]%is_redirect_cases Hne;
    first [ done | by destruct Hne ].
Qed.


Lemma filename_after_redirect op f t x rest :
  is_redirect t = true → filename_after op f rest → filename_after op f (t :: x :: rest).
Proof.
  intros Ht (pre & post & -> & Hpre). exists (t :: x :: pre), post.
  split; [done|]. cbn. by rewrite Ht.
Qed.

Lemma filename_after_plain op f t rest :
  is_redirect t = false → filename_after op f rest → filename_after op f (t :: rest).
Proof.
  intros Ht (pre & post & -> & Hpre). exists (t :: pre), post.
  split; [done|]. cbn. by rewrite Ht.
Qed.

(** A target that [scan] sets is the token after the operator. *)
Lemma scan_target_source op toks v f :
  is_redirect op = true →
  target_of op (scan toks v).2 = Some f →
  target_of op v = Some f ∨ filename_after op f toks.
Proof.
  intros Hop. remember (length toks) as n eqn:Hn. revert toks v Hn.
  induction (lt_wf n) as [n _ IH]. intros toks v -> Htarget.
  destruct (scan_cases toks)
    as [->|[(op' & -> & Hop')|[(op' & f' & rest & -> & Hop')|[->|(t & rest & -> & Hplain & Hmarker)]]]].
  - by left.
  - rewrite scan_redirect_last in Htarget by done. by left.
  - rewrite scan_redirect in Htarget by done.
    destruct (IH (length rest) ltac:(cbn; lia) rest _ eq_refl Htarget) as [Hhere|Hlater].
    + destruct (decide (op = op')) as [<-|Hne].
      * rewrite target_of_take_filename in Hhere. injection Hhere as ->.
        right. by exists [], rest.
      * left. by rewrite target_of_take_other in Hhere.
    + right. by apply filename_after_redirect.
  - by left.
  - rewrite scan_plain in Htarget by done.
    destruct (IH (length rest) ltac:(cbn; lia) rest _ eq_refl Htarget) as [Hhere|Hlater].
    + left. revert Hhere. unfold target_of. by destruct (String.eqb op "<").
    + right. by apply filename_after_plain.
Qed.

(** ** [parse_command] on a line whose tokens it scans *)

Lemma parse_command_scanned line w :
  no_oom (mem w) → tokens_scanned line →
  ∃ code cmd w',
    parse_command line w = ((code, cmd), w')
    ∧ view_of cmd = (scan (tokens_of line) (view_of init_command)).2
    ∧ match (scan (tokens_of line) (view_of init_command)).1 with
      | Some m => code = -1 ∧ trace w' = trace w ++ [m]
      | None => (code = 0 ↔ argv cmd ≠ []) ∧ (code = 0 ∨ code = -1) ∧ trace w' = trace w
      end.
Proof.
  intros Hoom (Hline & Hlen & Htoks).
  destruct (parse_command_run line w Hoom) as (code & cmd & w' & Hrun & Hspec).
  exists code, cmd, w'. split; [done|].
  rewrite Hline in Hspec.
  replace (MAX_LINE_LENGTH <? String.length line)%nat with false in Hspec
    by (symmetry; apply Nat.ltb_ge; lia).
  replace (MAX_ARGS <? length (tokens_of line))%nat with false in Hspec
    by (symmetry; apply Nat.ltb_ge; lia).
  destruct (scan (tokens_of line) (view_of init_command)) as [[m|] v]; cbn [fst snd].
  - naive_solver.
  - destruct Hspec as (-> & Hview & Htrace). split; [done|].
    replace (argv cmd) with (s_argv v) by by rewrite <- Hview.
    destruct (s_argv v); (split; [split; [done|naive_solver]|]); (split; [|done]); auto.
Qed.

Lemma parse_command_unscanned line w :
  no_oom (mem w) → ¬ tokens_scanned line →
  (parse_command line w).1.2 = init_command.
Proof.
  intros Hoom Hno.
  destruct (parse_command_run line w Hoom) as (code & cmd & w' & Hrun & Hspec).
  rewrite Hrun. cbn. unfold tokens_scanned in Hno.
  destruct (is_blank_or_comment line); [naive_solver|].
  destruct (Nat.ltb_spec MAX_LINE_LENGTH (String.length line)); [naive_solver|].
  destruct (Nat.ltb_spec MAX_ARGS (length (tokens_of line))); [naive_solver|].
  destruct Hno. done.
Qed.

Lemma tokens_scanned_dec line : tokens_scanned line ∨ ¬ tokens_scanned line.
Proof.
  unfold tokens_scanned.
  destruct (is_blank_or_comment line); [right; naive_solver|].
  destruct (le_dec (String.length line) MAX_LINE_LENGTH); [|right; naive_solver].
  destruct (le_dec (length (tokens_of line)) MAX_ARGS); [|right; naive_solver].
  by left.
Qed.

(** ** C4: the background marker *)

(** C4, amended.  For every input line (and an allocator that refuses
    no request), the parser sets the background flag if and only if it
    gets to scan the tokens of the line (the line is not blank, not a
    comment and within the limits of the tokenizer), ["&"] is the final
    token, and that token is not taken as the filename of a redirection
    operator before it; otherwise the flag is 0.  An ["&"] that is not
    the final token and is not taken as a filename is stored as an
    argument. *)
Theorem background_flag line w :
  no_oom (mem w) →
  let cmd := (parse_command line w).1.2 in
  (background cmd = 1
   ↔ tokens_scanned line
     ∧ ∃ pre, tokens_of line = pre ++ ["&"] ∧ awaits_filename pre = false)
  ∧ (background cmd = 1 ∨ background cmd = 0)
  ∧ (tokens_scanned line →
     ∀ pre post,
       tokens_of line = pre ++ "&" :: post → post ≠ [] →
       awaits_filename pre = false →
       "&" ∈ argv cmd).
Proof.
  intros Hoom cmd. subst cmd. destruct (tokens_scanned_dec line) as [Hscanned|Hno].
  - destruct (parse_command_scanned line w Hoom Hscanned)
      as (code & cmd & w' & Hrun & Hview & _).
    rewrite Hrun. cbn [fst snd].
    assert (Hbg : background cmd
              = s_background (scan (tokens_of line) (view_of init_command)).2)
      by by rewrite <- Hview.
    assert (Hargv : argv cmd = s_argv (scan (tokens_of line) (view_of init_command)).2)
      by by rewrite <- Hview.
    fold (ends_with_marker (tokens_of line)).
    destruct (scan_background (tokens_of line) (view_of init_command))
      as [[Hend Hflag]|[Hend Hflag]]; rewrite <- Hbg in Hflag.
    + split; [by rewrite Hflag|]. split; [by left|].
      intros _ pre post Htoks Hpost Hpre. rewrite Hargv, Htoks.
      destruct (scan_prefix pre ("&" :: post) (view_of init_command) Hpre ltac:(done))
        as (v' & -> & _).
      rewrite scan_plain by done. apply scan_argv_grows. cbn. set_solver.
    + split; [rewrite Hflag; cbn; naive_solver|]. split; [by right|].
      intros _ pre post Htoks Hpost Hpre. rewrite Hargv, Htoks.
      destruct (scan_prefix pre ("&" :: post) (view_of init_command) Hpre ltac:(done))
        as (v' & -> & _).
      rewrite scan_plain by done. apply scan_argv_grows. cbn. set_solver.
  - rewrite parse_command_unscanned by done.
    cbn. split; [naive_solver|]. split; [by right|done].
Qed.

Lemma background_flag_witness :
  let line := "sleep 10 &" +:+ NL in
  let w := initial_world in
  let cmd := (parse_command line w).1.2 in
  (background cmd = 1
   ↔ tokens_scanned line
     ∧ ∃ pre, tokens_of line = pre ++ ["&"] ∧ awaits_filename pre = false)
  ∧ (background cmd = 1 ∨ background cmd = 0)
  ∧ (tokens_scanned line →
     ∀ pre post,
       tokens_of line = pre ++ "&" :: post → post ≠ [] →
       awaits_filename pre = false →
       "&" ∈ argv cmd).
Proof.
  intros line w. apply (background_flag line w). intros k. reflexivity.
Defined.

(** The lines of the claim and of the self-test of the source. *)
Example background_flag_examples :
  (let '((code, cmd), _) := parse_command "cmd & extra" initial_world in
   code = 0 ∧ background cmd = 0 ∧ argv cmd = ["cmd"; "&"; "extra"])
  ∧ (let '((code, cmd), _) := parse_command "sleep 10 &" initial_world in
     code = 0 ∧ background cmd = 1 ∧ argv cmd = ["sleep"; "10"])
  ∧ (let '((code, cmd), _) :=
       parse_command "cat < input.txt > output.txt &" initial_world in
     code = 0 ∧ background cmd = 1 ∧ argv cmd = ["cat"]
     ∧ text <$> input_file cmd = Some "input.txt"
     ∧ text <$> output_file cmd = Some "output.txt").
Proof. vm_compute. repeat split. Qed.

(** C4 as stated fails on [cmd < &]: ["&"] is the final token of the
    line, but the operator before it takes it as its filename and the
    flag stays 0. *)
Lemma marker_taken_as_filename :
  let line := "cmd < &" in
  tokens_of line = ["cmd"; "<"; "&"]
  ∧ last (tokens_of line) = Some "&"
  ∧ let '((code, cmd), _) := parse_command line initial_world in
    code = 0 ∧ background cmd = 0 ∧ text <$> input_file cmd = Some "&".
Proof. vm_compute. repeat split. Qed.

(** ** C5: redirection operators *)

(** C5, amended.  On a line whose tokens the parser scans (and with an
    allocator that refuses no request): a redirection target is always
    the token that follows a token equal to ["<"] (for input) or [">"]
    (for output); a line [c op f] of a program name, an operator and a
    third token parses to the program [c] with [f] as the target of
    [op]; a line [c t] in which [t] is not exactly an operator or the
    marker (such as ["<infile"]) parses to the program [c] with the
    argument [t] and no redirection; and a line that ends in an
    operator which is not itself taken as the filename of an operator
    before it is a parse failure, reported as a missing filename. *)
Theorem redirection_operators line w :
  no_oom (mem w) → tokens_scanned line →
  let '((code, cmd), w') := parse_command line w in
  let toks := tokens_of line in
  (∀ op f,
     is_redirect op = true → redirect_of op cmd = Some f →
     ∃ pre post, toks = pre ++ op :: f :: post ∧ awaits_filename pre = false)
  ∧ (∀ c op f,
       toks = [c; op; f] → is_redirect c = false → c ≠ "&" →
       is_redirect op = true →
       code = 0 ∧ argv cmd = [c] ∧ redirect_of op cmd = Some f
       ∧ background cmd = 0)
  ∧ (∀ c t,
       toks = [c; t] → is_redirect c = false → c ≠ "&" →
       is_redirect t = false → t ≠ "&" →
       code = 0 ∧ argv cmd = [c; t]
       ∧ input_file cmd = None ∧ output_file cmd = None)
  ∧ (∀ pre op,
       toks = pre ++ [op] → is_redirect op = true →
       awaits_filename pre = false →
       code = -1 ∧ trace w' = trace w ++ [missing_filename op]).
Proof.
  intros Hoom Hscanned.
  destruct (parse_command_scanned line w Hoom Hscanned)
    as (code & cmd & w' & -> & Hview & Hend).
  cbn zeta.
  assert (Htarget : ∀ op, redirect_of op cmd
            = target_of op (scan (tokens_of line) (view_of init_command)).2).
  { intros op. rewrite <- Hview. unfold redirect_of, target_of.
    by destruct (String.eqb op "<"). }
  split; [|split; [|split]].
  - intros op f Hop Hf. rewrite Htarget in Hf.
    destruct (scan_target_source op _ _ f Hop Hf) as [Hinit|Hafter]; [|done].
    unfold target_of in Hinit. by destruct (String.eqb op "<").
  - intros c op f Htoks Hc Hmarker Hop. rewrite Htarget.
    rewrite Htoks in *.
    rewrite scan_plain, scan_redirect in * by done.
    cbn [scan fst snd] in *. destruct Hend as (Hcode & _ & _).
    assert (Hargv : argv cmd = [c]).
    { apply (f_equal s_argv) in Hview. revert Hview. unfold take_filename.
      by destruct (String.eqb op "<"). }
    split; [apply Hcode; by rewrite Hargv|]. split; [done|].
    split; [apply target_of_take_filename|].
    apply (f_equal s_background) in Hview. revert Hview.
    unfold take_filename. by destruct (String.eqb op "<").
  - intros c t Htoks Hc Hcm Ht Htm. rewrite Htoks in *.
    rewrite !scan_plain in * by done.
    cbn [scan fst snd] in *. destruct Hend as (Hcode & _ & _).
    assert (Hargv : argv cmd = [c; t]) by (by apply (f_equal s_argv) in Hview).
    split; [apply Hcode; by rewrite Hargv|]. split; [done|].
    pose proof (f_equal s_input Hview) as Hin. pose proof (f_equal s_output Hview) as Hout.
    cbn in Hin, Hout. split.
    + by destruct (input_file cmd).
    + by destruct (output_file cmd).
  - intros pre op Htoks Hop Hpre. rewrite Htoks in Hend.
    destruct (scan_prefix pre [op] (view_of init_command) Hpre ltac:(done))
      as (v' & Hscan & _).
    rewrite Hscan, scan_redirect_last in Hend by done. done.
Qed.

Lemma redirection_operators_witness :
  let line := "cmd < infile" in
  let w := initial_world in
  let '((code, cmd), w') := parse_command line w in
  let toks := tokens_of line in
  (∀ op f,
     is_redirect op = true → redirect_of op cmd = Some f →
     ∃ pre post, toks = pre ++ op :: f :: post ∧ awaits_filename pre = false)
  ∧ (∀ c op f,
       toks = [c; op; f] → is_redirect c = false → c ≠ "&" →
       is_redirect op = true →
       code = 0 ∧ argv cmd = [c] ∧ redirect_of op cmd = Some f
       ∧ background cmd = 0)
  ∧ (∀ c t,
       toks = [c; t] → is_redirect c = false → c ≠ "&" →
       is_redirect t = false → t ≠ "&" →
       code = 0 ∧ argv cmd = [c; t]
       ∧ input_file cmd = None ∧ output_file cmd = None)
  ∧ (∀ pre op,
       toks = pre ++ [op] → is_redirect op = true →
       awaits_filename pre = false →
       code = -1 ∧ trace w' = trace w ++ [missing_filename op]).
Proof.
  intros line w. apply (redirection_operators line w).
  - intros k. reflexivity.
  - repeat split; vm_compute; lia.
Defined.

(** The lines of the claim and of the self-test of the source. *)
Example redirection_examples :
  (let '((code, cmd), _) := parse_command "cmd < infile" initial_world in
   code = 0 ∧ argv cmd = ["cmd"] ∧ text <$> input_file cmd = Some "infile")
  ∧ (let '((code, cmd), _) := parse_command "cmd <infile" initial_world in
     code = 0 ∧ argv cmd = ["cmd"; "<infile"] ∧ input_file cmd = None)
  ∧ (let '((code, _), w') := parse_command "cat <" initial_world in
     code = -1 ∧ trace w' = [missing_input])
  ∧ (let '((code, _), w') := parse_command "echo hello >" initial_world in
     code = -1 ∧ trace w' = [missing_output]).
Proof. vm_compute. repeat split. Qed.

(** C5 as stated fails on [cmd < <]: the last token of the line is a
    standalone ["<"] with no token after it, but the operator before it
    takes it as its filename and the line parses. *)
Lemma operator_taken_as_filename :
  let line := "cmd < <" in
  tokens_of line = ["cmd"; "<"; "<"]
  ∧ last (tokens_of line) = Some "<"
  ∧ let '((code, cmd), w') := parse_command line initial_world in
    code = 0 ∧ text <$> input_file cmd = Some "<" ∧ trace w' = [].
Proof. vm_compute. repeat split. Qed.

(** ** C10: an operator takes the next token *)








(** The line of the claim. *)
Example operator_takes_marker :
  let '((code, cmd), _) := parse_command "cmd < &" initial_world in
  code = 0 ∧ text <$> input_file cmd = Some "&" ∧ background cmd = 0
  ∧ argv cmd = ["cmd"].
Proof. vm_compute. repeat split. Qed.

(** The filename is read as nothing else: an operator in its place
    takes no filename of its own, and a word in its place is no
    argument. *)
Example filename_is_read_once :
  (let '((code, cmd), _) := parse_command "cmd < > x" initial_world in
   code = 0 ∧ text <$> input_file cmd = Some ">" ∧ output_file cmd = None
   ∧ argv cmd = ["cmd"; "x"])
  ∧ (let '((code, cmd), _) := parse_command "cmd < in x" initial_world in
     code = 0 ∧ text <$> input_file cmd = Some "in" ∧ argv cmd = ["cmd"; "x"]).
Proof. vm_compute. repeat split. Qed.


(** * Further properties of the code *)

(** ** The exit clean-up *)

Lemma cleanup_range_run k m w :
  for_each (seq k m) cleanup_slot w =
    (tt, World (shell w) (mem w)
               (trace w ++ cleanup_events (take m (drop k (background_processes (shell w)))))).
Proof.
  revert k w. induction m as [|m IH]; intros k w; cbn [seq for_each].
  { cbn. rewrite take_0. cbn. rewrite app_nil_r. by destruct w. }
  rewrite bind_run, IH, cleanup_slot_shell. rewrite cleanup_slot_run.
  destruct (background_processes (shell w) !! k) as [job|] eqn:Hjob.
  - rewrite (drop_S _ job k Hjob). cbn [take cleanup_events flat_map].
    fold (cleanup_events (take m (drop (S k) (background_processes (shell w))))).
    destruct (truthy (active job)); cbn [snd mem trace shell]; [|done].
    by rewrite <- app_assoc.
  - apply lookup_ge_None in Hjob.
    rewrite !drop_ge by lia. rewrite !take_nil. cbn. by rewrite app_nil_r.
Qed.

Lemma cleanup_events_kill jobs p sig :
  SysKill p sig ∈ cleanup_events jobs
  ↔ (sig = SIGTERM ∨ sig = SIGKILL)
    ∧ ∃ job, job ∈ jobs ∧ truthy (active job) = true ∧ pid job = p.
Proof.
  unfold cleanup_events. rewrite list_elem_of_In, in_flat_map. split.
  - intros (job & Hjob%list_elem_of_In & Hin).
    destruct (truthy (active job)) eqn:Hactive; [|by destruct Hin].
    unfold termination_of in Hin. cbn in Hin.
    destruct Hin as [Heq|[Heq|[Heq|[Heq|[]]]]]; try discriminate Heq;
      injection Heq as <- <-; eauto 10.
  - intros (Hsig & job & Hjob%list_elem_of_In & Hactive & <-).
    exists job. split; [done|]. rewrite Hactive. unfold termination_of. cbn.
    destruct Hsig as [-> | ->]; auto.
Qed.

(** X1.  The exit clean-up goes through the registered jobs in slot
    order; for every active one it prints a notice and sends SIGTERM,
    sleeps 100 ms and sends SIGKILL; it does nothing for an inactive
    one, and it changes neither the statics (the jobs stay marked as
    they were) nor the heap.  So it signals exactly the pids of the
    active registered jobs. *)
Theorem cleanup_terminates_active_jobs w :
  cleanup_all_background_processes w =
    (tt, World (shell w) (mem w) (trace w ++ cleanup_events (registered (shell w))))
  ∧ ∀ p sig,
      SysKill p sig ∈ cleanup_events (registered (shell w))
      ↔ (sig = SIGTERM ∨ sig = SIGKILL)
        ∧ ∃ job, job ∈ registered (shell w) ∧ truthy (active job) = true
                 ∧ pid job = p.
Proof.
  split; [|intros p sig; apply cleanup_events_kill].
  unfold cleanup_all_background_processes, registered. rewrite bind_run. cbn [get_globals fst snd].
  rewrite cleanup_range_run. by rewrite drop_0.
Qed.

(** ** Leaving the shell *)

Section Leaving.
Context `{WaitStatus}.

Lemma cleanup_run w :
  cleanup_all_background_processes w =
    (tt, World (shell w) (mem w) (trace w ++ cleanup_events (registered (shell w)))).
Proof.
  unfold cleanup_all_background_processes, registered. rewrite bind_run. cbn [get_globals fst snd].
  rewrite cleanup_range_run. by rewrite drop_0.
Qed.

Lemma exit_cleans_up_first_run cmd os_home os_chdir w :
  get_builtin_type (text <$> command cmd) = BUILTIN_EXIT →
  execute_builtin cmd os_home os_chdir w =
    (Exits 0,
     World (shell w) (mem w)
           (trace w ++ Printf ("Exiting shell..." +:+ NL) []
              :: cleanup_events (registered (shell w)) ++ [SysExit 0])).
Proof.
  unfold execute_builtin. destruct (command cmd) as [name|]; [|done].
  cbn [fmap option_fmap option_map]. intros ->.
  rewrite !bind_run. unfold printf. cbn [emit fst snd].
  rewrite cleanup_run. cbn. by rewrite <- !app_assoc.
Qed.

(** X2.  End of input (or a read error) at the prompt: after the job
    check and the prompt, the loop is left, the clean-up runs over the
    registered jobs as the job check left them, and [main] returns 0;
    the turns that would follow never happen. *)
Theorem end_of_input_cleans_up os rest status w :
  os_fgets os = EndOfFile ∨ os_fgets os = InputError →
  let w1 := (check_background_processes (os_waits os) w).2 in
  main_loop (Turn os :: rest) status w =
    (Exited 0,
     World (shell w1) (mem w1)
           (trace w1
              ++ [Printf ": " [];
                  Printf (NL +:+ match os_fgets os with
                                  | EndOfFile => "EOF detected - exiting shell"
                                  | _ => "Input error - exiting shell"
                                  end +:+ NL) []]
              ++ cleanup_events (registered (shell w1))
              ++ [Printf ("smallsh shell exiting..." +:+ NL) []])).
Proof.
  intros Hend w1. cbn [main_loop main_step]. unfold main_iteration.
  rewrite !bind_run. fold w1. unfold printf. cbn [emit fst snd].
  destruct (os_fgets os) as [line| |]; [by destruct Hend| |].
  all: rewrite !bind_run; cbn [emit fst snd M_ret mret];
    rewrite !bind_run, cleanup_run; cbn; by rewrite <- !app_assoc.
Qed.

End Leaving.

Lemma end_of_input_cleans_up_witness :
  let os := OsReplies (λ _, (0, 0)) EndOfFile 0 (0, 0) None 0 in
  let rest := [types "ls" 4002 (4002, 0)] in
  let w := after_spawns 2 4000 in
  let w1 := (check_background_processes (os_waits os) w).2 in
  main_loop (Turn os :: rest) 0 w =
    (Exited 0,
     World (shell w1) (mem w1)
           (trace w1
              ++ [Printf ": " [];
                  Printf (NL +:+ match os_fgets os with
                                  | EndOfFile => "EOF detected - exiting shell"
                                  | _ => "Input error - exiting shell"
                                  end +:+ NL) []]
              ++ cleanup_events (registered (shell w1))
              ++ [Printf ("smallsh shell exiting..." +:+ NL) []])).
Proof.
  intros os rest w. apply (end_of_input_cleans_up os rest 0 w). by left.
Defined.

(** ** The two modes of the shell *)

Section Modes.
Context `{WaitStatus}.

(** A command that is run in the foreground never touches the
    registry, whatever [fork] and [waitpid] answer. *)
Lemma foreground_keeps_registry cmd last_status fg child_pid os_wait w :
  truthy (background cmd) && negb (truthy fg) = false →
  let w' := (execute_external_command cmd last_status fg child_pid os_wait w).2 in
  bg_process_count (shell w') = bg_process_count (shell w)
  ∧ background_processes (shell w') = background_processes (shell w)
  ∧ foreground_only_mode (shell w') = foreground_only_mode (shell w).
Proof.
  intros Hbg. unfold execute_external_command.
  destruct (command cmd) as [name|]; [|done]. run.
  destruct (child_pid =? -1); run; [done|].
  destruct (child_pid =? 0); run; [done|].
  rewrite truthy_c_and, truthy_c_not, Hbg. run.
  destruct os_wait as [wait_result status].
  destruct (wait_result =? -1); run; [done|].
  destruct (WIFEXITED status); run; [done|].
  by destruct (WIFSIGNALED status); run.
Qed.

Lemma sigtstp_handler_shell w :
  shell (sigtstp_handler w).2 =
    set_foreground_only_mode (if truthy (foreground_only_mode (shell w)) then 0 else 1)
                             (shell w).
Proof.
  unfold sigtstp_handler. run. by destruct (truthy (foreground_only_mode (shell w))).
Qed.

(** X3.  The stop signal switches the [&] marker off and on.  In a
    shell in normal mode, a command with the marker whose [fork]
    succeeds is started in the background.  After one delivery of
    SIGTSTP the same command is waited for like a foreground command
    and the registry stays as it was.  After a second delivery the
    statics are again what they were at the start, and the command is
    started in the background again. *)
Theorem stop_signal_switches_marker cmd last_status child_pid os_wait w :
  foreground_only_mode (shell w) = 0 →
  is_Some (command cmd) → truthy (background cmd) = true →
  child_pid ≠ -1 → child_pid ≠ 0 →
  let w1 := (sigtstp_handler w).2 in
  let w2 := (sigtstp_handler w1).2 in
  let run v :=
    execute_external_command cmd last_status (foreground_only_mode (shell v))
                             child_pid os_wait v in
  trace (run w).2 = trace w ++ [SysFork; background_pid_is child_pid]
  ∧ (∃ rest, trace (run w1).2 = trace w1 ++ SysFork :: SysWaitpid child_pid 0 :: rest)
  ∧ bg_process_count (shell (run w1).2) = bg_process_count (shell w)
  ∧ background_processes (shell (run w1).2) = background_processes (shell w)
  ∧ shell w2 = shell w
  ∧ trace (run w2).2 = trace w2 ++ [SysFork; background_pid_is child_pid].
Proof.
  intros Hmode Hcmd Hbg Hfail Hchild w1 w2 run.
  assert (Hw1 : shell w1 = set_foreground_only_mode 1 (shell w)).
  { unfold w1. by rewrite sigtstp_handler_shell, Hmode. }
  assert (Hw2 : shell w2 = shell w).
  { unfold w2. rewrite sigtstp_handler_shell, Hw1. cbn. by destruct (shell w); cbn in *; subst. }
  split; [|split; [|split; [|split; [|split]]]].
  - unfold run. rewrite execute_background; [done..|]. by rewrite Hbg, Hmode.
  - unfold run. apply execute_foreground_waits; [done..|]. by rewrite Hbg, Hw1.
  - unfold run.
    destruct (foreground_keeps_registry cmd last_status (foreground_only_mode (shell w1))
                child_pid os_wait w1) as (-> & _); [by rewrite Hbg, Hw1|].
    by rewrite Hw1.
  - unfold run.
    destruct (foreground_keeps_registry cmd last_status (foreground_only_mode (shell w1))
                child_pid os_wait w1) as (_ & -> & _); [by rewrite Hbg, Hw1|].
    by rewrite Hw1.
  - done.
  - unfold run. rewrite execute_background; [done..|]. by rewrite Hbg, Hw2, Hmode.
Qed.

(** The job check writes none of the statics that [status] and the
    executor read. *)
Lemma check_slot_statics reply i w :
  let g' := shell (check_slot reply i w).2 in
  last_exit_status g' = last_exit_status (shell w)
  ∧ last_signal g' = last_signal (shell w)
  ∧ foreground_only_mode g' = foreground_only_mode (shell w).
Proof.
  destruct reply as [result status]. rewrite check_slot_run.
  destruct (background_processes (shell w) !! i) as [job|]; [|done].
  destruct (truthy (active job)); [|done].
  by destruct ((0 <? result) || (result =? -1)).
Qed.

Lemma check_jobs_statics os indices w :
  let g' := shell (check_jobs os indices w).2 in
  last_exit_status g' = last_exit_status (shell w)
  ∧ last_signal g' = last_signal (shell w)
  ∧ foreground_only_mode g' = foreground_only_mode (shell w).
Proof.
  unfold check_jobs. revert w.
  induction indices as [|i rest IH]; intros w; cbn [for_each]; [done|].
  rewrite bind_run. destruct (IH (check_slot (os i) i w).2) as (-> & -> & ->).
  apply check_slot_statics.
Qed.

(** X4.  The completion of background jobs never changes what
    [status] reports: whatever the job check learns from [waitpid], it
    leaves [last_exit_status], [last_signal] and the mode flag as they
    were, and [status] prints after it the very line it would have
    printed before it. *)
Theorem job_check_keeps_status os_waits cmd os_home os_chdir w :
  get_builtin_type (text <$> command cmd) = BUILTIN_STATUS →
  let w1 := (check_background_processes os_waits w).2 in
  last_exit_status (shell w1) = last_exit_status (shell w)
  ∧ last_signal (shell w1) = last_signal (shell w)
  ∧ foreground_only_mode (shell w1) = foreground_only_mode (shell w)
  ∧ ∃ line,
      trace (execute_builtin cmd os_home os_chdir w).2 = trace w ++ [line]
      ∧ trace (execute_builtin cmd os_home os_chdir w1).2 = trace w1 ++ [line].
Proof.
  intros Hstatus w1.
  assert (Hsame : last_exit_status (shell w1) = last_exit_status (shell w)
                  ∧ last_signal (shell w1) = last_signal (shell w)
                  ∧ foreground_only_mode (shell w1) = foreground_only_mode (shell w)).
  { unfold w1, check_background_processes. rewrite bind_run. apply check_jobs_statics. }
  destruct Hsame as (Hexit & Hsignal & Hmode). repeat (split; [done|]).
  rewrite !execute_status by done. cbn [trace snd]. rewrite Hexit, Hsignal. eauto.
Qed.

(** X5.  No built-in command starts a process or waits for one, and
    none changes the statics or the heap: whatever the command and
    whatever the system answers, [execute_builtin] leaves the statics
    and the heap as they were, and among its events there is no
    [fork] and no [waitpid]. *)
Theorem builtins_run_in_the_shell cmd os_home os_chdir w :
  let w' := (execute_builtin cmd os_home os_chdir w).2 in
  shell w' = shell w ∧ mem w' = mem w
  ∧ ∃ new, trace w' = trace w ++ new
           ∧ (SysFork ∉ new) ∧ (∀ p options, SysWaitpid p options ∉ new).
Proof.
  assert (Hclean : ∀ jobs, (SysFork ∉ cleanup_events jobs)
                           ∧ (∀ p options, SysWaitpid p options ∉ cleanup_events jobs)).
  { intros jobs. unfold cleanup_events.
    split; [|intros p options]; rewrite list_elem_of_In, in_flat_map;
      intros (job & _ & Hin); destruct (truthy (active job)); cbn in Hin;
      naive_solver. }
  cbn zeta. unfold execute_builtin. destruct (command cmd) as [name|].
  2: { run. repeat (split; [done|]). exists []. rewrite app_nil_r. set_solver. }
  destruct (get_builtin_type _).
  - rewrite !bind_run. unfold printf. cbn [emit fst snd].
    rewrite cleanup_run. cbn. repeat (split; [done|]).
    eexists. rewrite <- !app_assoc. split; [done|].
    destruct (Hclean (registered (shell w))) as [Hfork Hwait].
    cbn. split; [|intros p options]; rewrite ?elem_of_cons, !elem_of_app, ?elem_of_cons;
      [specialize Hfork|specialize (Hwait p options)]; set_solver.
  - destruct (argv_of (drop 1 (args cmd))) as [|dir [|]]; run.
    + destruct os_home; run; [destruct (negb (os_chdir =? 0)); run|].
      all: repeat (split; [done|]); eexists; rewrite <- ?app_assoc; (split; [done|]);
        cbn; set_solver.
    + destruct (negb (os_chdir =? 0)); run.
      all: repeat (split; [done|]); eexists; rewrite <- ?app_assoc; (split; [done|]);
        cbn; set_solver.
    + repeat (split; [done|]); eexists; rewrite <- ?app_assoc; (split; [done|]);
        cbn; set_solver.
  - run. destruct (negb (last_signal (shell w) =? 0)); run.
    all: repeat (split; [done|]); eexists; rewrite <- ?app_assoc; (split; [done|]);
        cbn; set_solver.
  - run. repeat (split; [done|]). exists []. rewrite app_nil_r. set_solver.
Qed.

End Modes.

Lemma stop_signal_switches_marker_witness :
  let cmd := parsed "sleep 100 &" in
  let w := initial_world in
  let w1 := (sigtstp_handler w).2 in
  let w2 := (sigtstp_handler w1).2 in
  let run v :=
    execute_external_command cmd 0 (foreground_only_mode (shell v)) 4000 (4000, 0) v in
  trace (run w).2 = trace w ++ [SysFork; background_pid_is 4000]
  ∧ (∃ rest, trace (run w1).2 = trace w1 ++ SysFork :: SysWaitpid 4000 0 :: rest)
  ∧ bg_process_count (shell (run w1).2) = bg_process_count (shell w)
  ∧ background_processes (shell (run w1).2) = background_processes (shell w)
  ∧ shell w2 = shell w
  ∧ trace (run w2).2 = trace w2 ++ [SysFork; background_pid_is 4000].
Proof.
  intros cmd w. apply (stop_signal_switches_marker cmd 0 4000 (4000, 0) w).
  - reflexivity.
  - by eexists.
  - reflexivity.
  - discriminate.
  - discriminate.
Defined.

Lemma job_check_keeps_status_witness :
  let cmd := parsed "status" in
  let os_waits := λ _ : nat, (4000, 256) in
  let w := after_spawns 1 4000 in
  let w1 := (check_background_processes os_waits w).2 in
  last_exit_status (shell w1) = last_exit_status (shell w)
  ∧ last_signal (shell w1) = last_signal (shell w)
  ∧ foreground_only_mode (shell w1) = foreground_only_mode (shell w)
  ∧ ∃ line,
      trace (execute_builtin cmd None 0 w).2 = trace w ++ [line]
      ∧ trace (execute_builtin cmd None 0 w1).2 = trace w1 ++ [line].
Proof.
  intros cmd os_waits w. apply (job_check_keeps_status os_waits cmd None 0 w).
  reflexivity.
Defined.

(** ** The tokens of a line *)

Lemma append_cons x (a b : string) : String x a +:+ b = String x (a +:+ b).
Proof. reflexivity. Qed.

Lemma append_nil_l (a : string) : EmptyString +:+ a = a.
Proof. reflexivity. Qed.

Lemma append_nil_r (a : string) : a +:+ EmptyString = a.
Proof. induction a as [|x a IH]; [done|]. by rewrite append_cons, IH. Qed.

Lemma string_app_assoc (a b c : string) : (a +:+ b) +:+ c = a +:+ (b +:+ c).
Proof. induction a as [|x a IH]; [done|]. by rewrite !append_cons, IH. Qed.

Lemma skip_delims_run lead s :
  only_delims lead = true → skip_delims (lead +:+ s) = skip_delims s.
Proof.
  induction lead as [|c lead IH]; [done|]. rewrite append_cons. cbn.
  intros [Hc Hlead]%andb_true_iff. rewrite Hc. auto.
Qed.

Lemma scan_token_word word c s :
  delimiter_free word = true → is_delim c = true →
  scan_token (word +:+ String c s) = (word, s).
Proof.
  intros Hword Hc. induction word as [|x word IH]; rewrite ?append_cons, ?append_nil_l; cbn.
  - by rewrite Hc.
  - cbn in Hword. apply andb_true_iff in Hword as [Hx Hword].
    apply negb_true_iff in Hx. rewrite Hx, IH by done. done.
Qed.

Lemma scan_token_last word :
  delimiter_free word = true → scan_token word = (word, EmptyString).
Proof.
  induction word as [|x word IH]; cbn; [done|].
  intros [Hx Hword]%andb_true_iff. apply negb_true_iff in Hx.
  by rewrite Hx, IH.
Qed.

Lemma strtok_word lead word c s :
  only_delims lead = true → is_word word = true → is_delim c = true →
  strtok (lead +:+ word +:+ String c s) = Some (word, s).
Proof.
  intros Hlead Hword Hc. unfold strtok. rewrite skip_delims_run by done.
  destruct word as [|x word]; [done|]. cbn in Hword.
  pose proof Hword as [Hx _]%andb_true_iff. apply negb_true_iff in Hx.
  rewrite append_cons. cbn [skip_delims]. rewrite Hx, <- append_cons.
  by rewrite scan_token_word.
Qed.

Lemma strtok_first word c s :
  is_word word = true → is_delim c = true →
  strtok (word +:+ String c s) = Some (word, s).
Proof. apply (strtok_word EmptyString). done. Qed.

Lemma tokens_of_delims s : only_delims s = true → tokens_of s = [].
Proof.
  intros Hs. rewrite tokens_of_unfold. unfold strtok.
  rewrite <- (append_nil_r s). by rewrite skip_delims_run.
Qed.

Lemma tokens_of_lead lead s :
  only_delims lead = true → tokens_of (lead +:+ s) = tokens_of s.
Proof.
  intros Hlead. rewrite (tokens_of_unfold (lead +:+ s)), (tokens_of_unfold s).
  unfold strtok. by rewrite skip_delims_run.
Qed.

(** What [strtok] delivers is a word. *)
Lemma scan_token_free s : delimiter_free (scan_token s).1 = true.
Proof.
  induction s as [|c s IH]; cbn; [done|].
  destruct (is_delim c) eqn:Hc; [done|].
  destruct (scan_token s) as [t r]. cbn in *. by rewrite Hc.
Qed.

Lemma skip_delims_head s c s' : skip_delims s = String c s' → is_delim c = false.
Proof.
  induction s as [|x s IH]; cbn; [done|].
  destruct (is_delim x) eqn:Hx; [done|]. by intros [= <- _].
Qed.

Lemma strtok_is_word s t r : strtok s = Some (t, r) → is_word t = true.
Proof.
  unfold strtok. destruct (skip_delims s) as [|c s'] eqn:Hskip; [done|].
  pose proof (skip_delims_head _ _ _ Hskip) as Hc.
  pose proof (scan_token_free (String c s')) as Hfree.
  intros [= Heq]. change (scan_token (String c s') = (t, r)) in Heq.
  rewrite Heq in Hfree. cbn [fst] in Hfree.
  cbn in Heq. rewrite Hc in Heq. destruct (scan_token s') as [t' r'].
  injection Heq as <- <-. done.
Qed.

Lemma tokens_of_unwords words :
  Forall (λ t, is_word t = true) words → tokens_of (unwords words +:+ NL) = words.
Proof.
  induction 1 as [|t rest Ht Hrest IH]; [done|].
  cbn [unwords]. destruct rest as [|t' rest].
  - rewrite tokens_of_unfold. unfold NL.
    rewrite strtok_first by done. by rewrite tokens_of_delims.
  - rewrite !string_app_assoc, (append_cons " " EmptyString), append_nil_l.
    rewrite tokens_of_unfold, strtok_first by done. by rewrite IH.
Qed.

(** X6.  Every token that the tokenizer finds in a line is a word: it
    is not empty and holds no space, tab or newline.  Writing the
    tokens of a line with single spaces between them and a newline at
    the end gives a line with the same tokens. *)
Theorem tokens_are_words line :
  Forall (λ t, is_word t = true) (tokens_of line)
  ∧ tokens_of (unwords (tokens_of line) +:+ NL) = tokens_of line.
Proof.
  assert (Hwords : ∀ s, Forall (λ t, is_word t = true) (tokens_of s)).
  { intros s. remember (String.length s) as n eqn:Hn. revert s Hn.
    induction (lt_wf n) as [n _ IH]. intros s ->.
    rewrite tokens_of_unfold. destruct (strtok s) as [[t r]|] eqn:Htok; [|done].
    constructor; [by eapply strtok_is_word|].
    eapply IH; [|done]. by eapply strtok_length. }
  split; [done|]. by apply tokens_of_unwords.
Qed.

(** X7.  A line made of words that are separated and followed by
    runs of spaces, tabs and newlines, after any such run in front,
    has exactly these words as its tokens, in order. *)
Theorem words_round_trip lead pieces :
  only_delims lead = true →
  Forall (λ p, is_word p.1 = true ∧ is_separator p.2 = true) pieces →
  tokens_of (lead +:+ spaced pieces) = pieces.*1.
Proof.
  intros Hlead Hpieces. revert lead Hlead.
  induction Hpieces as [|[word sep] rest [Hword Hsep] _ IH]; intros lead Hlead.
  - cbn. apply tokens_of_delims. by rewrite append_nil_r.
  - cbn [spaced fmap list_fmap fst]. cbn in Hword, Hsep.
    destruct sep as [|c sep]; [done|]. cbn in Hsep.
    apply andb_true_iff in Hsep as [Hc Hsep].
    rewrite tokens_of_unfold.
    rewrite (append_cons c sep).
    rewrite strtok_word by done. f_equal. by apply IH.
Qed.

Lemma words_round_trip_witness :
  tokens_of (("  " +:+ spaced [("ls", " "); ("-l", String "009" " "); ("&", NL)]))
  = ["ls"; "-l"; "&"].
Proof.
  apply (words_round_trip "  " [("ls", " "); ("-l", String "009" " "); ("&", NL)]).
  - reflexivity.
  - repeat constructor.
Defined.

(** The loop of the tokenizer with any allocator.  [tokens] are the
    copies made so far; either all copies are freed again, or the
    tokens of the rest of the line are added to them. *)
Lemma tokenize_loop_any room s tokens w :
  heap_ok (mem w) →
  NoDup (addr <$> tokens) →
  (∀ a, a ∈ addr <$> tokens → a ∈ live (mem w)) →
  let r := tokenize_loop room (strtok s) tokens w in
  let base := live (mem w) ∖ list_to_set (addr <$> tokens) in
  shell r.2 = shell w ∧ heap_ok (mem r.2)
  ∧ (r.1.1 = -1 → live (mem r.2) = base)
  ∧ (r.1.1 ≠ -1 →
     ∃ new, r.1.2 = tokens ++ new ∧ text <$> new = tokens_of s
            ∧ r.1.1 = Z.of_nat (length r.1.2)
            ∧ NoDup (addr <$> r.1.2)
            ∧ live (mem r.2) = list_to_set (addr <$> r.1.2) ∪ base
            ∧ (∀ a, a ∈ addr <$> new → a ∉ live (mem w))
            ∧ trace r.2 = trace w).
Proof.
  revert s tokens w. induction room as [|room IH]; intros s tokens w Hok Hdup Hlive.
  - rewrite (tokens_of_unfold s). destruct (strtok s) as [[tok rest]|].
    + cbn [tokenize_loop]. cbn zeta. rewrite !bind_run, free_each_run. cbn.
      split; [done|]. split; [intros a Ha; apply Hok; set_solver|].
      split; [done|]. done.
    + cbn. split; [done|]. split; [done|]. split; [lia|]. intros _.
      exists []. rewrite app_nil_r. repeat (split; [done|]).
      split; [|split; [intros a Ha; by apply elem_of_nil in Ha|done]].
      apply set_eq. intros a. rewrite elem_of_union, elem_of_difference, elem_of_list_to_set.
      specialize (Hlive a). destruct (decide (a ∈ addr <$> tokens)); tauto.
  - rewrite (tokens_of_unfold s). destruct (strtok s) as [[tok rest]|].
    2: { cbn. split; [done|]. split; [done|]. split; [lia|]. intros _.
         exists []. rewrite app_nil_r. repeat (split; [done|]).
         split; [|split; [intros a Ha; by apply elem_of_nil in Ha|done]].
         apply set_eq. intros a.
         rewrite elem_of_union, elem_of_difference, elem_of_list_to_set.
         specialize (Hlive a). destruct (decide (a ∈ addr <$> tokens)); tauto. }
    cbn [tokenize_loop]. cbn zeta. rewrite bind_run. unfold malloc. cbn zeta.
    destruct (out_of_memory (mem w) (next_block (mem w))) eqn:Hoom; cbn [fst snd].
    { rewrite !bind_run, free_each_run. cbn.
      split; [done|]. split; [intros a Ha; apply elem_of_difference in Ha as [Ha _];
                              specialize (Hok a Ha); cbn; lia|].
      split; [done|]. done. }
    set (a0 := next_block (mem w)).
    set (w1 := World _ _ _).
    assert (Hfresh : a0 ∉ live (mem w)).
    { intros Ha. specialize (Hok a0 Ha). unfold a0 in Hok. lia. }
    assert (Hnew : a0 ∉ addr <$> tokens) by (intros Ha; by apply Hfresh, Hlive).
    assert (Hok1 : heap_ok (mem w1)).
    { intros a Ha. cbn in Ha. apply elem_of_union in Ha as [Ha|Ha].
      - apply elem_of_singleton in Ha as ->. cbn. unfold a0. lia.
      - specialize (Hok a Ha). cbn. lia. }
    assert (Hdup1 : NoDup (addr <$> tokens ++ [CStr a0 tok])).
    { rewrite fmap_app. apply NoDup_app. split; [done|]. split.
      - intros a Ha Ha0. cbn in Ha0. apply list_elem_of_singleton in Ha0 as ->. done.
      - cbn. apply NoDup_singleton. }
    assert (Hlive1 : ∀ a, a ∈ addr <$> tokens ++ [CStr a0 tok] → a ∈ live (mem w1)).
    { intros a. rewrite fmap_app, elem_of_app. cbn.
      rewrite list_elem_of_singleton, elem_of_union, elem_of_singleton.
      intros [Ha| ->]; [right; by apply Hlive|by left]. }
    assert (Hbase : live (mem w1) ∖ list_to_set (addr <$> tokens ++ [CStr a0 tok])
                    = live (mem w) ∖ list_to_set (addr <$> tokens)).
    { cbn. rewrite fmap_app. cbn. apply set_eq. intros a.
      rewrite !elem_of_difference, elem_of_union, !elem_of_list_to_set, elem_of_app,
        elem_of_singleton, list_elem_of_singleton.
      split; [tauto|]. intros [Ha Hno]. split; [tauto|]. intros [?| ->]; tauto. }
    destruct (IH rest (tokens ++ [CStr a0 tok]) w1 Hok1 Hdup1 Hlive1)
      as (Hshell & Hok' & Hfail & Hsucc).
    split; [done|]. split; [done|]. rewrite Hbase in Hfail, Hsucc. split; [done|].
    intros Hn. destruct (Hsucc Hn) as (new & Htokens & Htext & Hcount & Hdup' & Hlive' & Hnew' & Htrace).
    exists (CStr a0 tok :: new). rewrite Htokens, <- app_assoc in *. split; [done|].
    split; [cbn; by rewrite Htext|]. split; [done|]. split; [done|]. split; [done|].
    split; [|done]. intros a [->|Ha]%elem_of_cons; [done|].
    intros Hin. apply (Hnew' a Ha). cbn. set_solver.
Qed.

(** X8.  The tokenizer with any allocator and any cap.  It never
    touches the statics.  When it fails (result -1: line too long, too
    many tokens, or a refused allocation), every copy it made has been
    freed: the live blocks are those of before the call.  Otherwise the
    result is the number of tokens, the array holds a copy of every
    token of the line, in order, each in a fresh block of its own, and
    nothing else was allocated or printed. *)
Theorem tokenizer_frees_on_failure line max_tokens w :
  heap_ok (mem w) →
  let '((n, tokens), w') := tokenize_line line max_tokens w in
  shell w' = shell w ∧ heap_ok (mem w')
  ∧ (n = -1 → live (mem w') = live (mem w))
  ∧ (n ≠ -1 →
     n = Z.of_nat (length tokens)
     ∧ text <$> tokens = tokens_of line
     ∧ NoDup (addr <$> tokens)
     ∧ live (mem w') = list_to_set (addr <$> tokens) ∪ live (mem w)
     ∧ (∀ a, a ∈ addr <$> tokens → a ∉ live (mem w))
     ∧ trace w' = trace w).
Proof.
  intros Hok. unfold tokenize_line.
  destruct (MAX_LINE_LENGTH <? String.length line)%nat.
  { cbn. split; [done|]. split; [done|]. split; [done|]. done. }
  pose proof (tokenize_loop_any max_tokens line [] w Hok) as Hloop.
  destruct (tokenize_loop max_tokens (strtok line) [] w) as [[n tokens] w'].
  cbn in Hloop. destruct Hloop as (Hshell & Hok' & Hfail & Hsucc).
  { apply NoDup_nil_2. }
  { intros a Ha. by apply elem_of_nil in Ha. }
  replace (live (mem w) ∖ ∅) with (live (mem w)) in * by set_solver.
  split; [done|]. split; [done|]. split; [done|].
  intros Hn. destruct (Hsucc Hn) as (new & -> & Htext & Hcount & Hdup & Hlive & Hnew & Htrace).
  done.
Qed.

Lemma tokenizer_frees_on_failure_witness :
  let w := World initial_globals (Heap ∅ 0%nat (λ k, Nat.eqb k 2)) [] in
  let '((n, tokens), w') := tokenize_line "ls -l /tmp" MAX_ARGS w in
  shell w' = shell w ∧ heap_ok (mem w')
  ∧ (n = -1 → live (mem w') = live (mem w))
  ∧ (n ≠ -1 →
     n = Z.of_nat (length tokens)
     ∧ text <$> tokens = tokens_of "ls -l /tmp"
     ∧ NoDup (addr <$> tokens)
     ∧ live (mem w') = list_to_set (addr <$> tokens) ∪ live (mem w)
     ∧ (∀ a, a ∈ addr <$> tokens → a ∉ live (mem w))
     ∧ trace w' = trace w).
Proof.
  intros w. apply (tokenizer_frees_on_failure "ls -l /tmp" MAX_ARGS w).
  intros a Ha. by apply not_elem_of_empty in Ha.
Defined.

(** ** The blocks of a command *)

Lemma omap_stored (stored : list cstr) k :
  omap id ((Some <$> stored) ++ replicate k None) = stored.
Proof.
  rewrite omap_app. replace (omap id (replicate k None)) with (@nil cstr).
  - rewrite app_nil_r. induction stored as [|c rest IH]; cbn; [done|]. by rewrite IH.
  - induction k as [|k IH]; cbn; [done|]. by rewrite <- IH.
Qed.

Lemma free_args_run (stored : list cstr) k w :
  free_args ((Some <$> stored) ++ replicate k None) w = free_each stored w.
Proof.
  revert w. induction stored as [|c rest IH]; intros w; cbn [fmap list_fmap app free_args free_each].
  - by destruct k.
  - by rewrite !bind_run, IH.
Qed.

(** [free_command] frees the blocks the structure points to. *)
Lemma free_command_run cmd ai w :
  args_ok cmd ai →
  free_command cmd w =
    (tt, World (shell w)
               (Heap (live (mem w) ∖ list_to_set (pointers cmd))
                     (next_block (mem w)) (out_of_memory (mem w)))
               (trace w)).
Proof.
  intros (_ & (stored & _ & Hargs) & _). unfold free_command, pointers.
  rewrite Hargs, omap_stored. rewrite !bind_run, free_args_run, free_each_run.
  destruct w as [g [l n o] tr].
  destruct (command cmd) as [c|], (input_file cmd) as [i|], (output_file cmd) as [o'|];
    cbn; unfold free; cbn; do 3 f_equal; rewrite ?fmap_app, ?list_to_set_app_L; cbn;
    set_solver.
Qed.

Lemma no_oom_malloc size w :
  no_oom (mem w) →
  malloc size w =
    (Some (next_block (mem w)),
     World (shell w)
           (Heap ({[next_block (mem w)]} ∪ live (mem w)) (S (next_block (mem w)))
                 (out_of_memory (mem w)))
           (trace w)).
Proof. intros Hoom. unfold malloc. cbn zeta. by rewrite Hoom. Qed.

Lemma heap_ok_malloc w :
  heap_ok (mem w) →
  heap_ok (Heap ({[next_block (mem w)]} ∪ live (mem w)) (S (next_block (mem w)))
                (out_of_memory (mem w)))
  ∧ next_block (mem w) ∉ live (mem w).
Proof.
  intros Hok. split.
  - intros a [->%elem_of_singleton|Ha]%elem_of_union; cbn; [lia|].
    specialize (Hok a Ha). lia.
  - intros Ha. specialize (Hok _ Ha). lia.
Qed.

(** Storing a token: the blocks of the structure afterwards. *)
Lemma store_argument_heap t tokens line_copy cmd ai w :
  no_oom (mem w) → heap_ok (mem w) → args_ok cmd ai → (ai < 512)%nat →
  ∃ cmd' w' new,
    store_argument t tokens line_copy cmd ai w = (inr cmd', w')
    ∧ pointers cmd' ≡ₚ new ++ pointers cmd
    ∧ NoDup new
    ∧ (∀ a, a ∈ new → a ∉ live (mem w))
    ∧ live (mem w') = list_to_set new ∪ live (mem w)
    ∧ heap_ok (mem w')
    ∧ input_file cmd' = input_file cmd ∧ output_file cmd' = output_file cmd.
Proof.
  intros Hoom Hok (_ & (stored & Hlen & Hargs) & Hcommand) Hai.
  destruct (heap_ok_malloc w Hok) as [Hok1 Hfresh1].
  unfold store_argument. destruct (Nat.eqb_spec ai 0) as [->|Hpos].
  - destruct stored; [|done]. cbn in Hargs.
    assert (Hnone : command cmd = None).
    { unfold argv in Hcommand. rewrite Hargs in Hcommand. cbn in Hcommand.
      by destruct (command cmd). }
    rewrite bind_run, no_oom_malloc by done. cbn [fst snd]. cbn zeta.
    rewrite bind_run, no_oom_malloc by done. cbn [fst snd mem next_block live].
    set (a := next_block (mem w)) in *.
    eexists _, _, [a; S a]. split; [done|].
    split.
    { unfold pointers. cbn [command args input_file output_file set_arg set_command].
      rewrite Hargs, Hnone. cbn. done. }
    split.
    { apply NoDup_cons. split; [|apply NoDup_singleton].
      intros Heq%list_elem_of_singleton. lia. }
    split.
    { intros x [->|[->|[]%elem_of_nil]%elem_of_cons]%elem_of_cons; [done|].
      intros Hx. specialize (Hok _ Hx). unfold a in Hok. lia. }
    split; [cbn; set_solver|]. split; [|done].
    intros x [->%elem_of_singleton|Hx]%elem_of_union; cbn; [lia|].
    specialize (Hok1 x Hx). cbn in Hok1. lia.
  - rewrite bind_run, no_oom_malloc by done. cbn [fst snd].
    set (a := next_block (mem w)) in *.
    eexists _, _, [a]. split; [done|].
    split.
    { unfold pointers. cbn [command args input_file output_file set_arg set_command].
      rewrite Hargs, insert_stored by (done || lia). rewrite !omap_stored.
      rewrite !fmap_app. cbn. solve_Permutation. }
    split; [apply NoDup_singleton|].
    split; [by intros x ->%list_elem_of_singleton|].
    split; [cbn; set_solver|]. done.
Qed.

(** The bookkeeping of a redirection: the target [a] replaces the
    targets [old]. *)
Lemma redirect_accounting (l l' : gset ptr) (P Q P' old lost : list ptr) a :
  P ≡ₚ old ++ Q → NoDup P → (∀ x, x ∈ P → x ∈ l) → a ∉ l →
  NoDup lost →
  l' ∖ list_to_set P' = (({[a]} ∪ l) ∖ list_to_set (a :: Q)) ∪ list_to_set lost →
  (∀ x, x ∈ lost → x ∉ ({[a]} ∪ l) ∖ list_to_set (a :: Q)) →
  NoDup (old ++ lost)
  ∧ l' ∖ list_to_set P' = (l ∖ list_to_set P) ∪ list_to_set (old ++ lost)
  ∧ (∀ x, x ∈ old ++ lost → x ∉ l ∖ list_to_set P).
Proof.
  intros HP Hdup Hlive Ha Hlost Heq Hdisj.
  rewrite HP in Hdup. apply NoDup_app in Hdup as (Hold & Hsep & HQ).
  assert (HPin : ∀ x, x ∈ P ↔ x ∈ old ∨ x ∈ Q).
  { intros x. by rewrite HP, elem_of_app. }
  assert (Hbase : ∀ x, x ∈ ({[a]} ∪ l) ∖ list_to_set (a :: Q)
                       ↔ x ∈ l ∖ list_to_set P ∨ x ∈ old).
  { intros x. rewrite !elem_of_difference, elem_of_union, !elem_of_list_to_set,
      elem_of_cons, elem_of_singleton, HPin.
    split.
    - intros [[->|Hx] Hno]; [tauto|].
      destruct (decide (x ∈ old)); [tauto|]. left. tauto.
    - intros [[Hx Hno]|Hx].
      + split; [tauto|]. intros [->|HxQ]; tauto.
      + split; [right; apply Hlive, HPin; tauto|].
        intros [->|HxQ]; [apply Ha, Hlive, HPin; tauto|]. by apply (Hsep x). }
  split; [|split].
  - apply NoDup_app. split; [done|]. split; [|done].
    intros x Hx Hx'. apply (Hdisj x Hx'), Hbase. tauto.
  - apply set_eq. intros x. rewrite Heq, !elem_of_union, Hbase, !elem_of_list_to_set, elem_of_app.
    tauto.
  - intros x [Hx|Hx]%elem_of_app.
    + rewrite elem_of_difference, elem_of_list_to_set, HPin. tauto.
    + intros Hin. apply (Hdisj x Hx), Hbase. tauto.
Qed.

(** The blocks of the structure when the loop over the tokens is left,
    at its end or by the [return] for a missing filename.  [l_end] are
    the live blocks before the loop frees anything: the blocks of the
    structure are among them and distinct, and what is live besides
    them is what was live besides them before, and the targets that a
    later redirection has replaced. *)
Lemma parse_tokens_heap rest tokens line_copy cmd ai w e w' :
  no_oom (mem w) → heap_ok (mem w) → args_ok cmd ai →
  (ai + length rest ≤ 512)%nat →
  NoDup (pointers cmd) → (∀ a, a ∈ pointers cmd → a ∈ live (mem w)) →
  parse_tokens rest tokens line_copy cmd ai w = (e, w') →
  ∃ l_end lost ai',
    live (mem w') = l_end ∖ exit_freed e tokens line_copy
    ∧ (∀ a, a ∈ l_end → (a < next_block (mem w'))%nat)
    ∧ out_of_memory (mem w') = out_of_memory (mem w)
    ∧ args_ok (exit_command e) ai'
    ∧ NoDup (pointers (exit_command e))
    ∧ (∀ a, a ∈ pointers (exit_command e) → a ∈ l_end)
    ∧ NoDup lost
    ∧ l_end ∖ list_to_set (pointers (exit_command e))
      = (live (mem w) ∖ list_to_set (pointers cmd)) ∪ list_to_set lost
    ∧ (∀ a, a ∈ lost → a ∉ live (mem w) ∖ list_to_set (pointers cmd))
    ∧ length lost = overwritten (text <$> rest) cmd.
Proof.
  remember (length rest) as n eqn:Hn.
  revert rest cmd ai w Hn.
  induction (lt_wf n) as [n _ IH].
  intros rest cmd ai w -> Hoom Hok Hargs Hroom Hdup Hlive.
  (* the loop is left here, with nothing replaced *)
  assert (Hleft : ∀ toks (l : gset ptr) next,
    (∀ a, a ∈ live (mem w) → (a < next)%nat) →
    overwritten toks cmd = 0%nat →
    ∃ l_end lost ai',
      live (mem w) ∖ l = l_end ∖ l
      ∧ (∀ a, a ∈ l_end → (a < next)%nat)
      ∧ out_of_memory (mem w) = out_of_memory (mem w)
      ∧ args_ok cmd ai'
      ∧ NoDup (pointers cmd)
      ∧ (∀ a, a ∈ pointers cmd → a ∈ l_end)
      ∧ NoDup lost
      ∧ l_end ∖ list_to_set (pointers cmd)
        = (live (mem w) ∖ list_to_set (pointers cmd)) ∪ list_to_set lost
      ∧ (∀ a, a ∈ lost → a ∉ live (mem w) ∖ list_to_set (pointers cmd))
      ∧ length lost = overwritten toks cmd).
  { intros toks l next Hnext Hnone. exists (live (mem w)), [], ai.
    repeat (split; [done|]). split; [apply NoDup_nil_2|].
    split; [cbn; by rewrite union_empty_r_L|].
    split; [intros a Ha; by apply elem_of_nil in Ha|by rewrite Hnone]. }
  assert (Hnothing : ∀ toks,
    length (filenames "<" toks) = 0%nat → length (filenames ">" toks) = 0%nat →
    overwritten toks cmd = 0%nat).
  { intros toks Hin Hout. unfold overwritten. rewrite Hin, Hout, !Nat.add_0_r.
    by destruct (input_file cmd), (output_file cmd). }
  destruct rest as [|t rest1]; cbn [parse_tokens fmap list_fmap].
  { intros [= <- <-]. cbn [exit_freed exit_command].
    destruct (Hleft [] ∅ (next_block (mem w)) Hok (Hnothing [] eq_refl eq_refl))
      as (l_end & lost & ai' & Heq & Hrest).
    exists l_end, lost, ai'. split; [|exact Hrest].
    rewrite !difference_empty_L in Heq. by rewrite difference_empty_L. }
  (* storing [t] and going on with [rest1] *)
  assert (Hstore :
    is_redirect (text t) = false →
    (r ← store_argument t tokens line_copy cmd ai;
     match r with
     | inl cmd' => mret (Returned (-1) cmd')
     | inr cmd' => parse_tokens rest1 tokens line_copy cmd' (S ai)
     end) w = (e, w') →
    ∃ l_end lost ai',
      live (mem w') = l_end ∖ exit_freed e tokens line_copy
      ∧ (∀ a, a ∈ l_end → (a < next_block (mem w'))%nat)
      ∧ out_of_memory (mem w') = out_of_memory (mem w)
      ∧ args_ok (exit_command e) ai'
      ∧ NoDup (pointers (exit_command e))
      ∧ (∀ a, a ∈ pointers (exit_command e) → a ∈ l_end)
      ∧ NoDup lost
      ∧ l_end ∖ list_to_set (pointers (exit_command e))
        = (live (mem w) ∖ list_to_set (pointers cmd)) ∪ list_to_set lost
      ∧ (∀ a, a ∈ lost → a ∉ live (mem w) ∖ list_to_set (pointers cmd))
      ∧ length lost = overwritten (text t :: (text <$> rest1)) cmd).
  { intros Hplain. cbn in Hroom.
    destruct (store_argument_ok t tokens line_copy cmd ai w Hoom Hargs ltac:(lia))
      as (cmd1 & w1 & Hrun & Hw1 & Hargs1 & _).
    destruct (store_argument_heap t tokens line_copy cmd ai w Hoom Hok Hargs ltac:(lia))
      as (cmd1' & w1' & new & Hrun' & Hperm & Hnew & Hfresh & Hlive1 & Hok1 & Hin & Hout).
    rewrite Hrun in Hrun'. injection Hrun' as <- <-.
    rewrite bind_run, Hrun. cbn [fst snd]. intros Hrest.
    assert (Hdup1 : NoDup (pointers cmd1)).
    { rewrite Hperm. apply NoDup_app. split; [done|]. split; [|done].
      intros a Ha Ha'. by apply (Hfresh a Ha), Hlive. }
    assert (Hlive1' : ∀ a, a ∈ pointers cmd1 → a ∈ live (mem w1)).
    { intros a. rewrite Hperm, Hlive1, elem_of_app, elem_of_union, elem_of_list_to_set.
      intros [?|?]; [by left|right; by apply Hlive]. }
    destruct (IH (length rest1) ltac:(cbn; lia) rest1 cmd1 (S ai) w1 eq_refl
                (heap_only_no_oom _ _ Hw1 Hoom) Hok1 Hargs1 ltac:(lia) Hdup1 Hlive1' Hrest)
      as (l_end & lost & ai' & Hend & Hnext & Hoom' & Hargs' & Hdup' & Hlive' & Hlost & Heq
            & Hdisj & Hcount).
    assert (Hbase : live (mem w1) ∖ list_to_set (pointers cmd1)
                    = live (mem w) ∖ list_to_set (pointers cmd)).
    { rewrite Hperm, Hlive1, list_to_set_app_L. apply set_eq. intros a.
      rewrite !elem_of_difference, !elem_of_union, !elem_of_list_to_set.
      specialize (Hfresh a). tauto. }
    exists l_end, lost, ai'. split; [done|]. split; [done|].
    split; [destruct Hw1 as (_ & _ & Hw1); congruence|].
    rewrite Hbase in Heq, Hdisj. repeat (split; [done|]).
    rewrite Hcount. unfold overwritten. cbn [filenames]. rewrite Hplain, Hin, Hout. done. }
  (* a redirection operator and its filename *)
  assert (Hredirect : ∀ (set : option cstr → command_t → command_t) (old : option cstr)
                        (Q : list ptr) f rest2,
    rest1 = f :: rest2 →
    (∀ c, args (set c cmd) = args cmd ∧ command (set c cmd) = command cmd) →
    pointers cmd ≡ₚ (addr <$> option_list old) ++ Q →
    (∀ c, pointers (set (Some c) cmd) ≡ₚ addr c :: Q) →
    (∀ c, (length (addr <$> option_list old)
           + overwritten (text <$> rest2) (set (Some c) cmd))%nat
          = overwritten (text t :: text f :: (text <$> rest2)) cmd) →
    (p ← malloc (String.length (text f) + 1);
     match p with
     | None =>
         free_tokens tokens ;; free line_copy ;; mret (Returned (-1) (set None cmd))
     | Some a => parse_tokens rest2 tokens line_copy (set (Some (CStr a (text f))) cmd) ai
     end) w = (e, w') →
    ∃ l_end lost ai',
      live (mem w') = l_end ∖ exit_freed e tokens line_copy
      ∧ (∀ a, a ∈ l_end → (a < next_block (mem w'))%nat)
      ∧ out_of_memory (mem w') = out_of_memory (mem w)
      ∧ args_ok (exit_command e) ai'
      ∧ NoDup (pointers (exit_command e))
      ∧ (∀ a, a ∈ pointers (exit_command e) → a ∈ l_end)
      ∧ NoDup lost
      ∧ l_end ∖ list_to_set (pointers (exit_command e))
        = (live (mem w) ∖ list_to_set (pointers cmd)) ∪ list_to_set lost
      ∧ (∀ a, a ∈ lost → a ∉ live (mem w) ∖ list_to_set (pointers cmd))
      ∧ length lost = overwritten (text t :: text f :: (text <$> rest2)) cmd).
  { intros set old Q f rest2 -> Hsame HP HP1 Hcount. cbn in Hroom.
    rewrite bind_run, no_oom_malloc by done. cbn [fst snd].
    set (a := next_block (mem w)). set (c := CStr a (text f)).
    set (w1 := World _ _ _). intros Hrest.
    destruct (heap_ok_malloc w Hok) as [Hok1 Hfresh].
    assert (Hargs1 : args_ok (set (Some c) cmd) ai).
    { destruct Hargs as (? & ? & ?), (Hsame (Some c)) as [Ha Hc].
      unfold args_ok, argv. by rewrite Ha, Hc. }
    assert (HQ : ∀ x, x ∈ Q → x ∈ live (mem w)).
    { intros x Hx. apply Hlive. rewrite HP, elem_of_app. by right. }
    assert (Hdup1 : NoDup (pointers (set (Some c) cmd))).
    { rewrite (HP1 c). apply NoDup_cons. split.
      - intros Hin. by apply Hfresh, HQ.
      - rewrite HP in Hdup. by apply NoDup_app in Hdup as (_ & _ & ?). }
    assert (Hlive1 : ∀ x, x ∈ pointers (set (Some c) cmd) → x ∈ live (mem w1)).
    { intros x. rewrite (HP1 c), elem_of_cons. cbn.
      rewrite elem_of_union, elem_of_singleton. intros [->|Hx]; [by left|right; by apply HQ]. }
    destruct (IH (length rest2) ltac:(cbn; lia) rest2 (set (Some c) cmd) ai w1 eq_refl
                Hoom Hok1 Hargs1 ltac:(lia) Hdup1 Hlive1 Hrest)
      as (l_end & lost & ai' & Hend & Hnext & Hoom' & Hargs' & Hdup' & Hlive' & Hlost & Heq
            & Hdisj & Hlen).
    assert (HPset : list_to_set (pointers (set (Some c) cmd)) =@{gset ptr} list_to_set (a :: Q))
      by (by rewrite (HP1 c)).
    rewrite HPset in Heq, Hdisj.
    destruct (redirect_accounting (live (mem w)) l_end (pointers cmd) Q
                (pointers (exit_command e)) (addr <$> option_list old) lost a
                HP Hdup Hlive Hfresh Hlost Heq Hdisj) as (Hdup2 & Heq2 & Hdisj2).
    exists l_end, ((addr <$> option_list old) ++ lost), ai'.
    do 6 (split; [done|]).
    split; [exact Hdup2|]. split; [exact Heq2|]. split; [exact Hdisj2|].
    rewrite length_app, Hlen. apply Hcount. }
  (* a redirection operator with nothing after it *)
  assert (Hmissing : ∀ m,
    is_redirect (text t) = true → rest1 = [] →
    (emit m ;; free_tokens tokens ;; free line_copy ;; mret (Returned (-1) cmd)) w
      = (e, w') →
    ∃ l_end lost ai',
      live (mem w') = l_end ∖ exit_freed e tokens line_copy
      ∧ (∀ a, a ∈ l_end → (a < next_block (mem w'))%nat)
      ∧ out_of_memory (mem w') = out_of_memory (mem w)
      ∧ args_ok (exit_command e) ai'
      ∧ NoDup (pointers (exit_command e))
      ∧ (∀ a, a ∈ pointers (exit_command e) → a ∈ l_end)
      ∧ NoDup lost
      ∧ l_end ∖ list_to_set (pointers (exit_command e))
        = (live (mem w) ∖ list_to_set (pointers cmd)) ∪ list_to_set lost
      ∧ (∀ a, a ∈ lost → a ∉ live (mem w) ∖ list_to_set (pointers cmd))
      ∧ length lost = overwritten (text t :: (text <$> rest1)) cmd).
  { intros m Hop ->. unfold free_tokens. rewrite !bind_run, free_each_run. cbn.
    intros [= <- <-]. cbn [exit_freed exit_command mem live next_block out_of_memory].
    assert (Hnone : overwritten [text t] cmd = 0%nat).
    { apply Hnothing; cbn; by rewrite Hop. }
    destruct (Hleft [text t] (list_to_set (addr <$> tokens) ∪ {[line_copy]})
                (next_block (mem w)) Hok Hnone) as (l_end & lost & ai' & Heq & Hrest).
    exists l_end, lost, ai'. split; [|exact Hrest].
    rewrite <- Heq. apply set_eq. intros a.
    rewrite !elem_of_difference, elem_of_union. tauto. }
  destruct (String.eqb_spec (text t) "<") as [Hin|Hnin].
  { destruct rest1 as [|f rest2].
    { apply Hmissing; [by rewrite Hin|done]. }
    apply (Hredirect set_input_file (input_file cmd)
             (addr <$> (option_list (command cmd) ++ omap id (args cmd)
                        ++ option_list (output_file cmd))) f rest2 eq_refl).
    - done.
    - unfold pointers. rewrite !fmap_app. solve_Permutation.
    - intros c. unfold pointers. cbn [command args input_file output_file set_input_file].
      rewrite !fmap_app. cbn. solve_Permutation.
    - intros c. unfold overwritten. cbn [filenames input_file output_file set_input_file].
      rewrite Hin. cbn. rewrite length_fmap. lia. }
  destruct (String.eqb_spec (text t) ">") as [Hout|Hnout].
  { destruct rest1 as [|f rest2].
    { apply Hmissing; [by rewrite Hout|done]. }
    apply (Hredirect set_output_file (output_file cmd)
             (addr <$> (option_list (command cmd) ++ omap id (args cmd)
                        ++ option_list (input_file cmd))) f rest2 eq_refl).
    - done.
    - unfold pointers. rewrite !fmap_app. solve_Permutation.
    - intros c. unfold pointers. cbn [command args input_file output_file set_output_file].
      rewrite !fmap_app. cbn. solve_Permutation.
    - intros c. unfold overwritten. cbn [filenames input_file output_file set_output_file].
      rewrite Hout. cbn. rewrite length_fmap. lia. }
  assert (Hplain : is_redirect (text t) = false).
  { unfold is_redirect. apply orb_false_iff.
    split; by apply String.eqb_neq. }
  destruct (String.eqb (text t) "&"); [|by apply Hstore].
  destruct rest1 as [|t1 rest1]; [|by apply Hstore].
  cbn. intros [= <- <-]. cbn [exit_freed exit_command].
  exists (live (mem w)), [], ai. rewrite difference_empty_L.
  split; [done|]. split; [done|]. split; [done|].
  split; [by destruct Hargs as (? & ? & ?)|].
  split; [done|]. split; [done|]. split; [apply NoDup_nil_2|].
  split; [cbn; by rewrite union_empty_r_L|].
  split; [intros a Ha; by apply elem_of_nil in Ha|].
  symmetry. apply Hnothing; cbn [filenames]; by rewrite Hplain.
Qed.

(** ** [parse_command] on the lines it accepts and on those it rejects *)

Lemma args_ok_terminated cmd ai : args_ok cmd ai → args_ok (set_arg ai None cmd) ai.
Proof.
  intros (Hai & (stored & Hlen & Hargs) & Hcommand).
  assert (Hsame : args (set_arg ai None cmd) = args cmd).
  { cbn [args set_arg]. apply list_insert_id. rewrite Hargs.
    rewrite lookup_app_r by (rewrite length_fmap; lia).
    rewrite length_fmap, Hlen, Nat.sub_diag.
    by replace (513 - ai)%nat with (S (512 - ai)) by lia. }
  split; [done|]. split.
  - exists stored. by rewrite Hsame.
  - unfold argv. by rewrite Hsame.
Qed.

Lemma parse_command_rejected line w diag :
  no_oom (mem w) → rejected line = Some diag →
  ∃ code cmd w',
    parse_command line w = ((code, cmd), w')
    ∧ (code = 1 ∨ code = -1)
    ∧ (code = 1 ↔ is_blank_or_comment line = true)
    ∧ shell w' = shell w ∧ trace w' = trace w ++ diag.
Proof.
  intros Hoom Hrej.
  destruct (parse_command_run line w Hoom) as (code & cmd & w' & Hrun & Hspec).
  exists code, cmd, w'. split; [done|].
  pose proof (quiet_parse_command line w) as [Hshell _]. rewrite Hrun in Hshell.
  unfold rejected in Hrej.
  destruct (is_blank_or_comment line).
  { injection Hrej as <-. rewrite app_nil_r. destruct Hspec as (-> & _ & ->). naive_solver. }
  destruct (MAX_LINE_LENGTH <? String.length line)%nat.
  { injection Hrej as <-. destruct Hspec as (-> & _ & ->). naive_solver. }
  destruct (MAX_ARGS <? length (tokens_of line))%nat.
  { injection Hrej as <-. destruct Hspec as (-> & _ & ->). naive_solver. }
  destruct (scan (tokens_of line) (view_of init_command)) as [[m|] v].
  { injection Hrej as <-. destruct Hspec as (-> & _ & ->). naive_solver. }
  destruct (s_argv v); [|done].
  injection Hrej as <-. rewrite app_nil_r. destruct Hspec as (-> & _ & ->). naive_solver.
Qed.

(** [parse_command] on a line whose tokens it scans, accepted or not:
    the blocks of the structure it leaves, and the blocks that nothing
    points to any more. *)
Lemma parse_command_blocks line w :
  no_oom (mem w) → heap_ok (mem w) → tokens_scanned line →
  ∃ code cmd w' ai lost,
    parse_command line w = ((code, cmd), w')
    ∧ args_ok cmd ai
    ∧ view_of cmd = (scan (tokens_of line) (view_of init_command)).2
    ∧ out_of_memory (mem w') = out_of_memory (mem w)
    ∧ heap_ok (mem w')
    ∧ NoDup (pointers cmd ++ lost)
    ∧ live (mem w') = live (mem w) ∪ list_to_set (pointers cmd ++ lost)
    ∧ (∀ a, a ∈ pointers cmd ++ lost → a ∉ live (mem w))
    ∧ length lost = replaced_filenames (tokens_of line).
Proof.
  intros Hoom Hok Hscanned.
  destruct (parse_command_scanned line w Hoom Hscanned)
    as (code & cmd & w' & Hrun & Hview & _).
  destruct Hscanned as (Hblank & Hshort & Hfits).
  enough (Hrest : ∃ ai lost,
    args_ok cmd ai
    ∧ out_of_memory (mem w') = out_of_memory (mem w)
    ∧ heap_ok (mem w')
    ∧ NoDup (pointers cmd ++ lost)
    ∧ live (mem w') = live (mem w) ∪ list_to_set (pointers cmd ++ lost)
    ∧ (∀ a, a ∈ pointers cmd ++ lost → a ∉ live (mem w))
    ∧ length lost = replaced_filenames (tokens_of line)).
  { destruct Hrest as (ai & lost & ? & Hrest). by exists code, cmd, w', ai, lost. }
  clear Hview. revert Hrun.
  unfold is_blank_or_comment in Hblank. unfold parse_command. cbn zeta.
  rewrite bind_run, no_oom_malloc by done. cbn [fst snd].
  destruct (heap_ok_malloc w Hok) as [Hok1 Hfresh].
  set (lc := next_block (mem w)) in *.
  set (w1 := World _ _ _).
  destruct (skip_blanks line) as [|c rest]; [done|].
  apply orb_false_iff in Hblank as [-> ->].
  rewrite bind_run, (tokenize_line_run line MAX_ARGS w1) by done.
  replace (MAX_LINE_LENGTH <? String.length line)%nat with false
    by (symmetry; apply Nat.ltb_ge; lia).
  replace (MAX_ARGS <? length (tokens_of line))%nat with false
    by (symmetry; apply Nat.ltb_ge; lia).
  cbn zeta. cbn [fst snd].
  set (blocks := name_blocks (next_block (mem w1)) (tokens_of line)).
  set (w2 := World _ _ _).
  assert (Hblocks : text <$> blocks = tokens_of line) by apply name_blocks_text.
  assert (Hlen : length blocks = length (tokens_of line)) by apply name_blocks_length.
  assert (Hok2 : heap_ok (mem w2)).
  { intros a Ha. cbn in Ha |- *. rewrite Hlen. apply elem_of_union in Ha as [Ha|Ha].
    - apply elem_of_list_to_set, name_blocks_addr in Ha. cbn in Ha. lia.
    - specialize (Hok1 a Ha). cbn in Hok1. lia. }
  assert (Hw2 : ∀ a, a ∈ live (mem w2) ↔ a = lc ∨ a ∈ addr <$> blocks ∨ a ∈ live (mem w)).
  { intros a. cbn. rewrite !elem_of_union, elem_of_list_to_set, elem_of_singleton. tauto. }
  assert (Hfresh2 : ∀ a, a ∈ addr <$> blocks → a ∉ live (mem w)).
  { intros a. unfold blocks. rewrite name_blocks_addr. cbn. intros Ha Hin.
    specialize (Hok a Hin). unfold lc in *. lia. }
  (* what is live when the structure stands and the tokens and the copy
     of the line are freed *)
  assert (Hfinal : ∀ (l_end : gset ptr) (P lost : list ptr),
    (∀ a, a ∈ P → a ∈ l_end) → NoDup P → NoDup lost →
    l_end ∖ list_to_set P = live (mem w2) ∪ list_to_set lost →
    (∀ a, a ∈ lost → a ∉ live (mem w2)) →
    NoDup (P ++ lost)
    ∧ l_end ∖ list_to_set (addr <$> blocks) ∖ {[lc]}
      = live (mem w) ∪ list_to_set (P ++ lost)
    ∧ (∀ a, a ∈ P ++ lost → a ∉ live (mem w))).
  { intros l_end P lost Hlive3 Hdup3 Hlost Heq HdisjA.
    assert (HeqA : ∀ a, a ∈ l_end ∧ a ∉ P ↔ a ∈ live (mem w2) ∨ a ∈ lost).
    { intros a.
      rewrite <- (elem_of_list_to_set (C:=gset ptr) a P), <- elem_of_difference,
        Heq, elem_of_union, !elem_of_list_to_set. tauto. }
    assert (Hsep : ∀ a, a ∈ P → a ∉ live (mem w2)).
    { intros a Ha Hin. specialize (HeqA a). tauto. }
    split.
    { apply NoDup_app. split; [done|]. split; [|done].
      intros a Ha Ha'. specialize (HeqA a). tauto. }
    split.
    { apply set_eq. intros a.
      rewrite !elem_of_difference, elem_of_union, !elem_of_list_to_set, elem_of_app,
        elem_of_singleton.
      specialize (HeqA a). specialize (Hw2 a). specialize (Hsep a). specialize (HdisjA a).
      specialize (Hfresh2 a). specialize (Hlive3 a).
      assert (Hlc : a ∈ live (mem w) → a ≠ lc) by (by intros ? ->).
      destruct (decide (a ∈ P)); [|tauto].
      split; [tauto|]. intros _. split; [split; [tauto|]|]; tauto. }
    intros a [Ha|Ha]%elem_of_app Hin.
    - apply (Hsep a Ha), Hw2. tauto.
    - apply (HdisjA a Ha), Hw2. tauto. }
  destruct (Z.leb_spec (Z.of_nat (length blocks)) 0) as [Hnone|Hsome].
  { assert (Hempty : blocks = []) by (apply length_zero_iff_nil; lia).
    unfold free, mbind, mret, M_bind, M_ret. intros [= <- <- <-]. exists 0%nat, [].
    split; [apply args_ok_init|]. split; [done|]. cbn [mem live next_block].
    split.
    { intros a [Ha _]%elem_of_difference. by apply Hok2. }
    split; [unfold pointers; cbn; apply NoDup_nil_2|].
    split.
    { unfold pointers. cbn. apply set_eq. intros a.
      rewrite Hempty. cbn.
      rewrite elem_of_difference, !elem_of_union, elem_of_singleton, !elem_of_empty.
      assert (Hlc : a ∈ live (mem w) → a ≠ lc) by (by intros ? ->). tauto. }
    split; [intros a Ha; by apply elem_of_nil in Ha|].
    apply (f_equal (fmap text)) in Hempty. rewrite Hblocks in Hempty.
    by rewrite Hempty. }
  assert (Hroom : (0 + length blocks ≤ 512)%nat) by (unfold MAX_ARGS in Hfits; lia).
  destruct (parse_tokens_scan blocks blocks lc init_command 0 w2
              Hoom args_ok_init Hroom) as (e & w3 & Hrun3 & Hscan3).
  destruct (parse_tokens_heap blocks blocks lc init_command 0 w2 e w3
              Hoom Hok2 args_ok_init Hroom)
    as (l_end & lost & ai' & Hend & Hnext & Hoom3 & Hargs3 & Hdup3 & Hlive3 & Hlost & Heq
          & Hdisj & Hcount);
    [apply NoDup_nil_2|intros a Ha; by apply elem_of_nil in Ha|done|].
  replace (live (mem w2) ∖ list_to_set (pointers init_command)) with (live (mem w2))
    in Heq, Hdisj by (unfold pointers; cbn; by rewrite difference_empty_L).
  destruct (Hfinal l_end (pointers (exit_command e)) lost Hlive3 Hdup3 Hlost Heq Hdisj)
    as (Hdup & Hlive & Hfreshall).
  assert (Hcount' : length lost = replaced_filenames (tokens_of line)).
  { rewrite Hcount, Hblocks. done. }
  rewrite bind_run, Hrun3. cbn [fst snd].
  destruct (scan (text <$> blocks) (view_of init_command)) as [[m|] v].
  - destruct Hscan3 as (cmd3 & -> & _). cbn [exit_command exit_freed] in *.
    cbn. intros [= <- <- <-]. exists ai', lost.
    split; [done|]. split; [done|]. split.
    { intros a Ha. rewrite Hend in Ha. apply elem_of_difference in Ha as [Ha _].
      by apply Hnext. }
    split; [done|]. split; [|done].
    rewrite Hend, <- Hlive. apply set_eq. intros a.
    rewrite !elem_of_difference, elem_of_union. tauto.
  - destruct Hscan3 as (cmd3 & ai3 & -> & _ & Hargs3' & _).
    cbn [exit_command exit_freed] in *. rewrite difference_empty_L in Hend.
    unfold free_tokens. rewrite !bind_run, free_each_run. cbn [fst snd].
    pose proof (args_ok_terminated cmd3 ai3 Hargs3') as Hargs4.
    assert (Hpointers : pointers (set_arg ai3 None cmd3) = pointers cmd3).
    { unfold pointers. cbn [command args input_file output_file set_arg].
      destruct Hargs3' as (Hai & (stored & Hslen & Hsargs) & _).
      rewrite list_insert_id; [done|]. rewrite Hsargs.
      rewrite lookup_app_r by (rewrite length_fmap; lia).
      rewrite length_fmap, Hslen, Nat.sub_diag.
      by replace (513 - ai3)%nat with (S (512 - ai3)) by lia. }
    assert (Hfacts :
      args_ok (set_arg ai3 None cmd3) ai3
      ∧ out_of_memory (mem w3) = out_of_memory (mem w)
      ∧ heap_ok (Heap (live (mem w3) ∖ list_to_set (addr <$> blocks) ∖ {[lc]})
                      (next_block (mem w3)) (out_of_memory (mem w3)))
      ∧ NoDup (pointers (set_arg ai3 None cmd3) ++ lost)
      ∧ live (mem w3) ∖ list_to_set (addr <$> blocks) ∖ {[lc]}
        = live (mem w) ∪ list_to_set (pointers (set_arg ai3 None cmd3) ++ lost)
      ∧ (∀ a, a ∈ pointers (set_arg ai3 None cmd3) ++ lost → a ∉ live (mem w))
      ∧ length lost = replaced_filenames (tokens_of line)).
    { rewrite Hpointers, Hend. split; [done|]. split; [done|]. split; [|done].
      intros a Ha. cbn in Ha |- *. apply elem_of_difference in Ha as [Ha _].
      apply elem_of_difference in Ha as [Ha _]. by apply Hnext. }
    destruct (command (set_arg ai3 None cmd3)); cbn; intros [= <- <- <-];
      by exists ai3, lost.
Qed.

Lemma parse_command_accepted line w :
  no_oom (mem w) → heap_ok (mem w) → rejected line = None →
  ∃ cmd w' ai lost,
    parse_command line w = ((0, cmd), w')
    ∧ args_ok cmd ai
    ∧ view_of cmd = (scan (tokens_of line) (view_of init_command)).2
    ∧ shell w' = shell w ∧ trace w' = trace w
    ∧ out_of_memory (mem w') = out_of_memory (mem w)
    ∧ heap_ok (mem w')
    ∧ NoDup (pointers cmd ++ lost)
    ∧ live (mem w') = live (mem w) ∪ list_to_set (pointers cmd ++ lost)
    ∧ (∀ a, a ∈ pointers cmd ++ lost → a ∉ live (mem w))
    ∧ length lost = replaced_filenames (tokens_of line).
Proof.
  intros Hoom Hok Hacc.
  destruct (parse_command_run line w Hoom) as (code & cmd & w' & Hrun & Hspec).
  pose proof (quiet_parse_command line w) as [Hshell _]. rewrite Hrun in Hshell.
  cbn [snd] in Hshell.
  unfold rejected in Hacc.
  destruct (is_blank_or_comment line) eqn:Hblank; [done|].
  destruct (Nat.ltb_spec MAX_LINE_LENGTH (String.length line)) as [|Hshort]; [done|].
  destruct (Nat.ltb_spec MAX_ARGS (length (tokens_of line))) as [|Hfits]; [done|].
  destruct (scan (tokens_of line) (view_of init_command)) as [[m|] v] eqn:Hscan; [done|].
  destruct (s_argv v) as [|name others] eqn:Hargv; [done|].
  destruct Hspec as (-> & Hview & Htrace).
  destruct (parse_command_blocks line w Hoom Hok)
    as (code' & cmd' & w'' & ai & lost & Hrun' & Hrest); [done|].
  rewrite Hrun in Hrun'. injection Hrun' as <- <- <-.
  exists cmd, w', ai, lost. split; [done|].
  destruct Hrest as (Hargs & Hview' & Hrest). rewrite Hscan in Hview'.
  split; [done|]. split; [done|]. split; [done|]. split; [done|]. exact Hrest.
Qed.

(** X9.  Parsing an accepted line and freeing the command again,
    with an allocator that refuses nothing: the live blocks are those
    of before the call and, for every filename that a later use of
    the same operator replaced, one block that nothing points to any
    more.  So the heap is as it was if and only if no redirection
    operator took a filename twice. *)
Theorem parse_then_free line w :
  no_oom (mem w) → heap_ok (mem w) → rejected line = None →
  let '((code, cmd), w1) := parse_command line w in
  let w2 := (free_command cmd w1).2 in
  code = 0
  ∧ (∃ lost,
       NoDup lost ∧ (∀ a, a ∈ lost → a ∉ live (mem w))
       ∧ length lost = replaced_filenames (tokens_of line)
       ∧ live (mem w2) = live (mem w) ∪ list_to_set lost)
  ∧ (live (mem w2) = live (mem w) ↔ replaced_filenames (tokens_of line) = 0%nat).
Proof.
  intros Hoom Hok Hacc.
  destruct (parse_command_accepted line w Hoom Hok Hacc)
    as (cmd & w1 & ai & lost & -> & Hargs & _ & _ & _ & _ & _ & Hdup & Hlive & Hfresh & Hcount).
  rewrite (free_command_run cmd ai w1 Hargs). cbn [snd mem live].
  apply NoDup_app in Hdup as (Hdup1 & Hsep & Hdup2).
  assert (Hafter : live (mem w1) ∖ list_to_set (pointers cmd)
                   = live (mem w) ∪ list_to_set lost).
  { apply set_eq. intros a.
    rewrite Hlive, elem_of_difference, !elem_of_union, !elem_of_list_to_set, elem_of_app.
    specialize (Hsep a). specialize (Hfresh a). rewrite elem_of_app in Hfresh. tauto. }
  split; [done|]. split.
  { exists lost. split; [done|]. split; [|done].
    intros a Ha. apply Hfresh, elem_of_app. by right. }
  rewrite Hafter, <- Hcount. split.
  - intros Heq. destruct lost as [|a lost']; [done|].
    assert (Ha : a ∈ live (mem w)).
    { rewrite <- Heq. apply elem_of_union. right. apply elem_of_list_to_set. by left. }
    destruct (Hfresh a); [|done]. apply elem_of_app. right. by left.
  - intros Hnone. destruct lost; [|done]. cbn. by rewrite union_empty_r_L.
Qed.

Lemma parse_then_free_witness :
  let '((code, cmd), w1) := parse_command ("sort < a < b > c" +:+ NL) initial_world in
  let w2 := (free_command cmd w1).2 in
  code = 0
  ∧ (∃ lost,
       NoDup lost ∧ (∀ a, a ∈ lost → a ∉ live (mem initial_world))
       ∧ length lost = replaced_filenames (tokens_of ("sort < a < b > c" +:+ NL))
       ∧ live (mem w2) = live (mem initial_world) ∪ list_to_set lost)
  ∧ (live (mem w2) = live (mem initial_world)
     ↔ replaced_filenames (tokens_of ("sort < a < b > c" +:+ NL)) = 0%nat).
Proof.
  apply (parse_then_free ("sort < a < b > c" +:+ NL) initial_world).
  - intros k. reflexivity.
  - intros a Ha. by apply not_elem_of_empty in Ha.
  - reflexivity.
Defined.

(** X10.  What [parse_command] hands to the executor, with an
    allocator that refuses nothing.  The result is 0 exactly for the
    lines that are not rejected, and then: the command name is set and
    is the first argument; [args] still has its 513 slots, holds at
    most 512 arguments and has [NULL] right after the last of them;
    the background flag is 0 or 1; the blocks the structure points to
    are distinct and live.  The statics are never touched. *)
Theorem accepted_command_shape line w :
  no_oom (mem w) → heap_ok (mem w) →
  let '((code, cmd), w') := parse_command line w in
  shell w' = shell w
  ∧ (code = 0 ↔ rejected line = None)
  ∧ (code = 0 →
     (∃ name, text <$> command cmd = Some name ∧ head (argv cmd) = Some name)
     ∧ length (args cmd) = 513%nat
     ∧ (length (argv cmd) ≤ 512)%nat
     ∧ args cmd !! length (argv cmd) = Some None
     ∧ (background cmd = 0 ∨ background cmd = 1)
     ∧ NoDup (pointers cmd)
     ∧ (∀ a, a ∈ pointers cmd → a ∈ live (mem w'))).
Proof.
  intros Hoom Hok. destruct (rejected line) as [diag|] eqn:Hrej.
  { destruct (parse_command_rejected line w diag Hoom Hrej)
      as (code & cmd & w' & -> & Hcode & _ & Hshell & _).
    split; [done|]. split; [split; [lia|done]|]. lia. }
  destruct (parse_command_accepted line w Hoom Hok Hrej)
    as (cmd & w' & ai & lost & -> & Hargs & Hview & Hshell & _ & _ & _ & Hdup & Hlive & _).
  split; [done|]. split; [done|]. intros _.
  destruct (args_ok_argv cmd ai Hargs) as [Hnil Hlen].
  destruct Hargs as (Hai & (stored & Hslen & Hsargs) & Hcommand).
  assert (Hname : s_argv (scan (tokens_of line) (view_of init_command)).2 ≠ []).
  { unfold rejected in Hrej.
    destruct (is_blank_or_comment line); [done|].
    destruct (MAX_LINE_LENGTH <? String.length line)%nat; [done|].
    destruct (MAX_ARGS <? length (tokens_of line))%nat; [done|].
    destruct (scan _ _) as [[m|] v]; [done|]. cbn. by destruct (s_argv v). }
  rewrite <- Hview in Hname. cbn in Hname.
  split.
  { destruct (argv cmd) as [|name others]; [done|]. exists name. by rewrite Hcommand. }
  split; [rewrite Hsargs, length_app, length_fmap, length_replicate; lia|].
  split; [lia|]. split.
  { rewrite Hlen, Hsargs, lookup_app_r by (rewrite length_fmap; lia).
    rewrite length_fmap, Hslen, Nat.sub_diag.
    by replace (513 - ai)%nat with (S (512 - ai)) by lia. }
  split.
  { assert (Hbg : background cmd = s_background (view_of cmd)) by done.
    rewrite Hbg, Hview.
    destruct (scan_background (tokens_of line) (view_of init_command))
      as [[_ ->]|[_ ->]]; [by right|by left]. }
  apply NoDup_app in Hdup as (Hdup & _ & _). split; [done|].
  intros a Ha. rewrite Hlive. apply elem_of_union. right.
  apply elem_of_list_to_set, elem_of_app. by left.
Qed.

Lemma accepted_command_shape_witness :
  let '((code, cmd), w') := parse_command ("wc -l < in > out &" +:+ NL) initial_world in
  shell w' = shell initial_world
  ∧ (code = 0 ↔ rejected ("wc -l < in > out &" +:+ NL) = None)
  ∧ (code = 0 →
     (∃ name, text <$> command cmd = Some name ∧ head (argv cmd) = Some name)
     ∧ length (args cmd) = 513%nat
     ∧ (length (argv cmd) ≤ 512)%nat
     ∧ args cmd !! length (argv cmd) = Some None
     ∧ (background cmd = 0 ∨ background cmd = 1)
     ∧ NoDup (pointers cmd)
     ∧ (∀ a, a ∈ pointers cmd → a ∈ live (mem w'))).
Proof.
  apply (accepted_command_shape ("wc -l < in > out &" +:+ NL) initial_world).
  - intros k. reflexivity.
  - intros a Ha. by apply not_elem_of_empty in Ha.
Defined.

(** [scan] on tokens none of which is a redirection operator. *)
Lemma scan_words words v :
  Forall (λ t, is_redirect t = false) words →
  (last words ≠ Some "&" →
   scan words v = (None, Scanned (s_argv v ++ words) (s_input v) (s_output v)
                                 (s_background v)))
  ∧ scan (words ++ ["&"]) v
    = (None, Scanned (s_argv v ++ words) (s_input v) (s_output v) 1).
Proof.
  intros Hwords. revert v. induction Hwords as [|t rest Ht _ IH]; intros v.
  - cbn. rewrite app_nil_r. split; [|done]. by destruct v.
  - split.
    + intros Hlast. rewrite scan_plain; [|done|].
      2: { intros -> ->. by apply Hlast. }
      destruct (IH (push_argument t v)) as [Hfg _]. rewrite Hfg.
      * cbn. by rewrite <- app_assoc.
      * intros Hrest. apply Hlast. rewrite last_cons. by rewrite Hrest.
    + cbn [app]. rewrite scan_plain; [|done|by destruct rest].
      destruct (IH (push_argument t v)) as [_ ->]. cbn. by rewrite <- app_assoc.
Qed.

Lemma skip_blanks_word word s :
  is_word word = true → skip_blanks (word +:+ s) = word +:+ s.
Proof.
  destruct word as [|c word]; [done|]. cbn. intros [Hc _]%andb_true_iff.
  rewrite append_cons. cbn. unfold is_delim in Hc.
  apply negb_true_iff, orb_false_iff in Hc as [Hc _]. by rewrite Hc.
Qed.

Lemma unwords_head name others :
  ∃ s, unwords (name :: others) +:+ NL = name +:+ s.
Proof.
  cbn [unwords]. destruct others; [by eexists|].
  eexists. by rewrite string_app_assoc.
Qed.

(** X11.  From words to a command and back.  Take words, none of
    them [<] or [>], the first not starting with [#], and write them
    with single spaces between them, with or without [&] added at the
    end (without it, the last word is not [&]), on a line of at most
    2048 characters.  If the line has at most 512 tokens, the added
    [&] counted, [parse_command] accepts it: the arguments of the
    command are exactly these words, the command name is the first of
    them, there is no redirection, and the background flag is 1 if
    [&] was added and 0 if not.  If the line has more than 512 tokens
    (so for 512 words and [&]), it is rejected with the diagnostic for
    too many arguments. *)
Theorem command_words_round_trip name others marker w :
  let words := name :: others in
  let line := unwords (words ++ marker) +:+ NL in
  no_oom (mem w) → heap_ok (mem w) →
  Forall (λ t, is_word t = true ∧ is_redirect t = false) words →
  starts_comment name = false →
  (marker = [] ∧ last words ≠ Some "&") ∨ marker = ["&"] →
  (String.length line ≤ MAX_LINE_LENGTH)%nat →
  let '((code, cmd), w') := parse_command line w in
  if (length (words ++ marker) <=? MAX_ARGS)%nat then
    code = 0
    ∧ argv cmd = words
    ∧ text <$> command cmd = Some name
    ∧ input_file cmd = None ∧ output_file cmd = None
    ∧ background cmd = (if marker is [] then 0 else 1)
    ∧ trace w' = trace w
  else
    code = -1 ∧ trace w' = trace w ++ [too_many_tokens].
Proof.
  intros words line Hoom Hok Hwords Hcomment Hmarker Hlength.
  assert (Htokens : tokens_of line = words ++ marker).
  { apply tokens_of_unwords. apply Forall_app. split.
    - eapply Forall_impl; [exact Hwords|]. by intros t [? _].
    - destruct Hmarker as [[-> _]| ->]; by repeat constructor. }
  assert (Hplain : Forall (λ t, is_redirect t = false) words).
  { eapply Forall_impl; [exact Hwords|]. by intros t [_ ?]. }
  assert (Hscan : scan (tokens_of line) (view_of init_command)
                  = (None, Scanned words None None (if marker is [] then 0 else 1))).
  { rewrite Htokens. destruct (scan_words words (view_of init_command) Hplain) as [Hfg Hbg].
    destruct Hmarker as [[-> Hlast]| ->]; [rewrite app_nil_r; by apply Hfg|exact Hbg]. }
  assert (Hblank : is_blank_or_comment line = false).
  { unfold is_blank_or_comment, line, words. rewrite <- app_comm_cons.
    destruct (unwords_head name (others ++ marker)) as [s ->].
    apply Forall_cons in Hwords as [[Hname _] _].
    rewrite skip_blanks_word by done.
    destruct name as [|c name]; [done|]. rewrite append_cons.
    cbn in Hname, Hcomment. apply andb_true_iff in Hname as [Hc _].
    unfold is_delim in Hc. apply negb_true_iff, orb_false_iff in Hc as [_ Hc].
    by rewrite Hc, Hcomment. }
  assert (Hshort : (MAX_LINE_LENGTH <? String.length line)%nat = false)
    by (apply Nat.ltb_ge; lia).
  destruct (Nat.leb_spec (length (words ++ marker)) MAX_ARGS) as [Hfits|Hover].
  - assert (Hacc : rejected line = None).
    { unfold rejected. rewrite Hblank, Hshort.
      replace (MAX_ARGS <? length (tokens_of line))%nat with false
        by (symmetry; apply Nat.ltb_ge; rewrite Htokens; lia).
      by rewrite Hscan. }
    destruct (parse_command_accepted line w Hoom Hok Hacc)
      as (cmd & w' & ai & lost & -> & Hargs & Hview & _ & Htrace & _).
    rewrite Hscan in Hview. cbn [snd] in Hview.
    destruct Hargs as (_ & _ & Hcommand).
    injection Hview as Hargv Hin Hout Hbg.
    split; [done|]. split; [done|]. split; [by rewrite Hcommand, Hargv|].
    split; [by destruct (input_file cmd)|]. split; [by destruct (output_file cmd)|].
    done.
  - assert (Hrej : rejected line = Some [too_many_tokens]).
    { unfold rejected. rewrite Hblank, Hshort.
      replace (MAX_ARGS <? length (tokens_of line))%nat with true; [done|].
      symmetry. apply Nat.ltb_lt. rewrite Htokens. lia. }
    destruct (parse_command_rejected line w [too_many_tokens] Hoom Hrej)
      as (code & cmd & w' & -> & Hcode & Hone & _ & Htrace).
    split; [|done]. destruct Hcode as [Hcode|]; [|done].
    apply Hone in Hcode. congruence.
Qed.

Lemma command_words_round_trip_witness :
  let words := ["ls"; "-l"; "/tmp"] in
  let line := unwords (words ++ ["&"]) +:+ NL in
  let '((code, cmd), w') := parse_command line initial_world in
  if (length (words ++ ["&"]) <=? MAX_ARGS)%nat then
    code = 0
    ∧ argv cmd = words
    ∧ text <$> command cmd = Some "ls"
    ∧ input_file cmd = None ∧ output_file cmd = None
    ∧ background cmd = 1
    ∧ trace w' = trace initial_world
  else
    code = -1 ∧ trace w' = trace initial_world ++ [too_many_tokens].
Proof.
  intros words line.
  apply (command_words_round_trip "ls" ["-l"; "/tmp"] ["&"] initial_world).
  - intros k. reflexivity.
  - intros a Ha. by apply not_elem_of_empty in Ha.
  - repeat constructor.
  - reflexivity.
  - by right.
  - vm_compute. lia.
Defined.

(** ** Lines at the prompt *)

Section Prompt.
Context `{WaitStatus}.

Lemma check_jobs_mem os indices w : mem (check_jobs os indices w).2 = mem w.
Proof.
  unfold check_jobs. revert w.
  induction indices as [|i rest IH]; intros w; cbn [for_each]; [done|].
  rewrite bind_run, IH. destruct (os i) as [result status]. rewrite check_slot_run.
  destruct (background_processes (shell w) !! i) as [job|]; [|done].
  by destruct (truthy (active job)).
Qed.

Lemma check_background_processes_mem os w :
  mem (check_background_processes os w).2 = mem w.
Proof. unfold check_background_processes. rewrite bind_run. apply check_jobs_mem. Qed.

(** The turn of the loop up to the call of [parse_command]. *)
Lemma main_iteration_line os status input_line w :
  os_fgets os = Line input_line →
  let w1 := (check_background_processes (os_waits os) w).2 in
  let w2 := World (shell w1) (mem w1)
                  (trace w1 ++ Printf ": " [] :: truncation_notice input_line) in
  main_iteration os status w =
    ('(parse_result, cmd) ← parse_command input_line;
     if parse_result =? 1 then mret (Continue status)
     else if parse_result =? -1 then mret (Continue status)
     else
       match get_builtin_type (text <$> command cmd) with
       | NOT_BUILTIN =>
           g ← get_globals;
           r ← execute_external_command cmd status (foreground_only_mode g)
                 (os_fork os) (os_wait os);
           match r with
           | Returns (_, status) => free_command cmd ;; mret (Continue status)
           | Exits code => mret (Exited code)
           | InChild run_background => mret (Child run_background)
           end
       | _ =>
           let cmd := set_background 0 cmd in
           r ← execute_builtin cmd (os_home os) (os_chdir os);
           match r with
           | Returns _ => free_command cmd ;; mret (Continue status)
           | Exits code => mret (Exited code)
           | InChild run_background => mret (Child run_background)
           end
       end) w2.
Proof.
  intros Hline w1 w2. unfold main_iteration. rewrite Hline.
  rewrite bind_run. fold w1. rewrite bind_run. unfold printf at 1. cbn [emit fst snd].
  cbn zeta. unfold w2, truncation_notice. cbn zeta.
  destruct (_ && _); rewrite bind_run; unfold printf; cbn [emit mret M_ret fst snd shell mem trace].
  - by rewrite <- app_assoc.
  - done.
Qed.

(** X12.  A line that [parse_command] does not accept starts
    nothing.  With an allocator that refuses nothing: after the job
    check and the prompt, and the notice if the line filled the
    buffer, the shell prints the diagnostic of the parser, if there is
    one, and goes to the next turn; the status that [main] keeps and
    the statics are as the job check left them, and no process is
    started.  For a blank line and for a comment there is no
    diagnostic at all. *)
Theorem rejected_line_starts_nothing os status input_line diag w :
  no_oom (mem w) →
  os_fgets os = Line input_line →
  rejected input_line = Some diag →
  let w1 := (check_background_processes (os_waits os) w).2 in
  let '(next, w') := main_iteration os status w in
  next = Continue status
  ∧ shell w' = shell w1
  ∧ trace w' = trace w1 ++ Printf ": " [] :: truncation_notice input_line ++ diag
  ∧ (is_blank_or_comment input_line = true → diag = []).
Proof.
  intros Hoom Hline Hrej w1.
  rewrite (main_iteration_line os status input_line w Hline). cbn zeta. fold w1.
  set (w2 := World _ _ _).
  assert (Hoom2 : no_oom (mem w2)).
  { unfold w2, w1. cbn. by rewrite check_background_processes_mem. }
  destruct (parse_command_rejected input_line w2 diag Hoom2 Hrej)
    as (code & cmd & w3 & Hrun & Hcode & Hblank & Hshell & Htrace).
  rewrite bind_run, Hrun. cbn [fst snd].
  assert (Hdiag : is_blank_or_comment input_line = true → diag = []).
  { intros Hskip. unfold rejected in Hrej. rewrite Hskip in Hrej. by injection Hrej. }
  destruct Hcode as [-> | ->]; cbn.
  all: split; [done|]; split; [done|]; split; [|done].
  all: rewrite Htrace; unfold w2; cbn [trace]; by rewrite <- app_assoc.
Qed.

Lemma accepted_command_name line cmd ai :
  args_ok cmd ai →
  view_of cmd = (scan (tokens_of line) (view_of init_command)).2 →
  text <$> command cmd = command_name line.
Proof.
  intros (_ & _ & Hcommand) Hview. unfold command_name. rewrite <- Hview. done.
Qed.

(** X13.  [exit] typed at the prompt ends the session, whatever
    follows it on the line (arguments, redirections, [&]): the shell
    announces the exit, terminates the registered jobs that are still
    active, and the process ends with code 0; the turns that would
    follow never happen. *)
Theorem exit_line_ends_session os rest status input_line w :
  no_oom (mem w) → heap_ok (mem w) →
  os_fgets os = Line input_line →
  rejected input_line = None →
  command_name input_line = Some "exit" →
  let w1 := (check_background_processes (os_waits os) w).2 in
  let '(next, w') := main_loop (Turn os :: rest) status w in
  next = Exited 0
  ∧ shell w' = shell w1
  ∧ trace w' = trace w1
      ++ Printf ": " [] :: truncation_notice input_line
      ++ Printf ("Exiting shell..." +:+ NL) []
           :: cleanup_events (registered (shell w1)) ++ [SysExit 0].
Proof.
  intros Hoom Hok Hline Hacc Hname w1.
  cbn [main_loop main_step]. rewrite bind_run.
  rewrite (main_iteration_line os status input_line w Hline). cbn zeta. fold w1.
  set (w2 := World _ _ _).
  assert (Hmem : mem w2 = mem w).
  { unfold w2, w1. cbn. by rewrite check_background_processes_mem. }
  destruct (parse_command_accepted input_line w2) as
    (cmd & w3 & ai & lost & Hrun & Hargs & Hview & Hshell & Htrace & _);
    [by rewrite Hmem..|done|].
  rewrite bind_run, Hrun. cbn [fst snd]. change (0 =? 1) with false.
  change (0 =? -1) with false. cbn iota.
  rewrite (accepted_command_name input_line cmd ai Hargs Hview), Hname.
  cbn [get_builtin_type String.eqb Ascii.eqb Bool.eqb]. cbn iota. cbn zeta.
  rewrite bind_run.
  rewrite (exit_cleans_up_first_run (set_background 0 cmd) (os_home os) (os_chdir os) w3).
  2: { cbn [command set_background].
       by rewrite (accepted_command_name input_line cmd ai Hargs Hview), Hname. }
  cbn. rewrite Hshell, Htrace. unfold w2. cbn [shell trace].
  split; [done|]. split; [done|]. by rewrite <- app_assoc.
Qed.

Lemma get_builtin_type_exit name :
  get_builtin_type name = BUILTIN_EXIT → name = Some "exit".
Proof.
  destruct name as [name|]; [|done]. cbn.
  destruct (String.eqb_spec name "exit") as [Heq|_]; [by rewrite Heq|].
  by destruct (String.eqb name "cd"), (String.eqb name "status").
Qed.

Lemma execute_builtin_returns cmd os_home os_chdir w :
  get_builtin_type (text <$> command cmd) ≠ BUILTIN_EXIT →
  (∃ code, (execute_builtin cmd os_home os_chdir w).1 = Returns code)
  ∧ mem (execute_builtin cmd os_home os_chdir w).2 = mem w.
Proof.
  unfold execute_builtin. destruct (command cmd) as [name|]; [|by eauto].
  cbn [fmap option_fmap option_map]. intros Hexit.
  destruct (get_builtin_type (Some (text name))); [done| | |by eauto].
  - destruct (argv_of (drop 1 (args cmd))) as [|dir [|]]; run; [| |by eauto].
    + destruct os_home; run; [|by eauto]. destruct (negb (os_chdir =? 0)); run; by eauto.
    + destruct (negb (os_chdir =? 0)); run; by eauto.
  - run. destruct (negb (last_signal (shell w) =? 0)); run; by eauto.
Qed.

Lemma execute_external_returns cmd last_status fg child_pid os_wait w :
  child_pid ≠ 0 →
  (∃ code status,
     (execute_external_command cmd last_status fg child_pid os_wait w).1
     = Returns (code, status))
  ∧ mem (execute_external_command cmd last_status fg child_pid os_wait w).2 = mem w.
Proof.
  intros Hchild. unfold execute_external_command.
  destruct (command cmd) as [name|]; [|by eauto]. run.
  destruct (child_pid =? -1); run; [by eauto|].
  destruct (Z.eqb_spec child_pid 0) as [|_]; [done|].
  destruct (truthy (c_and (background cmd) (c_not fg))); run.
  { destruct (bg_process_count (shell w) <? MAX_BG_PROCESSES); run; by eauto. }
  destruct os_wait as [wait_result status].
  destruct (wait_result =? -1); run; [by eauto|].
  destruct (WIFEXITED status); run; [by eauto|].
  destruct (WIFSIGNALED status); run; by eauto.
Qed.

(** X14.  A turn of the loop gives back the memory of its command.
    With an allocator that refuses nothing, for an accepted line that
    is not an [exit] command, in the shell itself (not in the forked
    child): the turn goes on to the next one, and when it does the
    live blocks are those of before the turn, and one stray block for
    every filename that a later use of the same redirection operator
    replaced. *)
Theorem turn_frees_command os status input_line w :
  no_oom (mem w) → heap_ok (mem w) →
  os_fgets os = Line input_line →
  rejected input_line = None →
  command_name input_line ≠ Some "exit" →
  os_fork os ≠ 0 →
  let '(next, w') := main_iteration os status w in
  (∃ status', next = Continue status')
  ∧ ∃ lost,
      NoDup lost ∧ (∀ a, a ∈ lost → a ∉ live (mem w))
      ∧ length lost = replaced_filenames (tokens_of input_line)
      ∧ live (mem w') = live (mem w) ∪ list_to_set lost.
Proof.
  intros Hoom Hok Hline Hacc Hname Hfork.
  rewrite (main_iteration_line os status input_line w Hline). cbn zeta.
  set (w1 := (check_background_processes (os_waits os) w).2).
  set (w2 := World _ _ _).
  assert (Hmem : mem w2 = mem w).
  { unfold w2, w1. cbn. by rewrite check_background_processes_mem. }
  destruct (parse_command_accepted input_line w2) as
    (cmd & w3 & ai & lost & Hrun & Hargs & Hview & _ & _ & _ & _ & Hdup & Hlive & Hfresh
       & Hcount);
    [by rewrite Hmem..|done|].
  rewrite Hmem in Hlive, Hfresh.
  rewrite bind_run, Hrun. cbn [fst snd]. change (0 =? 1) with false.
  change (0 =? -1) with false. cbn iota.
  apply NoDup_app in Hdup as (Hdup1 & Hsep & Hdup2).
  assert (Hafter : live (mem w3) ∖ list_to_set (pointers cmd)
                   = live (mem w) ∪ list_to_set lost).
  { apply set_eq. intros a.
    rewrite Hlive, elem_of_difference, !elem_of_union, !elem_of_list_to_set, elem_of_app.
    specialize (Hsep a). specialize (Hfresh a). rewrite elem_of_app in Hfresh. tauto. }
  assert (Hlost : ∀ a, a ∈ lost → a ∉ live (mem w)).
  { intros a Ha. apply Hfresh, elem_of_app. by right. }
  assert (Hbuiltin :
    get_builtin_type (text <$> command cmd) ≠ BUILTIN_EXIT →
    let '(next, w') :=
      (r ← execute_builtin (set_background 0 cmd) (os_home os) (os_chdir os);
       match r with
       | Returns _ => free_command (set_background 0 cmd) ;; mret (Continue status)
       | Exits code => mret (Exited code)
       | InChild run_background => mret (Child run_background)
       end) w3 in
    (∃ status', next = Continue status')
    ∧ ∃ lost,
        NoDup lost ∧ (∀ a, a ∈ lost → a ∉ live (mem w))
        ∧ length lost = replaced_filenames (tokens_of input_line)
        ∧ live (mem w') = live (mem w) ∪ list_to_set lost).
  { intros Hexit. rewrite bind_run.
    destruct (execute_builtin_returns (set_background 0 cmd) (os_home os) (os_chdir os) w3)
      as [[code ->] Hmem4]; [done|].
    rewrite bind_run, (free_command_run _ ai) by (by destruct Hargs as (? & ? & ?)).
    cbn. rewrite Hmem4. split; [by eauto|]. exists lost. by rewrite <- Hafter. }
  destruct (get_builtin_type (text <$> command cmd)) eqn:Htype.
  - destruct Hname. rewrite <- (accepted_command_name input_line cmd ai Hargs Hview).
    by apply get_builtin_type_exit.
  - by apply Hbuiltin.
  - by apply Hbuiltin.
  - rewrite !bind_run. cbn [get_globals fst snd].
    destruct (execute_external_returns cmd status (foreground_only_mode (shell w3))
                (os_fork os) (os_wait os) w3 Hfork) as [(code & status' & ->) Hmem4].
    rewrite bind_run, (free_command_run _ ai) by done.
    cbn. rewrite Hmem4. split; [by eauto|]. exists lost. by rewrite <- Hafter.
Qed.

Lemma pointers_length cmd ai :
  args_ok cmd ai → length (pointers cmd) = blocks_held (view_of cmd).
Proof.
  intros (_ & (stored & Hlen & Hargs) & Hcommand).
  unfold pointers, blocks_held, view_of, argv in *. cbn [s_argv s_input s_output].
  rewrite Hargs, omap_stored, argv_of_stored in *.
  rewrite length_fmap, !length_app, length_fmap.
  destruct (command cmd), stored, (input_file cmd), (output_file cmd); cbn in *;
    done || lia.
Qed.

(** X15.  A command that [parse_command] has begun to build and then
    rejects is never freed.  With an allocator that refuses nothing,
    for a line within the limits of the tokenizer that is rejected
    after its tokens were scanned (an operator without its filename,
    or no command at all): the loop goes to the next turn without
    calling [free_command], and the blocks it leaves allocated are
    those of the command name, the arguments and the redirection
    targets read so far, and those of the filenames that were
    replaced. *)
Theorem rejected_command_is_never_freed os status input_line diag w :
  no_oom (mem w) → heap_ok (mem w) →
  os_fgets os = Line input_line →
  tokens_scanned input_line →
  rejected input_line = Some diag →
  let '(next, w') := main_iteration os status w in
  let v := (scan (tokens_of input_line) (view_of init_command)).2 in
  next = Continue status
  ∧ ∃ leaked,
      NoDup leaked ∧ (∀ a, a ∈ leaked → a ∉ live (mem w))
      ∧ live (mem w') = live (mem w) ∪ list_to_set leaked
      ∧ length leaked = (blocks_held v + replaced_filenames (tokens_of input_line))%nat.
Proof.
  intros Hoom Hok Hline Hscanned Hrej.
  rewrite (main_iteration_line os status input_line w Hline). cbn zeta.
  set (w1 := (check_background_processes (os_waits os) w).2).
  set (w2 := World _ _ _).
  assert (Hmem : mem w2 = mem w).
  { unfold w2, w1. cbn. by rewrite check_background_processes_mem. }
  destruct (parse_command_blocks input_line w2) as
    (code & cmd & w3 & ai & lost & Hrun & Hargs & Hview & _ & _ & Hdup & Hlive & Hfresh
       & Hcount);
    [by rewrite Hmem..|done|].
  destruct (parse_command_rejected input_line w2 diag) as
    (code' & cmd' & w3' & Hrun' & Hcode & Hblank & _); [by rewrite Hmem|done|].
  rewrite Hrun in Hrun'. injection Hrun' as <- <- <-.
  rewrite Hmem in Hlive, Hfresh.
  rewrite bind_run, Hrun. cbn [fst snd].
  assert (Hminus : code = -1).
  { destruct Hcode as [Hone|]; [|done]. apply Hblank in Hone.
    destruct Hscanned as [Hno _]. congruence. }
  rewrite Hminus. cbn. split; [done|].
  exists (pointers cmd ++ lost). split; [done|]. split; [done|]. split; [done|].
  by rewrite length_app, (pointers_length cmd ai Hargs), Hview, Hcount.
Qed.

(** The loop never ends with a code other than 0. *)
Lemma main_loop_exit_code steps status w code :
  (main_loop steps status w).1 = Exited code → code = 0.
Proof.
  revert status w. induction steps as [|s rest IH]; intros status w; cbn [main_loop].
  { done. }
  rewrite bind_run.
  assert (Hstep : ∀ c, (main_step s status w).1 = Exited c → c = 0).
  { intros c. destruct s as [os|]; cbn [main_step].
    2: { rewrite bind_run. done. }
    unfold main_iteration. rewrite !bind_run.
    destruct (os_fgets os) as [input_line| |]; [|by rewrite bind_run..].
    cbn zeta. rewrite !bind_run.
    destruct (parse_command _ _) as [[parse_result cmd] w3]. cbn [fst snd].
    destruct (parse_result =? 1); [done|]. destruct (parse_result =? -1); [done|].
    assert (Hbuiltin :
      ((r ← execute_builtin (set_background 0 cmd) (os_home os) (os_chdir os);
        match r with
        | Returns _ => free_command (set_background 0 cmd) ;; mret (Continue status)
        | Exits code => mret (Exited code)
        | InChild run_background => mret (Child run_background)
        end) w3).1 = Exited c → c = 0).
    { unfold execute_builtin.
      destruct (command (set_background 0 cmd)) as [name|];
        [|run; by destruct (free_command _ _)].
      destruct (get_builtin_type (Some (text name))).
      - rewrite !bind_run. cbn. by intros [= <-].
      - destruct (argv_of _) as [|dir [|]]; run; [| |by destruct (free_command _ _)].
        + destruct (os_home os); run; [|by destruct (free_command _ _)].
          destruct (negb _); run; by destruct (free_command _ _).
        + destruct (negb _); run; by destruct (free_command _ _).
      - run. destruct (negb _); run; by destruct (free_command _ _).
      - run; by destruct (free_command _ _). }
    destruct (get_builtin_type (text <$> command cmd)); [apply Hbuiltin..|].
    unfold execute_external_command.
    destruct (command cmd) as [name|]; [|run; by destruct (free_command _ _)]. run.
    destruct (os_fork os =? -1); run; [by destruct (free_command _ _)|].
    destruct (os_fork os =? 0); run; [done|].
    destruct (truthy (c_and _ _)); run.
    { destruct (_ <? MAX_BG_PROCESSES); run; by destruct (free_command _ _). }
    destruct (os_wait os) as [wait_result wait_status].
    destruct (wait_result =? -1); run; [by destruct (free_command _ _)|].
    destruct (WIFEXITED wait_status); run; [by destruct (free_command _ _)|].
    destruct (WIFSIGNALED wait_status); run; by destruct (free_command _ _). }
  destruct (main_step s status w) as [[status'| |c|rb] w1]; cbn [fst snd].
  - apply IH.
  - rewrite !bind_run. cbn. by intros [= <-].
  - cbn. intros [= <-]. by apply Hstep.
  - done.
Qed.

(** X16.  The shell never ends with a failure code of its own.
    However a session goes, whatever the commands and whatever the
    system answers: if the shell process ends, it ends with code 0 (by
    [exit] or at the end of the input), and the last status of the
    commands it ran plays no part in it. *)
Theorem shell_exit_code_is_zero steps code w :
  (main steps w).1 = Exited code → code = 0.
Proof.
  unfold main. rewrite !bind_run. apply main_loop_exit_code.
Qed.

End Prompt.

Lemma rejected_line_starts_nothing_witness :
  let os := OsReplies (λ _, (0, 0)) (Line ("sort <" +:+ NL)) 4000 (4000, 0) None 0 in
  let w := after_spawns 1 4000 in
  let w1 := (check_background_processes (os_waits os) w).2 in
  let '(next, w') := main_iteration os 3 w in
  next = Continue 3
  ∧ shell w' = shell w1
  ∧ trace w' = trace w1 ++ Printf ": " [] :: truncation_notice ("sort <" +:+ NL)
                 ++ [missing_input]
  ∧ (is_blank_or_comment ("sort <" +:+ NL) = true → [missing_input] = []).
Proof.
  intros os w.
  apply (rejected_line_starts_nothing os 3 ("sort <" +:+ NL) [missing_input] w).
  - intros k. reflexivity.
  - reflexivity.
  - reflexivity.
Defined.

Lemma exit_line_ends_session_witness :
  let os := OsReplies (λ _, (0, 0)) (Line ("exit now &" +:+ NL)) 4000 (4000, 0) None 0 in
  let w := after_spawns 2 4000 in
  let w1 := (check_background_processes (os_waits os) w).2 in
  let '(next, w') := main_loop [Turn os; types "ls" 4002 (4002, 0)] 3 w in
  next = Exited 0
  ∧ shell w' = shell w1
  ∧ trace w' = trace w1
      ++ Printf ": " [] :: truncation_notice ("exit now &" +:+ NL)
      ++ Printf ("Exiting shell..." +:+ NL) []
           :: cleanup_events (registered (shell w1)) ++ [SysExit 0].
Proof.
  intros os w.
  apply (exit_line_ends_session os [types "ls" 4002 (4002, 0)] 3 ("exit now &" +:+ NL) w).
  - intros k. reflexivity.
  - intros a Ha. vm_compute in Ha. discriminate Ha.
  - reflexivity.
  - reflexivity.
  - reflexivity.
Defined.

Lemma turn_frees_command_witness :
  let os := OsReplies (λ _, (0, 0)) (Line ("sort < a < b > c" +:+ NL)) 4000 (4000, 0)
                      None 0 in
  let '(next, w') := main_iteration os 0 initial_world in
  (∃ status', next = Continue status')
  ∧ ∃ lost,
      NoDup lost ∧ (∀ a, a ∈ lost → a ∉ live (mem initial_world))
      ∧ length lost = replaced_filenames (tokens_of ("sort < a < b > c" +:+ NL))
      ∧ live (mem w') = live (mem initial_world) ∪ list_to_set lost.
Proof.
  intros os.
  apply (turn_frees_command os 0 ("sort < a < b > c" +:+ NL) initial_world).
  - intros k. reflexivity.
  - intros a Ha. by apply not_elem_of_empty in Ha.
  - reflexivity.
  - reflexivity.
  - discriminate.
  - discriminate.
Defined.

Lemma rejected_command_is_never_freed_witness :
  let os := OsReplies (λ _, (0, 0)) (Line ("ls -l > a > b <" +:+ NL)) 4000 (4000, 0)
                      None 0 in
  let '(next, w') := main_iteration os 0 initial_world in
  let v := (scan (tokens_of ("ls -l > a > b <" +:+ NL)) (view_of init_command)).2 in
  next = Continue 0
  ∧ ∃ leaked,
      NoDup leaked ∧ (∀ a, a ∈ leaked → a ∉ live (mem initial_world))
      ∧ live (mem w') = live (mem initial_world) ∪ list_to_set leaked
      ∧ length leaked
        = (blocks_held v + replaced_filenames (tokens_of ("ls -l > a > b <" +:+ NL)))%nat.
Proof.
  intros os.
  apply (rejected_command_is_never_freed os 0 ("ls -l > a > b <" +:+ NL) [missing_input]
           initial_world).
  - intros k. reflexivity.
  - intros a Ha. by apply not_elem_of_empty in Ha.
  - reflexivity.
  - split; [reflexivity|]. split; vm_compute; lia.
  - reflexivity.
Defined.

Lemma shell_exit_code_is_zero_witness :
  let steps := [types "false" 4000 (4000, 256); types "exit" 4001 (4001, 0)] in
  (main steps initial_world).1 = Exited 0 ∧ 0 = 0.
Proof.
  intros steps.
  assert (Hrun : (main steps initial_world).1 = Exited 0) by reflexivity.
  split; [exact Hrun|]. exact (shell_exit_code_is_zero steps 0 initial_world Hrun).
Defined.

(** ** The forked child *)

Lemma child_bind_run {A B} (c : C A) (k : A → C B) w :
  (c ≫= k) w = k (c w).1 (c w).2.
Proof. unfold mbind, C_bind. by destruct (c w). Qed.

(** One redirection, in full. *)
Lemma redirect_to_run path flags target os_open os_dup2 open_failed dup2_failed w :
  is_Some (fd_table w !! target) →
  os_open = -1 ∨ fd_table w !! os_open = None →
  redirect_to path flags target os_open os_dup2 open_failed dup2_failed w =
    if os_open =? -1 then
      (-1, ChildWorld (fd_table w)
             (child_trace w ++ [SysOpen path flags; ChildPerror open_failed]))
    else if os_dup2 =? -1 then
      (-1, ChildWorld (fd_table w)
             (child_trace w ++ [SysOpen path flags; SysDup2 os_open target;
                                ChildPerror dup2_failed; SysClose os_open]))
    else
      (0, ChildWorld (<[target := Opened path flags]> (fd_table w))
            (child_trace w ++ [SysOpen path flags; SysDup2 os_open target;
                               SysClose os_open])).
Proof.
  intros [d Htarget] Hopen. unfold redirect_to. child_run.
  destruct (Z.eqb_spec os_open (-1)) as [->|Hfd].
  { child_run. by rewrite <- app_assoc. }
  destruct Hopen as [|Hfresh]; [done|].
  assert (Hne : os_open ≠ target) by congruence.
  child_run. rewrite lookup_insert_eq.
  destruct (Z.eqb_spec os_dup2 (-1)) as [->|Hdup]; child_run.
  - rewrite delete_insert_id by done. by rewrite <- !app_assoc.
  - rewrite delete_insert_ne, delete_insert_id by done. by rewrite <- !app_assoc.
Qed.

Lemma redirected_lookup file flags null_flags is_background target table fd :
  fd ≠ target →
  redirected file flags null_flags is_background target table !! fd = table !! fd.
Proof.
  intros Hne. unfold redirected. destruct file; [by rewrite lookup_insert_ne|].
  destruct (truthy is_background); [by rewrite lookup_insert_ne|done].
Qed.

(** One stream of [setup_io_redirection], in full. *)
Lemma redirect_stream_run (file : option cstr) flags null_flags is_background target
    os_open os_dup2 m1 m2 m3 m4 w :
  is_Some (fd_table w !! target) →
  os_open = -1 ∨ fd_table w !! os_open = None →
  let c :=
    match file with
    | Some f => redirect_to (text f) flags target os_open os_dup2 m1 m2
    | None =>
        if truthy is_background
        then redirect_to "/dev/null" null_flags target os_open os_dup2 m3 m4
        else mret 0
    end in
  let fails := stream_fails file is_background os_open os_dup2 in
  (c w).1 = (if fails then -1 else 0)
  ∧ fd_table (c w).2
    = (if fails then fd_table w
       else redirected file flags null_flags is_background target (fd_table w))
  ∧ ∃ new,
      child_trace (c w).2 = child_trace w ++ new
      ∧ (if fails then ∃ message, ChildPerror message ∈ new
         else ∀ message, ChildPerror message ∉ new)
      ∧ ∀ file arguments, SysExecvp file arguments ∉ new.
Proof.
  intros Htarget Hopen. cbn zeta. unfold stream_fails, wanted, redirected.
  assert (Hrun : ∀ path fl n1 n2,
    let r := redirect_to path fl target os_open os_dup2 n1 n2 w in
    let fails := (os_open =? -1) || (os_dup2 =? -1) in
    r.1 = (if fails then -1 else 0)
    ∧ fd_table r.2 = (if fails then fd_table w else <[target := Opened path fl]> (fd_table w))
    ∧ ∃ new,
        child_trace r.2 = child_trace w ++ new
        ∧ (if fails then ∃ message, ChildPerror message ∈ new
           else ∀ message, ChildPerror message ∉ new)
        ∧ ∀ file arguments, SysExecvp file arguments ∉ new).
  { intros path fl n1 n2. cbn zeta. rewrite redirect_to_run by done.
    destruct (os_open =? -1); cbn.
    { split; [done|]. split; [done|]. eexists. split; [done|]. split.
      - exists n1. set_solver.
      - intros ??. set_solver. }
    destruct (os_dup2 =? -1); cbn.
    { split; [done|]. split; [done|]. eexists. split; [done|]. split.
      - exists n2. set_solver.
      - intros ??. set_solver. }
    split; [done|]. split; [done|]. eexists. split; [done|].
    split; intros; set_solver. }
  destruct file as [f|]; cbn [bool_decide_true orb andb].
  { rewrite bool_decide_true by eauto. cbn [orb andb]. apply Hrun. }
  rewrite bool_decide_false by (by intros [? ?]). cbn [orb].
  destruct (truthy is_background); cbn [andb]; [apply Hrun|].
  cbn. split; [done|]. split; [done|]. exists []. rewrite app_nil_r.
  split; [done|]. split; intros; apply not_elem_of_nil.
Qed.

(** [setup_io_redirection], in full. *)
Lemma setup_io_redirection_run cmd is_background os w :
  is_Some (fd_table w !! STDIN_FILENO) → is_Some (fd_table w !! STDOUT_FILENO) →
  posix_replies (fd_table w) os →
  let r := setup_io_redirection cmd is_background os w in
  let fails :=
    stream_fails (input_file cmd) is_background (open_input os) (dup2_input os)
    || stream_fails (output_file cmd) is_background (open_output os) (dup2_output os) in
  r.1 = (if fails then -1 else 0)
  ∧ (fails = false →
     fd_table r.2
     = redirected (output_file cmd) O_WRONLY_CREAT_TRUNC O_WRONLY is_background
         STDOUT_FILENO
         (redirected (input_file cmd) O_RDONLY O_RDONLY is_background STDIN_FILENO
            (fd_table w)))
  ∧ (∀ fd, fd ≠ STDIN_FILENO → fd ≠ STDOUT_FILENO → fd_table r.2 !! fd = fd_table w !! fd)
  ∧ ∃ new,
      child_trace r.2 = child_trace w ++ new
      ∧ (if fails then ∃ message, ChildPerror message ∈ new
         else ∀ message, ChildPerror message ∉ new)
      ∧ ∀ file arguments, SysExecvp file arguments ∉ new.
Proof.
  intros Hin Hout (Hopen1 & _ & Hopen2 & _). cbn zeta.
  unfold setup_io_redirection. rewrite child_bind_run.
  destruct (redirect_stream_run (input_file cmd) O_RDONLY O_RDONLY is_background
              STDIN_FILENO (open_input os) (dup2_input os)
              "Input redirection failed" "dup2 input failed"
              "Failed to open /dev/null for input" "dup2 /dev/null input failed"
              w Hin Hopen1) as (Hr1 & Htable1 & new1 & Htrace1 & Hperror1 & Hexec1).
  cbn zeta in Hr1, Htable1, Htrace1. rewrite Hr1.
  set (w1 := (_ w).2) in *.
  destruct (stream_fails (input_file cmd) is_background (open_input os) (dup2_input os)).
  { cbn. split; [done|]. split; [done|]. split; [by rewrite Htable1|]. by exists new1. }
  cbn [orb]. change (0 =? -1) with false. cbn iota.
  assert (Hout1 : is_Some (fd_table w1 !! STDOUT_FILENO)).
  { by rewrite Htable1, redirected_lookup. }
  assert (Hopen21 : open_output os = -1 ∨ fd_table w1 !! open_output os = None).
  { destruct Hopen2 as [|Hfresh]; [by left|right].
    rewrite Htable1, redirected_lookup; [done|].
    intros Heq. rewrite Heq in Hfresh. destruct Hin as [? Hin]. congruence. }
  destruct (redirect_stream_run (output_file cmd) O_WRONLY_CREAT_TRUNC O_WRONLY
              is_background STDOUT_FILENO (open_output os) (dup2_output os)
              "Output redirection failed" "dup2 output failed"
              "Failed to open /dev/null for output" "dup2 /dev/null output failed"
              w1 Hout1 Hopen21) as (Hr2 & Htable2 & new2 & Htrace2 & Hperror2 & Hexec2).
  cbn zeta in Hr2, Htable2, Htrace2.
  split; [done|]. split.
  { intros Hok. rewrite Hok in Htable2. by rewrite Htable2, Htable1. }
  split.
  { intros fd Hfd0 Hfd1. rewrite Htable2.
    destruct (stream_fails (output_file cmd) _ _ _);
      by rewrite ?redirected_lookup, Htable1, ?redirected_lookup. }
  exists (new1 ++ new2). split; [by rewrite Htrace2, Htrace1, app_assoc|]. split.
  - destruct (stream_fails (output_file cmd) _ _ _).
    + destruct Hperror2 as [message Hmessage]. exists message. apply elem_of_app. by right.
    + intros message [?|?]%elem_of_app; [by apply (Hperror1 message)|by apply (Hperror2 message)].
  - intros file arguments [?|?]%elem_of_app; [by eapply Hexec1|by eapply Hexec2].
Qed.

(** X17.  What [setup_io_redirection] leaves behind, on a system
    that answers as POSIX says, when standard input and output are in
    use at the start.  It returns -1 exactly when one of the calls it
    makes fails, and always after a [perror]; otherwise it returns 0
    and has printed nothing.  When it returns 0, standard input refers
    to the input file of the command, or to [/dev/null] if the command
    has none and runs in the background, or to what it referred to
    before; the same for standard output, its file being created or
    truncated.  In every case, every descriptor it opened is closed
    again: the descriptors other than 0 and 1 are as they were. *)
Theorem io_redirection_outcome cmd is_background os w :
  is_Some (fd_table w !! STDIN_FILENO) → is_Some (fd_table w !! STDOUT_FILENO) →
  posix_replies (fd_table w) os →
  let '(r, w') := setup_io_redirection cmd is_background os w in
  let fails :=
    stream_fails (input_file cmd) is_background (open_input os) (dup2_input os)
    || stream_fails (output_file cmd) is_background (open_output os) (dup2_output os) in
  r = (if fails then -1 else 0)
  ∧ (r = 0 →
     fd_table w'
     = redirected (output_file cmd) O_WRONLY_CREAT_TRUNC O_WRONLY is_background
         STDOUT_FILENO
         (redirected (input_file cmd) O_RDONLY O_RDONLY is_background STDIN_FILENO
            (fd_table w)))
  ∧ (∀ fd, fd ≠ STDIN_FILENO → fd ≠ STDOUT_FILENO → fd_table w' !! fd = fd_table w !! fd)
  ∧ ∃ new,
      child_trace w' = child_trace w ++ new
      ∧ (r = -1 ↔ ∃ message, ChildPerror message ∈ new).
Proof.
  intros Hin Hout Hos.
  pose proof (setup_io_redirection_run cmd is_background os w Hin Hout Hos) as Hrun.
  destruct (setup_io_redirection cmd is_background os w) as [r w'].
  cbn zeta in *. cbn [fst snd] in Hrun.
  destruct Hrun as (-> & Htable & Hothers & new & Htrace & Hperror & _).
  split; [done|]. split.
  { destruct (_ || _); [done|]. intros _. by apply Htable. }
  split; [done|]. exists new. split; [done|].
  destruct (_ || _); [done|]. split; [done|]. intros [message Hmessage].
  by destruct (Hperror message).
Qed.


(** X19.  The redirection relies on standard input being in use.  If
    the shell was started with descriptor 0 closed, [open] answers 0
    for the input file of a foreground command, as POSIX says (the
    lowest free descriptor); [dup2(0, 0)] changes nothing, and the
    [close] that follows closes the file again: [setup_io_redirection]
    reports success and the command runs without any standard input. *)
Theorem redirection_needs_open_stdin cmd file is_background os w :
  fd_table w !! STDIN_FILENO = None →
  input_file cmd = Some file → output_file cmd = None →
  truthy is_background = false →
  open_input os = STDIN_FILENO → dup2_input os = STDIN_FILENO →
  let '(r, w') := setup_io_redirection cmd is_background os w in
  r = 0
  ∧ fd_table w' !! STDIN_FILENO = None
  ∧ child_trace w' = child_trace w ++ [SysOpen (text file) O_RDONLY; SysDup2 0 0; SysClose 0].
Proof.
  intros Hclosed Hfile Hnone Hfg Hopen Hdup.
  unfold setup_io_redirection, redirect_to. rewrite Hfile, Hnone, Hfg, Hopen, Hdup.
  unfold STDIN_FILENO in *. child_run. cbn. rewrite lookup_insert_eq. cbn.
  rewrite lookup_delete_eq, <- !app_assoc. done.
Qed.

Lemma io_redirection_outcome_witness :
  let cmd := parsed ("sort < in &" +:+ NL) in
  let os := RedirectReplies 3 0 (-1) 1 in
  let w := forked [0; 1; 2] in
  let '(r, w') := setup_io_redirection cmd 1 os w in
  let fails :=
    stream_fails (input_file cmd) 1 (open_input os) (dup2_input os)
    || stream_fails (output_file cmd) 1 (open_output os) (dup2_output os) in
  r = (if fails then -1 else 0)
  ∧ (r = 0 →
     fd_table w'
     = redirected (output_file cmd) O_WRONLY_CREAT_TRUNC O_WRONLY 1 STDOUT_FILENO
         (redirected (input_file cmd) O_RDONLY O_RDONLY 1 STDIN_FILENO (fd_table w)))
  ∧ (∀ fd, fd ≠ STDIN_FILENO → fd ≠ STDOUT_FILENO → fd_table w' !! fd = fd_table w !! fd)
  ∧ ∃ new,
      child_trace w' = child_trace w ++ new
      ∧ (r = -1 ↔ ∃ message, ChildPerror message ∈ new).
Proof.
  intros cmd os w. apply (io_redirection_outcome cmd 1 os w).
  - by eexists.
  - by eexists.
  - repeat split; [by right|by right|by left|by right].
Defined.


Lemma redirection_needs_open_stdin_witness :
  let cmd := parsed ("sort < in" +:+ NL) in
  let os := RedirectReplies 0 0 (-1) (-1) in
  let w := forked [1; 2] in
  let '(r, w') := setup_io_redirection cmd 0 os w in
  r = 0
  ∧ fd_table w' !! STDIN_FILENO = None
  ∧ child_trace w' = child_trace w ++ [SysOpen "in" O_RDONLY; SysDup2 0 0; SysClose 0].
Proof.
  intros cmd os w.
  apply (redirection_needs_open_stdin cmd (CStr 6%nat "in") 0 os w); reflexivity.
Defined.
